(** * rss_monitor: a shallow embedding of [rss_monitor.py] and its properties

    The script polls a list of feeds, derives an identifier for every entry,
    skips the entries whose identifier is already stored for the feed, fetches
    the linked page, filters by keyword, stores and mails the accepted
    entries, counts consecutive parse failures per feed and finally prunes
    old articles.

    Modelling conventions.
    - A Python [str] is a [string]: the bytes of its UTF-8 encoding.
      Concatenation, emptiness, the [in] test and the replacement of the
      letter Z agree on code points and on UTF-8 bytes.
    - A [datetime] is the reading of its calendar and clock fields, in
      microseconds, with its UTC offset when it has one; [datetime.now()] is
      naive. The [sqlite3] module binds a [datetime] as the text of
      [isoformat(" ")], so the prune compares texts, byte by byte. Counters
      are unbounded integers.
    - [hashlib.sha256] is the module [SHA256]. The other library functions
      whose result is a function of their arguments ([str.lower],
      [datetime.fromisoformat], [datetime.isoformat], readability,
      [HTMLParser]) are the fields of
      the class [PyLib]; [raise_for_status] raises for the status codes 400
      to 599, as the requests library documents.
    - The answers of the outside world during one run (the feed parser, the
      HTTP client, the clock) are an [Env]: each answer is indexed by the
      number of external calls made so far, and every external call is
      recorded in a [Trace]. A mail handed to [send_email] is a call of the
      trace; whether it is delivered changes nothing in the script.
    - The SQLite file is a [DB]: the [feeds] table keyed by its primary key
      and the [articles] table as the list of its rows. Each [with] block is
      a transaction: an exception inside it leaves the database as it was
      when the block was entered and ends the run.
    - [ensure_storage_dir] and [init_db] change nothing in an existing
      database, and [log] prints nothing since [DEBUG] is 0: they have no
      counterpart here. *)

From Stdlib Require Import ZArith Lia Ascii.
From stdpp Require Import base tactics option list strings gmap pretty.

Local Open Scope Z_scope.
Set Warnings "-clear-no-such-hyp".

(** ** Python strings *)

(** [bool(s)] for a string: the empty string is falsy. *)
Definition truthy (s : string) : bool :=
  match s with
  | EmptyString => false
  | String _ _ => true
  end.

(** [x or d] where [x] is a string or [None]. *)
Definition or_else (x : option string) (d : string) : string :=
  match x with
  | Some s => if truthy s then s else d
  | None => d
  end.

(** [s.startswith(p)]. *)
Fixpoint starts_with (p s : string) : bool :=
  match p, s with
  | EmptyString, _ => true
  | String a p', String b s' => if Ascii.eqb a b then starts_with p' s' else false
  | String _ _, EmptyString => false
  end.

(** [needle in hay]: [needle] occurs in [hay] as a contiguous substring. *)
Fixpoint str_in (needle hay : string) : bool :=
  starts_with needle hay ||
  match hay with
  | EmptyString => false
  | String _ hay' => str_in needle hay'
  end.

(** [s.replace(<Z>, <+00:00>)]: every occurrence of the letter Z is replaced. *)
Fixpoint replace_Z (s : string) : string :=
  match s with
  | EmptyString => EmptyString
  | String c s' =>
      if Ascii.eqb c "Z"%char then "+00:00" +:+ replace_Z s'
      else String c (replace_Z s')
  end.

(** The line feed of the f-strings. *)
Definition LF : string := String (ascii_of_nat 10) EmptyString.

(** [a < b] for two [TEXT] values of SQLite under the default collation:
    the bytes are compared in turn, and a proper prefix comes first. *)
Fixpoint text_lt (a b : string) : bool :=
  match a, b with
  | _, EmptyString => false
  | EmptyString, String _ _ => true
  | String x a', String y b' =>
      if (N_of_ascii x <? N_of_ascii y)%N then true
      else if (N_of_ascii y <? N_of_ascii x)%N then false
      else text_lt a' b'
  end.

(** ** [hashlib.sha256]: SHA-256 over the bytes of a string (FIPS 180-4) *)

Module SHA256.

Definition wrap32 (x : Z) : Z := x mod 4294967296.

Definition rotr (n x : Z) : Z :=
  Z.lor (Z.shiftr x n) (wrap32 (Z.shiftl x (32 - n))).

Definition Ch (x y z : Z) : Z :=
  Z.lxor (Z.land x y) (Z.land (Z.lxor x 0xffffffff) z).

Definition Maj (x y z : Z) : Z :=
  Z.lxor (Z.lxor (Z.land x y) (Z.land x z)) (Z.land y z).

Definition Sigma0 (x : Z) : Z := Z.lxor (Z.lxor (rotr 2 x) (rotr 13 x)) (rotr 22 x).
Definition Sigma1 (x : Z) : Z := Z.lxor (Z.lxor (rotr 6 x) (rotr 11 x)) (rotr 25 x).
Definition sigma0 (x : Z) : Z := Z.lxor (Z.lxor (rotr 7 x) (rotr 18 x)) (Z.shiftr x 3).
Definition sigma1 (x : Z) : Z := Z.lxor (Z.lxor (rotr 17 x) (rotr 19 x)) (Z.shiftr x 10).

(** The first sixty-four primes. *)
Definition primes : list Z :=
  [ 2; 3; 5; 7; 11; 13; 17; 19; 23; 29; 31; 37; 41; 43; 47; 53; 59; 61; 67; 71;
    73; 79; 83; 89; 97; 101; 103; 107; 109; 113; 127; 131; 137; 139; 149; 151;
    157; 163; 167; 173; 179; 181; 191; 193; 197; 199; 211; 223; 227; 229; 233;
    239; 241; 251; 257; 263; 269; 271; 277; 281; 283; 293; 307; 311 ].

(** The integer cube root of [n] below [2 ^ bits], found bit by bit from the
    top. *)
Fixpoint cube_root (bits : nat) (n r : Z) : Z :=
  match bits with
  | O => r
  | S b =>
      let c := r + 2 ^ Z.of_nat b in
      cube_root b n (if c * c * c <=? n then c else r)
  end.

(** The round constants: the first 32 bits of the fractional parts of the
    cube roots of the first sixty-four primes. *)
Definition K : list Z :=
  (fun p => wrap32 (cube_root 36 (p * 2 ^ 96) 0)) <$> primes.

(** The initial hash value: the first 32 bits of the fractional parts of the
    square roots of the first eight primes. *)
Definition H0 : list Z :=
  (fun p => wrap32 (Z.sqrt (p * 2 ^ 64))) <$> take 8 primes.

Fixpoint bytes (s : string) : list Z :=
  match s with
  | EmptyString => []
  | String c s' => Z.of_N (N_of_ascii c) :: bytes s'
  end.

(** The message, the byte 0x80, zero bytes up to 56 modulo 64, and the bit
    length on eight bytes, most significant first. *)
Definition pad (msg : list Z) : list Z :=
  let l := Z.of_nat (length msg) in
  msg ++ [128] ++ replicate (Z.to_nat ((55 - l) mod 64)) 0 ++
  ((fun i => Z.shiftr (8 * l) (8 * i) mod 256) <$> [7; 6; 5; 4; 3; 2; 1; 0]).

(** Big-endian 32-bit words of a byte list whose length is a multiple of 4. *)
Fixpoint words (bs : list Z) : list Z :=
  match bs with
  | b3 :: b2 :: b1 :: b0 :: rest =>
      (((b3 * 256 + b2) * 256 + b1) * 256 + b0) :: words rest
  | _ => []
  end.

(** [n] more words of the message schedule; [rev_w] holds the schedule so
    far, latest word first. *)
Fixpoint extend (n : nat) (rev_w : list Z) : list Z :=
  match n with
  | O => rev_w
  | S n' =>
      let w i := rev_w !!! i in
      extend n' (wrap32 (sigma1 (w 1%nat) + w 6%nat + sigma0 (w 14%nat) + w 15%nat) :: rev_w)
  end.

Definition schedule (block : list Z) : list Z := rev (extend 48 (rev block)).

Definition round (v : list Z) (kw : Z * Z) : list Z :=
  match v with
  | [a; b; c; d; e; f; g; h] =>
      let t1 := h + Sigma1 e + Ch e f g + kw.1 + kw.2 in
      let t2 := Sigma0 a + Maj a b c in
      [wrap32 (t1 + t2); a; b; c; wrap32 (d + t1); e; f; g]
  | _ => v
  end.

Definition compress (h : list Z) (block : list Z) : list Z :=
  zip_with (fun x y => wrap32 (x + y)) h (foldl round h (zip K (schedule block))).

(** The blocks of sixteen words of a word list, hashed in turn; [n] bounds
    the number of blocks. *)
Fixpoint blocks (n : nat) (h : list Z) (ws : list Z) : list Z :=
  match n, ws with
  | S n', _ :: _ => blocks n' (compress h (take 16 ws)) (drop 16 ws)
  | _, _ => h
  end.

Definition hex_digit (n : Z) : ascii :=
  ascii_of_N (Z.to_N (if n <? 10 then 48 + n else 87 + n)).

Definition hex_word (w : Z) : string :=
  foldr (fun i s => String (hex_digit (Z.shiftr w (4 * i) mod 16)) s) EmptyString
        [7; 6; 5; 4; 3; 2; 1; 0].

Definition hexdigest (s : string) : string :=
  let ws := words (pad (bytes s)) in
  foldr (fun w acc => hex_word w +:+ acc) EmptyString (blocks (length ws) H0 ws).

End SHA256.

(** ** Dates *)

(** A [datetime]: [wall] is what its year, month, day, hour, minute, second
    and microsecond read, counted in microseconds from the midnight that
    begins 1970 on the same calendar; [utcoffset] is the offset of its
    [tzinfo] in seconds, and [None] for a naive datetime. *)
Record datetime := {
  wall : Z;
  utcoffset : option Z
}.

(** The naive datetime that reads [t]. *)
Definition naive (t : Z) : datetime := {| wall := t; utcoffset := None |}.

(** ** Library functions *)

Class PyLib := {
  (** [s.lower()] *)
  str_lower : string -> string;
  (** [datetime.fromisoformat(s)]; [None] when it raises [ValueError] *)
  fromisoformat : string -> option datetime;
  (** [d.isoformat(sep)]; [sep] is the letter T unless given *)
  isoformat : ascii -> datetime -> string;
  (** [Document(text).summary()]; [None] when it raises *)
  readability_summary : string -> option string;
  (** the arguments of the successive [handle_data] calls made by
      [HTMLParser.feed(content)]; [None] when it raises *)
  html_data : string -> option (list string)
}.

(** ** Configuration *)

Record Config := {
  RSS_FEEDS : list (string * option string);
  PRUNE_OLDER_THAN_DAYS : Z;
  ERROR_THRESHOLD : Z
}.

(** The constants of the script. *)
Definition script_config : Config := {|
  RSS_FEEDS := [ ("https://news.opensuse.org/feed/", Some EmptyString);
                 ("https://www.reddit.com/r/python.rss", Some "python") ];
  PRUNE_OLDER_THAN_DAYS := 30;
  ERROR_THRESHOLD := 3
|}.

(** [timedelta(days=n)] in microseconds. *)
Definition timedelta_days (n : Z) : Z := n * 86400000000.

(** [t - delta] for a datetime and a [timedelta]: the fields move, the
    [tzinfo] stays. *)
Definition datetime_sub (t : datetime) (delta : Z) : datetime :=
  {| wall := wall t - delta; utcoffset := utcoffset t |}.

(** ** Feed entries *)

(** An entry of [feed.entries]: each key is present with a string or absent. *)
Record Item := {
  item_guid : option string;
  item_link : option string;
  item_title : option string;
  item_description : option string;
  item_published : option string;
  item_pubdate : option string
}.

(** The result of [feedparser.parse]. *)
Record ParsedFeed := {
  bozo : bool;
  bozo_exception : string;
  feed_title : option string;
  entries : list Item
}.

(** [k in item and item.k]: the value when the key is present and truthy. *)
Definition present_truthy (x : option string) : option string :=
  match x with
  | Some s => if truthy s then Some s else None
  | None => None
  end.

Section Pure.
Context {lib : PyLib}.

(** The GUID, else the link, else the digest of title and date. *)
Definition get_article_identifier (item : Item) : string :=
  match present_truthy (item_guid item) with
  | Some guid => guid
  | None =>
      match present_truthy (item_link item) with
      | Some link => link
      | None =>
          let title := default EmptyString (item_title item) in
          let pubdate :=
            default (default EmptyString (item_pubdate item)) (item_published item) in
          SHA256.hexdigest (title +:+ pubdate)
      end
  end.

(** The keyword filter; [filter_keywords] is a string of the configuration,
    possibly empty, or [None]. *)
Definition matches_filter (item : Item) (fetched_content : option string)
    (filter_keywords : option string) : bool :=
  match present_truthy filter_keywords with
  | None => true
  | Some filter_keywords =>
      let filter_keywords := str_lower filter_keywords in
      let search_text :=
        str_lower (default EmptyString (item_title item)) +:+
        str_lower (default EmptyString (item_description item)) +:+
        str_lower (or_else fetched_content EmptyString) in
      str_in filter_keywords search_text
  end.

End Pure.

(** [s[:n]]: the first [n] characters, or all of [s] when it is shorter. *)
Fixpoint slice_to (n : nat) (s : string) : string :=
  match n, s with
  | S n', String c s' => String c (slice_to n' s')
  | _, _ => EmptyString
  end.

(** [hashlib.sha256(url.encode()).hexdigest()[:16]] *)
Definition hash_feed_url (url : string) : string :=
  slice_to 16 (SHA256.hexdigest url).

(** Every character of [s] passes the test [p]. *)
Fixpoint all_chars (p : ascii -> bool) (s : string) : bool :=
  match s with
  | EmptyString => true
  | String c s' => p c && all_chars p s'
  end.

(** A digit, or a letter from a to f. *)
Definition is_hex_digit (c : ascii) : bool :=
  let n := N_of_ascii c in
  (((48 <=? n) && (n <=? 57)) || ((97 <=? n) && (n <=? 102)))%N.

(** ** The outside world *)

(** What [requests.get] does: it raises (connection error, timeout, invalid
    URL) or returns a response. *)
Inductive HttpReply :=
  | RequestFailed
  | Response (status_code : Z) (text : string).

(** The external calls of a run, in the order they are made. *)
Inductive Call :=
  | ParseCall (url : string)
  | GetCall (url : string)
  | NowCall
  | SendCall (subject body : string).

Abbreviation Trace := (list Call).

(** The answers of the outside world during one run; the first argument is
    the number of external calls made before the one answered. The clock
    answers with the reading of the naive [datetime.now()]. *)
Record Env := {
  parse_reply : nat -> string -> ParsedFeed;
  get_reply : nat -> string -> HttpReply;
  now_reply : nat -> Z
}.

Definition feedparser_parse (e : Env) (url : string) (tr : Trace) : ParsedFeed * Trace :=
  (parse_reply e (length tr) url, tr ++ [ParseCall url]).

Definition requests_get (e : Env) (url : string) (tr : Trace) : HttpReply * Trace :=
  (get_reply e (length tr) url, tr ++ [GetCall url]).

Definition datetime_now (e : Env) (tr : Trace) : Z * Trace :=
  (now_reply e (length tr), tr ++ [NowCall]).

(** [send_email] hands the message to the mail transport; a delivery failure
    is caught inside and changes nothing else. *)
Definition send_email (subject body : string) (tr : Trace) : Trace :=
  tr ++ [SendCall subject body].

(** ** Content extraction *)

(** The exceptions the [try] block of [fetch_article_content] can meet. *)
Inductive FetchError :=
  | RequestException
  | HTTPError
  | Unparseable
  | StripperError.

(** [response.raise_for_status()] raises for the 4xx and 5xx codes. *)
Definition raise_for_status (status_code : Z) : bool :=
  (400 <=? status_code) && (status_code <? 600).

Section Fetch.
Context {lib : PyLib}.

(** The body of the [try] block, from the reply of [requests.get] on. *)
Definition extract_text (r : HttpReply) : FetchError + string :=
  match r with
  | RequestFailed => inl RequestException
  | Response status_code text =>
      if raise_for_status status_code then inl HTTPError
      else
        match readability_summary text with
        | None => inl Unparseable
        | Some content =>
            match html_data content with
            | None => inl StripperError
            | Some fed => inr (String.concat EmptyString fed)
            end
        end
  end.

(** [except Exception: return None]. *)
Definition content_of_reply (r : HttpReply) : option string :=
  match extract_text r with
  | inr data => Some data
  | inl _ => None
  end.

(** One GET, then the text of the page or [None]. *)
Definition fetch_article_content (e : Env) (url : string) (tr : Trace)
    : option string * Trace :=
  let '(response, tr) := requests_get e url tr in
  (content_of_reply response, tr).

End Fetch.

(** ** The database *)

Record FeedRow := {
  last_checked : Z;
  failure_count : Z
}.

Record ArticleRow := {
  rowid : Z;
  feed_url : string;
  identifier : string;
  title : string;
  link : string;
  description : string;
  fetched_content : option string;
  pub_date : datetime
}.

(** [feeds] has [feed_url] as primary key; [articles] is the list of its rows
    in insertion order; [last_id] is the AUTOINCREMENT counter. A row holds
    the values bound when it was written: [last_checked] is the reading of
    the naive datetime bound, [pub_date] the datetime bound; what SQLite
    keeps of a datetime is its text, [adapt_datetime]. *)
Record DB := {
  feeds : gmap string FeedRow;
  articles : list ArticleRow;
  last_id : Z
}.

Definition empty_db : DB := {| feeds := ∅; articles := []; last_id := 0 |}.

(** The pairs constrained by [UNIQUE(feed_url, identifier)]. *)
Definition article_key (a : ArticleRow) : string * string := (feed_url a, identifier a).

Definition unique_ok (d : DB) : Prop := NoDup (article_key <$> articles d).

(** [INSERT OR IGNORE INTO feeds (feed_url, last_checked, failure_count)
    VALUES (?, ?, 0)] *)
Definition insert_or_ignore_feed (url : string) (now : Z) (d : DB) : DB :=
  match feeds d !! url with
  | Some _ => d
  | None =>
      {| feeds := <[url := {| last_checked := now; failure_count := 0 |}]> (feeds d);
         articles := articles d; last_id := last_id d |}
  end.

(** [UPDATE feeds SET failure_count = failure_count + 1 WHERE feed_url = ?] *)
Definition increment_failure_count (url : string) (d : DB) : DB :=
  {| feeds := alter (fun r => {| last_checked := last_checked r;
                                 failure_count := failure_count r + 1 |}) url (feeds d);
     articles := articles d; last_id := last_id d |}.

(** [SELECT failure_count FROM feeds WHERE feed_url = ?] then [fetchone()]. *)
Definition select_failure_count (url : string) (d : DB) : option Z :=
  failure_count <$> feeds d !! url.

(** [UPDATE feeds SET failure_count = 0, last_checked = ? WHERE feed_url = ?] *)
Definition reset_failure_count (now : Z) (url : string) (d : DB) : DB :=
  {| feeds := alter (fun _ => {| last_checked := now; failure_count := 0 |}) url (feeds d);
     articles := articles d; last_id := last_id d |}.

(** [SELECT identifier FROM articles WHERE feed_url = ?] *)
Definition select_identifiers (url : string) (d : DB) : list string :=
  identifier <$> filter (fun a => feed_url a = url) (articles d).

(** One element of [new_articles]. *)
Record NewArticle := {
  na_identifier : string;
  na_title : string;
  na_link : string;
  na_description : string;
  na_fetched_content : option string;
  na_pub_date : datetime
}.

(** [INSERT INTO articles (...) VALUES (...)]: [None] is the
    [sqlite3.IntegrityError] of the UNIQUE constraint. *)
Definition insert_article (url : string) (a : NewArticle) (d : DB) : option DB :=
  if decide ((url, na_identifier a) ∈ article_key <$> articles d) then None
  else
    Some {| feeds := feeds d;
            articles := articles d ++
              [ {| rowid := last_id d + 1; feed_url := url;
                   identifier := na_identifier a; title := na_title a;
                   link := na_link a; description := na_description a;
                   fetched_content := na_fetched_content a;
                   pub_date := na_pub_date a |} ];
            last_id := last_id d + 1 |}.

Section Timestamps.
Context {lib : PyLib}.

(** What [sqlite3] binds for a [datetime], in a row and in a parameter: its
    default adapter returns [val.isoformat(" ")]. *)
Definition adapt_datetime (t : datetime) : string := isoformat " " t.

(** [pub_date < ?] as SQLite evaluates it: the column holds the text of the
    datetime inserted, the parameter is the text of the cutoff, and the two
    texts are compared. *)
Definition pub_date_lt (a : ArticleRow) (cutoff : datetime) : bool :=
  text_lt (adapt_datetime (pub_date a)) (adapt_datetime cutoff).

(** [DELETE FROM articles WHERE pub_date < ?] *)
Definition delete_older (cutoff : datetime) (d : DB) : DB :=
  {| feeds := feeds d;
     articles := filter (fun a => pub_date_lt a cutoff = false) (articles d);
     last_id := last_id d |}.

End Timestamps.

(** ** The orchestrator *)

(** Python exceptions that escape [monitor_feeds]. *)
Inductive Exn :=
  | IntegrityError
  | TypeError.

(** How a block of the script ends: normally, or with an exception that
    leaves [monitor_feeds]; the database is the committed one. *)
Inductive Outcome :=
  | Done (d : DB) (tr : Trace)
  | Raised (x : Exn) (d : DB) (tr : Trace).

Definition outcome_db (o : Outcome) : DB :=
  match o with Done d _ | Raised _ d _ => d end.

Definition outcome_trace (o : Outcome) : Trace :=
  match o with Done _ tr | Raised _ _ tr => tr end.

(** What a Python function hands back to its caller. *)
Inductive PyValue :=
  | PyNone
  | PyInt (n : Z).

(** The text of the alert mail. *)
Definition alert_subject (url : string) : string := "RSS Monitor Error: " +:+ url.

Definition alert_body (url : string) (failure_count : Z) (bozo_exception : string) : string :=
  "Failed to parse feed " +:+ url +:+ " " +:+ pretty failure_count +:+
  " times. Error: " +:+ bozo_exception.

(** The text of the article mail. *)
Definition news_subject (feed_title : string) : string := "New RSS Articles: " +:+ feed_title.

Definition news_header (feed_title : string) : string :=
  "New articles in " +:+ feed_title +:+ ":" +:+ LF +:+ LF.

Definition article_block (a : NewArticle) : string :=
  "Title: " +:+ na_title a +:+ LF +:+
  "Link: " +:+ na_link a +:+ LF +:+
  "Content: " +:+ or_else (na_fetched_content a) (na_description a) +:+ LF +:+ LF.

(** The loop over [new_articles]: the body of the mail grows and each
    article is inserted; [None] when an insert raises. *)
Fixpoint insert_new_articles (url : string) (new_articles : list NewArticle)
    (body : string) (d : DB) : option (string * DB) :=
  match new_articles with
  | [] => Some (body, d)
  | a :: rest =>
      let body := body +:+ article_block a in
      match insert_article url a d with
      | None => None
      | Some d => insert_new_articles url rest body d
      end
  end.

(** [INSERT OR IGNORE] of a row for every configured feed. *)
Fixpoint ensure_feed_rows (e : Env) (fs : list (string * option string))
    (d : DB) (tr : Trace) : DB * Trace :=
  match fs with
  | [] => (d, tr)
  | (url, _) :: rest =>
      let '(now, tr) := datetime_now e tr in
      ensure_feed_rows e rest (insert_or_ignore_feed url now d) tr
  end.

Section Orchestrator.
Context {lib : PyLib}.

(** The state of the loop over [feed.entries]. *)
Record Scan := {
  seen : gset string;
  new_articles : list NewArticle;
  scan_trace : Trace
}.

(** [fetch_article_content(link) if link else None]. *)
Definition fetch_if_link (e : Env) (link : string) (tr : Trace) : option string * Trace :=
  if truthy link then fetch_article_content e link tr else (None, tr).

(** The publication date of an unseen entry: the clock is read for the
    default of [item.get], the string is parsed, and the clock is read again
    when the parser raises. *)
Definition read_pub_date (e : Env) (item : Item) (tr : Trace) : datetime * Trace :=
  let '(now, tr) := datetime_now e tr in
  let pub_date :=
    default (default (isoformat "T" (naive now)) (item_pubdate item))
      (item_published item) in
  match fromisoformat (replace_Z pub_date) with
  | Some t => (t, tr)
  | None => let '(now, tr) := datetime_now e tr in (naive now, tr)
  end.

(** One turn of the loop over [feed.entries]. *)
Definition scan_item (e : Env) (filter_keywords : option string)
    (s : Scan) (item : Item) : Scan :=
  let identifier := get_article_identifier item in
  if decide (identifier ∈ seen s) then s
  else
    let tr := scan_trace s in
    let title := default "No title" (item_title item) in
    let link := default "No link" (item_link item) in
    let description := default "No description" (item_description item) in
    let '(fetched_content, tr) := fetch_if_link e link tr in
    let '(pub_date, tr) := read_pub_date e item tr in
    if matches_filter item fetched_content filter_keywords then
      {| seen := seen s ∪ {[identifier]};
         new_articles := new_articles s ++
           [ {| na_identifier := identifier; na_title := title; na_link := link;
                na_description := description;
                na_fetched_content := fetched_content;
                na_pub_date := pub_date |} ];
         scan_trace := tr |}
    else
      {| seen := seen s; new_articles := new_articles s; scan_trace := tr |}.

(** The tuple [scan_item] appends to [new_articles] for an accepted entry. *)
Definition accepted (item : Item) (fetched_content : option string)
    (pub_date : datetime) : NewArticle :=
  {| na_identifier := get_article_identifier item;
     na_title := default "No title" (item_title item);
     na_link := default "No link" (item_link item);
     na_description := default "No description" (item_description item);
     na_fetched_content := fetched_content;
     na_pub_date := pub_date |}.

(** The body of the loop over [RSS_FEEDS], for one feed. *)
Definition process_feed (cfg : Config) (e : Env) (url : string)
    (filter_keywords : option string) (d : DB) (tr : Trace) : Outcome :=
  let '(feed, tr) := feedparser_parse e url tr in
  if bozo feed then
    let d1 := increment_failure_count url d in
    match select_failure_count url d1 with
    | None => Raised TypeError d tr
    | Some failure_count =>
        let tr :=
          if ERROR_THRESHOLD cfg <=? failure_count
          then send_email (alert_subject url)
                 (alert_body url failure_count (bozo_exception feed)) tr
          else tr in
        Done d1 tr
    end
  else
    let '(now, tr) := datetime_now e tr in
    let d1 := reset_failure_count now url d in
    let s := foldl (scan_item e filter_keywords)
               {| seen := list_to_set (select_identifiers url d1);
                  new_articles := []; scan_trace := tr |}
               (entries feed) in
    let tr := scan_trace s in
    match new_articles s with
    | [] => Done d1 tr
    | _ :: _ =>
        let feed_title := default url (feed_title feed) in
        match insert_new_articles url (new_articles s) (news_header feed_title) d1 with
        | None => Raised IntegrityError d tr
        | Some (body, d2) => Done d2 (send_email (news_subject feed_title) body tr)
        end
    end.

(** The loop over [RSS_FEEDS]; an exception ends it. *)
Fixpoint poll_feeds (cfg : Config) (e : Env) (fs : list (string * option string))
    (d : DB) (tr : Trace) : Outcome :=
  match fs with
  | [] => Done d tr
  | (url, filter_keywords) :: rest =>
      match process_feed cfg e url filter_keywords d tr with
      | Done d tr => poll_feeds cfg e rest d tr
      | Raised x d tr => Raised x d tr
      end
  end.

(** The function has no [return]: its value is [None]. *)
Definition prune_old_articles (cfg : Config) (e : Env) (d : DB) (tr : Trace)
    : PyValue * DB * Trace :=
  let '(now, tr) := datetime_now e tr in
  let cutoff := datetime_sub (naive now) (timedelta_days (PRUNE_OLDER_THAN_DAYS cfg)) in
  (PyNone, delete_older cutoff d, tr).

(** One run of the script, from the database [d]. *)
Definition monitor_feeds (cfg : Config) (e : Env) (d : DB) : Outcome :=
  let '(d, tr) := ensure_feed_rows e (RSS_FEEDS cfg) d [] in
  match poll_feeds cfg e (RSS_FEEDS cfg) d tr with
  | Done d tr =>
      let '(_, d, tr) := prune_old_articles cfg e d tr in
      Done d tr
  | Raised x d tr => Raised x d tr
  end.

(** Successive runs of the script, one [Env] each; a run starts from the
    database its predecessor committed. *)
Fixpoint run_passes (cfg : Config) (es : list Env) (d : DB) : DB :=
  match es with
  | [] => d
  | e :: rest => run_passes cfg rest (outcome_db (monitor_feeds cfg e d))
  end.

End Orchestrator.

(** ** Notions used in the statements *)

(** The rows of one feed. *)
Definition articles_of (url : string) (d : DB) : list ArticleRow :=
  filter (fun a => feed_url a = url) (articles d).

(** The identifiers stored for a feed, as the set [seen] starts from. *)
Definition known (url : string) (d : DB) : gset string :=
  list_to_set (select_identifiers url d).

(** The persisted failure counter of a feed; a feed without a row has not
    failed yet. *)
Definition failure_count_of (url : string) (d : DB) : Z :=
  default 0 (select_failure_count url d).

(** The rows the loop over [new_articles] appends, numbered from [n + 1]. *)
Fixpoint rows_of (url : string) (n : Z) (news : list NewArticle) : list ArticleRow :=
  match news with
  | [] => []
  | a :: rest =>
      {| rowid := n + 1; feed_url := url;
         identifier := na_identifier a; title := na_title a;
         link := na_link a; description := na_description a;
         fetched_content := na_fetched_content a;
         pub_date := na_pub_date a |} :: rows_of url (n + 1) rest
  end.

Definition with_new_rows (url : string) (news : list NewArticle) (d : DB) : DB :=
  {| feeds := feeds d;
     articles := articles d ++ rows_of url (last_id d) news;
     last_id := last_id d + Z.of_nat (length news) |}.

(** The part of the mail body that lists the articles. *)
Fixpoint mail_blocks (news : list NewArticle) : string :=
  match news with
  | [] => EmptyString
  | a :: rest => article_block a +:+ mail_blocks rest
  end.

(** The calls the loop over the entries makes: page fetches and clock
    readings. *)
Definition is_probe (c : Call) : Prop :=
  match c with
  | GetCall _ | NowCall => True
  | ParseCall _ | SendCall _ _ => False
  end.

(** What the processing of one feed can change: its own row in [feeds], and
    rows appended to [articles] under its own URL. *)
Definition feed_step (url : string) (d d' : DB) : Prop :=
  (∀ u, u ≠ url → feeds d' !! u = feeds d !! u) ∧
  dom (feeds d') = dom (feeds d) ∧
  (∃ news, articles d' = articles d ++ rows_of url (last_id d) news) ∧
  (unique_ok d → unique_ok d').

(** The row a feed has when its turn comes in a run started from [d]: the
    stored one, or the one the run created with a zero counter. *)
Definition starting_row (e : Env) (d : DB) (url : string) (row : FeedRow) : Prop :=
  feeds d !! url = Some row ∨
  (feeds d !! url = None ∧
   ∃ n, row = {| last_checked := now_reply e n; failure_count := 0 |}).

(** The mails handed to the mail transport, subject and body. *)
Definition sent_mails (tr : Trace) : list (string * string) :=
  omap (fun c => match c with SendCall subject body => Some (subject, body) | _ => None end) tr.

(** What the turn of a feed may mail: nothing, the alert of a parse of the
    feed that failed, or the news of a parse of the feed that succeeded,
    under the title the parser gave or the URL. *)
Definition mails_of_turn (e : Env) (url : string) (mails : list (string * string)) : Prop :=
  mails = [] ∨
  (∃ n body, bozo (parse_reply e n url) = true ∧ mails = [(alert_subject url, body)]) ∨
  (∃ n body, bozo (parse_reply e n url) = false ∧
     mails = [(news_subject (default url (feed_title (parse_reply e n url))), body)]).

(** The mail that announces new articles, as opposed to the alert. *)
Definition is_news_mail (c : Call) : Prop :=
  ∃ feed_title body, c = SendCall (news_subject feed_title) body.

(** Whatever the moment of the run, the parser reports the feed as broken,
    or as sound. *)
Definition parse_fails (e : Env) (url : string) : Prop :=
  ∀ n, bozo (parse_reply e n url) = true.

Definition parse_succeeds (e : Env) (url : string) : Prop :=
  ∀ n, bozo (parse_reply e n url) = false.

Section Notions.
Context {lib : PyLib}.

(** The run up to the call of [prune_old_articles]. *)
Definition poll_pass (cfg : Config) (e : Env) (d : DB) : Outcome :=
  poll_feeds cfg e (RSS_FEEDS cfg)
    (ensure_feed_rows e (RSS_FEEDS cfg) d []).1
    (ensure_feed_rows e (RSS_FEEDS cfg) d []).2.

(** The loop over the entries of a feed, from a given state. *)
Definition scan_entries (e : Env) (filter_keywords : option string)
    (s : Scan) (items : list Item) : Scan :=
  foldl (scan_item e filter_keywords) s items.

(** The state in which the loop over the entries of a feed ends, when the
    feed is processed from the database [d] after the calls [tr]. *)
Definition feed_scan (e : Env) (url : string) (filter_keywords : option string)
    (d : DB) (tr : Trace) : Scan :=
  scan_entries e filter_keywords
    {| seen := known url d; new_articles := [];
       scan_trace := tr ++ [ParseCall url; NowCall] |}
    (entries (parse_reply e (length tr) url)).

(** What holds of the loop state, [seen0] being the set the loop started
    from: the new articles have distinct identifiers, none of them in
    [seen0], and [seen] is [seen0] with these identifiers added. *)
Definition scan_inv (seen0 : gset string) (s : Scan) : Prop :=
  NoDup (na_identifier <$> new_articles s) ∧
  (∀ a, a ∈ new_articles s → na_identifier a ∉ seen0) ∧
  seen s = seen0 ∪ list_to_set (na_identifier <$> new_articles s).

(** The filter rejects the entry whatever the moment its page is fetched. *)
Definition always_rejected (e : Env) (filter_keywords : option string) (item : Item) : Prop :=
  ∀ tr, matches_filter item
          (fetch_if_link e (default "No link" (item_link item)) tr).1
          filter_keywords = false.


(** An accepted article stems from an entry of [items]: it is the tuple
    built for the entry from the page fetched and the date read at some
    moment of the run, and the filter passed on that page. *)
Definition sourced (e : Env) (filter_keywords : option string) (items : list Item)
    (a : NewArticle) : Prop :=
  ∃ item tr,
    item ∈ items ∧
    a = accepted item
          (fetch_if_link e (default "No link" (item_link item)) tr).1
          (read_pub_date e item
             (fetch_if_link e (default "No link" (item_link item)) tr).2).1 ∧
    matches_filter item
      (fetch_if_link e (default "No link" (item_link item)) tr).1 filter_keywords = true.

End Notions.

(** The feeds handed to the parser, in the order of the calls. *)
Definition parse_calls (tr : Trace) : list string :=
  omap (fun c => match c with ParseCall url => Some url | _ => None end) tr.

(** The pages requested, in the order of the calls. *)
Definition get_calls (tr : Trace) : list string :=
  omap (fun c => match c with GetCall url => Some url | _ => None end) tr.


(** What a row stores of the article it was inserted for. *)
Definition row_article (a : ArticleRow) : NewArticle :=
  {| na_identifier := identifier a; na_title := title a; na_link := link a;
     na_description := description a; na_fetched_content := fetched_content a;
     na_pub_date := pub_date a |}.

(** The primary key of [articles]: the ids are distinct and none exceeds the
    AUTOINCREMENT counter. *)
Definition rowids_ok (d : DB) : Prop :=
  NoDup (rowid <$> articles d) ∧ ∀ a, a ∈ articles d → rowid a ≤ last_id d.

(** ** A library instance for the examples *)

(** ASCII letters are lowered, every other byte is kept. *)
Definition lower_ascii (c : ascii) : ascii :=
  let n := N_of_ascii c in
  if ((65 <=? n) && (n <=? 90))%N then ascii_of_N (n + 32) else c.

Fixpoint lower_string (s : string) : string :=
  match s with
  | EmptyString => EmptyString
  | String c s' => String (lower_ascii c) (lower_string s')
  end.

(** The timestamps [YYYY-MM-DD], [YYYY-MM-DD?HH:MM:SS], with an optional
    fraction of six digits, and [YYYY-MM-DD?HH:MM:SS+HH:MM] (or [-HH:MM]):
    the first two are read as naive datetimes, the last one as a datetime
    with that offset. *)
Module Iso.

Definition digit (c : ascii) : option Z :=
  let n := Z.of_N (N_of_ascii c) in
  if (48 <=? n) && (n <=? 57) then Some (n - 48) else None.

(** The number written by the first [n] characters, and the rest. *)
Fixpoint number (n : nat) (acc : Z) (s : string) : option (Z * string) :=
  match n, s with
  | O, _ => Some (acc, s)
  | S n', String c s' => d ← digit c; number n' (10 * acc + d) s'
  | S _, EmptyString => None
  end.

Definition expect (c : ascii) (s : string) : option string :=
  match s with
  | String c' s' => if Ascii.eqb c c' then Some s' else None
  | EmptyString => None
  end.

Definition days_from_civil (y m d : Z) : Z :=
  let y := if m <=? 2 then y - 1 else y in
  let era := y `div` 400 in
  let yoe := y - era * 400 in
  let doy := (153 * (if 2 <? m then m - 3 else m + 9) + 2) `div` 5 + d - 1 in
  era * 146097 + (yoe * 365 + yoe `div` 4 - yoe `div` 100 + doy) - 719468.

Definition days_in_month (y m : Z) : Z :=
  if m =? 2 then
    if ((y `mod` 4 =? 0) && negb (y `mod` 100 =? 0)) || (y `mod` 400 =? 0) then 29 else 28
  else if (m =? 4) || (m =? 6) || (m =? 9) || (m =? 11) then 30 else 31.

Definition date (s : string) : option (Z * string) :=
  '(y, s) ← number 4 0 s; s ← expect "-" s;
  '(m, s) ← number 2 0 s; s ← expect "-" s;
  '(d, s) ← number 2 0 s;
  if (1 <=? y) && (1 <=? m) && (m <=? 12) && (1 <=? d) && (d <=? days_in_month y m)
  then Some (days_from_civil y m d, s) else None.

Definition clock (s : string) : option (Z * string) :=
  '(h, s) ← number 2 0 s; s ← expect ":" s;
  '(m, s) ← number 2 0 s; s ← expect ":" s;
  '(sec, s) ← number 2 0 s;
  if (h <=? 23) && (m <=? 59) && (sec <=? 59)
  then Some ((h * 60 + m) * 60 + sec, s) else None.

(** The offset that ends the string, in seconds; [Some None] when the
    string ends without one. *)
Definition offset (s : string) : option (option Z) :=
  match s with
  | EmptyString => Some None
  | String sign s =>
      '(h, s) ← number 2 0 s; s ← expect ":" s;
      '(m, s) ← number 2 0 s;
      match s with
      | EmptyString =>
          if negb ((h <=? 23) && (m <=? 59)) then None
          else if Ascii.eqb sign "+" then Some (Some ((h * 60 + m) * 60))
          else if Ascii.eqb sign "-" then Some (Some (- ((h * 60 + m) * 60)))
          else None
      | String _ _ => None
      end
  end.

(** An optional fraction of six digits. *)
Definition fraction (s : string) : option (Z * string) :=
  match s with
  | String "." s => number 6 0 s
  | _ => Some (0, s)
  end.

Definition parse (s : string) : option datetime :=
  '(days, s) ← date s;
  match s with
  | EmptyString => Some (naive (days * 86400 * 1000000))
  | String _ s =>
      '(secs, s) ← clock s;
      '(micro, s) ← fraction s;
      off ← offset s;
      Some {| wall := (days * 86400 + secs) * 1000000 + micro; utcoffset := off |}
  end.

Definition civil_from_days (days : Z) : Z * Z * Z :=
  let z := days + 719468 in
  let era := z `div` 146097 in
  let doe := z - era * 146097 in
  let yoe := (doe - doe `div` 1460 + doe `div` 36524 - doe `div` 146096) `div` 365 in
  let doy := doe - (365 * yoe + yoe `div` 4 - yoe `div` 100) in
  let mp := (5 * doy + 2) `div` 153 in
  let d := doy - (153 * mp + 2) `div` 5 + 1 in
  let m := if mp <? 10 then mp + 3 else mp - 9 in
  (if m <=? 2 then yoe + era * 400 + 1 else yoe + era * 400, m, d).

(** [n] on [w] digits, most significant first. *)
Fixpoint digits (w : nat) (n : Z) (tail : string) : string :=
  match w with
  | O => tail
  | S w' => digits w' (n `div` 10) (String (ascii_of_N (Z.to_N (48 + n `mod` 10))) tail)
  end.

(** The offset as [isoformat] writes it, for an offset of whole minutes:
    nothing for a naive datetime, else the sign, the hours and the minutes. *)
Definition format_offset (off : option Z) : string :=
  match off with
  | None => EmptyString
  | Some o =>
      let m := Z.abs o `div` 60 in
      (if o <? 0 then "-" else "+") +:+
      digits 2 (m `div` 60) (":" +:+ digits 2 (m `mod` 60) EmptyString)
  end.

(** [d.isoformat(sep)]: the microseconds are written when they are not
    zero. *)
Definition format (sep : ascii) (dt : datetime) : string :=
  let t := wall dt in
  let micro := t `mod` 1000000 in
  let secs := t `div` 1000000 in
  let '(y, m, d) := civil_from_days (secs `div` 86400) in
  let sod := secs `mod` 86400 in
  digits 4 y ("-" +:+ digits 2 m ("-" +:+ digits 2 d (String sep (
  digits 2 (sod `div` 3600) (":" +:+ digits 2 ((sod `mod` 3600) `div` 60) (":" +:+
  digits 2 (sod `mod` 60)
    ((if micro =? 0 then EmptyString else "." +:+ digits 6 micro EmptyString)
     +:+ format_offset (utcoffset dt)))))))).


End Iso.

(** Readability stand-in: an empty document cannot be parsed, any other text
    is wrapped as the main content. *)
Definition wrap_summary (text : string) : option string :=
  if truthy text then Some ("<html><body><div>" +:+ text +:+ "</div></body></html>")
  else None.

(** The runs of characters outside the tags of [s]; [cur] is the run being
    read and [in_tag] tells whether a tag is open. *)
Fixpoint text_runs (in_tag : bool) (cur : string) (s : string) : list string :=
  match s with
  | EmptyString => if truthy cur then [cur] else []
  | String c s' =>
      if in_tag then text_runs (negb (Ascii.eqb c ">")) EmptyString s'
      else if Ascii.eqb c "<" then
        (if truthy cur then [cur] else []) ++ text_runs true EmptyString s'
      else text_runs false (cur +:+ String c EmptyString) s'
  end.

Definition example_lib : PyLib := {|
  str_lower := lower_string;
  fromisoformat := Iso.parse;
  isoformat := Iso.format;
  readability_summary := wrap_summary;
  html_data := fun content => Some (text_runs false EmptyString content)
|}.

(** [str.lower] on strings made of ASCII characters and of the Greek letters
    from capital alpha to small omega, each Greek letter being two bytes led
    by 206 or 207. A capital sigma becomes the final small sigma when a
    letter comes before it and none after it, and the plain small sigma
    otherwise; the other capitals become their small letters. *)
Definition is_ascii_letter (c : ascii) : bool :=
  let n := N_of_ascii c in
  (((65 <=? n) && (n <=? 90)) || ((97 <=? n) && (n <=? 122)))%N.

(** Whether the string begins with a letter, ASCII or Greek. *)
Definition starts_with_letter (s : string) : bool :=
  match s with
  | EmptyString => false
  | String c1 rest =>
      is_ascii_letter c1 ||
      match rest with
      | EmptyString => false
      | String c2 _ =>
          let n1 := N_of_ascii c1 in
          let n2 := N_of_ascii c2 in
          (((n1 =? 206) && (((145 <=? n2) && (n2 <=? 169)) || ((177 <=? n2) && (n2 <=? 191))))
           || ((n1 =? 207) && (128 <=? n2) && (n2 <=? 137)))%N
      end
  end.

Fixpoint lower_greek (after_letter : bool) (s : string) : string :=
  match s with
  | EmptyString => EmptyString
  | String c1 rest =>
      match rest with
      | EmptyString => String (lower_ascii c1) EmptyString
      | String c2 rest' =>
          let n1 := N_of_ascii c1 in
          let n2 := N_of_ascii c2 in
          if (n1 =? 206)%N then
            if (n2 =? 163)%N then
              String (ascii_of_N 207)
                (String (ascii_of_N
                           (if after_letter && negb (starts_with_letter rest')
                            then 130 else 131))
                   (lower_greek true rest'))
            else if ((145 <=? n2) && (n2 <=? 159))%N then
              String c1 (String (ascii_of_N (n2 + 32)) (lower_greek true rest'))
            else if ((160 <=? n2) && (n2 <=? 169))%N then
              String (ascii_of_N 207) (String (ascii_of_N (n2 - 32)) (lower_greek true rest'))
            else
              String c1 (String c2 (lower_greek ((177 <=? n2) && (n2 <=? 191))%N rest'))
          else if (n1 =? 207)%N then
            String c1 (String c2 (lower_greek ((128 <=? n2) && (n2 <=? 137))%N rest'))
          else String (lower_ascii c1) (lower_greek (is_ascii_letter c1) rest)
      end
  end.

(** The instance of the examples, with that lowering. *)
Definition greek_lib : PyLib := {|
  str_lower := lower_greek false;
  fromisoformat := Iso.parse;
  isoformat := Iso.format;
  readability_summary := wrap_summary;
  html_data := fun content => Some (text_runs false EmptyString content)
|}.

(** ** Example data *)

Definition entry_python : Item := {|
  item_guid := Some "g1";
  item_link := Some "http://example.org/a";
  item_title := Some "Python 3.13 released";
  item_description := Some "Release notes";
  item_published := Some "2024-05-01T12:00:00Z";
  item_pubdate := None
|}.

(** An entry in capital Greek letters: alpha and sigma for the title, alpha
    for the description. *)
Definition entry_greek : Item := {|
  item_guid := Some "g4";
  item_link := None;
  item_title := Some "ΑΣ";
  item_description := Some "Α";
  item_published := None;
  item_pubdate := None
|}.

(** An entry with neither GUID nor link. *)
Definition entry_bare : Item := {|
  item_guid := None;
  item_link := Some EmptyString;
  item_title := Some "Hello";
  item_description := None;
  item_published := None;
  item_pubdate := Some "2024-01-01"
|}.

(** An entry that mentions the keyword nowhere in the feed. *)
Definition entry_plain : Item := {|
  item_guid := Some "g2";
  item_link := Some "http://example.org/b";
  item_title := Some "Weekly news";
  item_description := Some "Miscellany";
  item_published := Some "not a date";
  item_pubdate := None
|}.

(** An entry dated long before the clock of the examples. *)
Definition entry_old : Item := {|
  item_guid := Some "g3";
  item_link := Some "http://example.org/c";
  item_title := Some "Python 2.0 released";
  item_description := Some "From the archive";
  item_published := Some "2000-10-16T00:00:00Z";
  item_pubdate := None
|}.

Definition feed_a : string := "https://example.org/feed".

Definition config_a : Config := {|
  RSS_FEEDS := [ (feed_a, Some "python") ];
  PRUNE_OLDER_THAN_DAYS := 30;
  ERROR_THRESHOLD := 3
|}.

Definition parsed (items : list Item) : ParsedFeed :=
  {| bozo := false; bozo_exception := EmptyString;
     feed_title := Some "Example"; entries := items |}.

Definition parsed_bozo : ParsedFeed :=
  {| bozo := true; bozo_exception := "not well-formed";
     feed_title := None; entries := [] |}.

(** 2024-05-02T12:00:00, and one second per external call. *)
Definition example_clock (n : nat) : Z := 1714651200000000 + 1000000 * Z.of_nat n.

(** The feed parses, the pages cannot be fetched. *)
Definition env_offline (items : list Item) : Env :=
  {| parse_reply := fun _ _ => parsed items;
     get_reply := fun _ _ => RequestFailed;
     now_reply := example_clock |}.

(** The feed parses, every page is served with [page] as its text. *)
Definition env_online (items : list Item) (page : string) : Env :=
  {| parse_reply := fun _ _ => parsed items;
     get_reply := fun _ _ => Response 200 page;
     now_reply := example_clock |}.

(** The feed does not parse. *)
Definition env_down : Env :=
  {| parse_reply := fun _ _ => parsed_bozo;
     get_reply := fun _ _ => RequestFailed;
     now_reply := example_clock |}.

(** A database holding one article of [feed_a], published 2024-01-01. *)
Definition db_one_old : DB :=
  {| feeds := {[ feed_a := {| last_checked := 1714000000000000; failure_count := 0 |} ]};
     articles :=
       [ {| rowid := 1; feed_url := feed_a; identifier := "g0"; title := "Old";
            link := "http://example.org/0"; description := "Old news";
            fetched_content := None; pub_date := naive 1704067200000000 |} ];
     last_id := 1 |}.

(** An article of [feed_a] with a given id, identifier and date, the rest
    as in [db_one_old]. *)
Definition article_dated (n : Z) (ident : string) (t : datetime) : ArticleRow :=
  {| rowid := n; feed_url := feed_a; identifier := ident; title := "Old";
     link := "http://example.org/0"; description := "Old news";
     fetched_content := None; pub_date := t |}.

(** The loop state before the first entry of a feed with nothing stored. *)
Definition scan_start : Scan :=
  {| seen := ∅; new_articles := []; scan_trace := [] |}.

(** A row with its feed renamed. *)
Definition with_feed_url (f : string -> string) (a : ArticleRow) : ArticleRow :=
  {| rowid := rowid a; feed_url := f (feed_url a); identifier := identifier a;
     title := title a; link := link a; description := description a;
     fetched_content := fetched_content a; pub_date := pub_date a |}.

(** * Properties *)

(** ** Strings *)


Lemma truthy_false (s : string) : truthy s = false ↔ s = EmptyString.
Proof. destruct s; simpl; split; congruence. Qed.

Lemma present_truthy_Some (x : option string) (s : string) :
  present_truthy x = Some s ↔ x = Some s ∧ s ≠ EmptyString.
Proof.
  unfold present_truthy. destruct x as [[|c t]|]; simpl;
    split; try intros [? ?]; try congruence; try (split; congruence).
Qed.

Lemma present_truthy_None (x : option string) :
  present_truthy x = None ↔ x = None ∨ x = Some EmptyString.
Proof.
  unfold present_truthy. destruct x as [[|c t]|]; simpl;
    split; try intros [? | ?]; try congruence; auto.
Qed.

Lemma or_else_empty (x : option string) : or_else x EmptyString = default EmptyString x.
Proof. destruct x as [[|c s]|]; reflexivity. Qed.

Lemma or_else_None (d : string) : or_else None d = d.
Proof. reflexivity. Qed.

Lemma string_app_cons (c : ascii) (s t : string) : String c s +:+ t = String c (s +:+ t).
Proof. reflexivity. Qed.

Lemma string_app_nil_l (s : string) : EmptyString +:+ s = s.
Proof. reflexivity. Qed.

Lemma string_app_nil_r (s : string) : s +:+ EmptyString = s.
Proof.
  induction s as [|x s IH]; [done|]. by rewrite string_app_cons, IH.
Qed.

Lemma string_app_assoc (a b c : string) : (a +:+ b) +:+ c = a +:+ b +:+ c.
Proof.
  induction a as [|x a IH]; [done|]. by rewrite !string_app_cons, IH.
Qed.

Lemma N_of_ascii_inj (x y : ascii) : N_of_ascii x = N_of_ascii y → x = y.
Proof. intros H. by rewrite <- (ascii_N_embedding x), <- (ascii_N_embedding y), H. Qed.

(** The order of texts: [a] sorts before [b] when [a] is a proper prefix of
    [b], or when at the first byte where they differ the byte of [a] is the
    smaller. *)
Lemma text_lt_spec (a b : string) :
  text_lt a b = true ↔
  (∃ c s, b = a +:+ String c s) ∨
  (∃ p x y a' b', a = p +:+ String x a' ∧ b = p +:+ String y b' ∧
                  (N_of_ascii x < N_of_ascii y)%N).
Proof.
  revert b. induction a as [|x a IH]; intros [|y b]; simpl.
  - split; [done|]. intros [(c & s & H) | (p & x & y & a' & b' & H & _)].
    + discriminate H.
    + destruct p; discriminate H.
  - split; [|done]. intros _. left. by exists y, b.
  - split; [done|]. intros [(c & s & H) | (p & x' & y & a' & b' & _ & H & _)].
    + discriminate H.
    + destruct p; discriminate H.
  - destruct (N.ltb_spec (N_of_ascii x) (N_of_ascii y)) as [Hxy|Hxy].
    + split; [|done]. intros _. right. by exists EmptyString, x, y, a, b.
    + destruct (N.ltb_spec (N_of_ascii y) (N_of_ascii x)) as [Hyx|Hyx].
      * split; [done|]. intros [(c & s & H) | (p & x' & y' & a' & b' & Ha & Hb & Hlt)].
        -- rewrite string_app_cons in H. injection H as -> _. lia.
        -- destruct p as [|c p].
           ++ rewrite string_app_nil_l in Ha, Hb. injection Ha as -> _. injection Hb as -> _. lia.
           ++ rewrite string_app_cons in Ha, Hb. injection Ha as -> _. injection Hb as -> _. lia.
      * assert (x = y) as -> by (apply N_of_ascii_inj; lia).
        rewrite IH. split.
        -- intros [(c & s & ->) | (p & x' & y' & a' & b' & -> & -> & Hlt)].
           ++ left. exists c, s. by rewrite string_app_cons.
           ++ right. exists (String y p), x', y', a', b'. by rewrite !string_app_cons.
        -- intros [(c & s & H) | (p & x' & y' & a' & b' & Ha & Hb & Hlt)].
           ++ rewrite string_app_cons in H. injection H as ->. left. by exists c, s.
           ++ destruct p as [|c p].
              ** rewrite string_app_nil_l in Ha, Hb. injection Ha as -> _. injection Hb as -> _. lia.
              ** rewrite string_app_cons in Ha, Hb. injection Ha as _ ->. injection Hb as _ ->.
                 right. by exists p, x', y', a', b'.
Qed.

Lemma starts_with_spec (p s : string) :
  starts_with p s = true ↔ ∃ rest, s = p +:+ rest.
Proof.
  revert s. induction p as [|a p IH]; intros s; simpl.
  - split; [intros _; by exists s | done].
  - destruct s as [|b s].
    + split; [discriminate | intros [rest ?]; discriminate].
    + destruct (Ascii.eqb_spec a b) as [->|Hne].
      * rewrite IH. split; intros [rest Hr]; exists rest.
        -- by rewrite string_app_cons, Hr.
        -- rewrite string_app_cons in Hr. congruence.
      * split; [discriminate|]. intros [rest Hr].
        rewrite string_app_cons in Hr. congruence.
Qed.

(** [needle in hay] holds exactly when [hay] splits around [needle]. *)
Lemma str_in_spec (needle hay : string) :
  str_in needle hay = true ↔ ∃ before after, hay = before +:+ needle +:+ after.
Proof.
  induction hay as [|c hay IH]; simpl.
  - rewrite orb_false_r, starts_with_spec. split.
    + intros [rest ->]. by exists EmptyString, rest.
    + intros [[|b before] [after H]]; [by exists after | discriminate].
  - rewrite orb_true_iff, starts_with_spec, IH. split.
    + intros [[rest ->] | (before & after & ->)].
      * by exists EmptyString, rest.
      * by exists (String c before), after.
    + intros [[|b before] [after H]].
      * left. by exists after.
      * right. exists before, after. rewrite string_app_cons in H. congruence.
Qed.

Lemma str_in_empty (hay : string) : str_in EmptyString hay = true.
Proof. destruct hay; reflexivity. Qed.

Lemma replace_Z_app (a b : string) : replace_Z (a +:+ b) = replace_Z a +:+ replace_Z b.
Proof.
  induction a as [|c a IH]; [done|].
  rewrite string_app_cons. simpl. rewrite IH.
  destruct (Ascii.eqb c "Z"); [|done].
  by rewrite string_app_assoc.
Qed.

(** A trailing zone marker becomes a zero offset. *)
Lemma replace_Z_trailing (s : string) :
  replace_Z (s +:+ "Z") = replace_Z s +:+ "+00:00".
Proof. by rewrite replace_Z_app. Qed.

(** ** The identifier *)

(** C3. The identifier of an entry is its GUID when that is present and not
    empty, whatever the other fields hold; failing that, its link when that
    is present and not empty; failing both, the hexadecimal SHA-256 digest of
    the title followed by the publication date string ([published], else
    [pubdate]), an absent field counting as the empty string. Being a function
    of the entry, the identifier always exists and equal entries have equal
    identifiers. *)
Theorem get_article_identifier_priority (item : Item) :
  (∀ guid, item_guid item = Some guid → guid ≠ EmptyString →
     get_article_identifier item = guid) ∧
  (∀ link, (item_guid item = None ∨ item_guid item = Some EmptyString) →
     item_link item = Some link → link ≠ EmptyString →
     get_article_identifier item = link) ∧
  ((item_guid item = None ∨ item_guid item = Some EmptyString) →
   (item_link item = None ∨ item_link item = Some EmptyString) →
     get_article_identifier item =
       SHA256.hexdigest
         (default EmptyString (item_title item) +:+
          default (default EmptyString (item_pubdate item)) (item_published item))).
Proof.
  unfold get_article_identifier. repeat split.
  - intros guid Hg Hne.
    by rewrite (proj2 (present_truthy_Some _ _) (conj Hg Hne)).
  - intros link Hg Hl Hne.
    rewrite (proj2 (present_truthy_None _) Hg).
    by rewrite (proj2 (present_truthy_Some _ _) (conj Hl Hne)).
  - intros Hg Hl.
    rewrite (proj2 (present_truthy_None _) Hg).
    by rewrite (proj2 (present_truthy_None _) Hl).
Qed.


Lemma get_article_identifier_priority_witness :
  get_article_identifier entry_python = "g1" ∧
  get_article_identifier entry_bare =
    "139598244d8d29c3d7eb1ab62df60db6d1da86251edc51676878e24c4e809250".
Proof.
  split.
  - apply (proj1 (get_article_identifier_priority entry_python));
      [reflexivity | discriminate].
  - etransitivity.
    + apply (proj2 (proj2 (get_article_identifier_priority entry_bare)));
        [left; reflexivity | right; reflexivity].
    + vm_compute. reflexivity.
Defined.

(** ** The filter *)

Section Filter.
Context {lib : PyLib}.

Lemma matches_filter_no_keyword (item : Item) (fetched_content filter_keywords : option string) :
  filter_keywords = None ∨ filter_keywords = Some EmptyString →
  matches_filter item fetched_content filter_keywords = true.
Proof.
  intros H. unfold matches_filter.
  by rewrite (proj2 (present_truthy_None _) H).
Qed.

Lemma matches_filter_keyword (item : Item) (fetched_content : option string) (keyword : string) :
  keyword ≠ EmptyString →
  matches_filter item fetched_content (Some keyword) =
    str_in (str_lower keyword)
      (str_lower (default EmptyString (item_title item)) +:+
       str_lower (default EmptyString (item_description item)) +:+
       str_lower (default EmptyString fetched_content)).
Proof.
  intros Hne. unfold matches_filter.
  rewrite (proj2 (present_truthy_Some _ _) (conj eq_refl Hne)).
  by rewrite or_else_empty.
Qed.

(** C6, amended. [matches_filter] is a function of its three arguments.
    Without a keyword (absent or empty) it answers true for every entry and
    content. With a keyword it answers true exactly when the lowered keyword
    occurs as a contiguous substring of the lowered title, followed by the
    lowered description, followed by the lowered extracted content, each
    lowered on its own, an absent field or content counting as the empty
    string. *)
Theorem matches_filter_spec (item : Item) (fetched_content filter_keywords : option string) :
  (filter_keywords = None ∨ filter_keywords = Some EmptyString →
     matches_filter item fetched_content filter_keywords = true) ∧
  (∀ keyword, filter_keywords = Some keyword → keyword ≠ EmptyString →
     (matches_filter item fetched_content filter_keywords = true ↔
      ∃ before after,
        str_lower (default EmptyString (item_title item)) +:+
        str_lower (default EmptyString (item_description item)) +:+
        str_lower (default EmptyString fetched_content)
        = before +:+ str_lower keyword +:+ after)).
Proof.
  split.
  - apply matches_filter_no_keyword.
  - intros keyword -> Hne.
    by rewrite matches_filter_keyword, str_in_spec.
Qed.

(** When lowering distributes over concatenation, as a character-wise
    lowering does, the text searched is the lowered concatenation.
    [str.lower] does so on ASCII strings and not on all strings, see
    [lowered_concatenation_differs]. *)
Lemma matches_filter_lowered_concat (item : Item) (fetched_content : option string)
    (keyword : string) :
  (∀ a b, str_lower (a +:+ b) = str_lower a +:+ str_lower b) →
  keyword ≠ EmptyString →
  matches_filter item fetched_content (Some keyword) =
    str_in (str_lower keyword)
      (str_lower (default EmptyString (item_title item) +:+
                  default EmptyString (item_description item) +:+
                  default EmptyString fetched_content)).
Proof.
  intros Happ Hne. by rewrite matches_filter_keyword, !Happ.
Qed.

End Filter.

Lemma matches_filter_spec_witness :
  matches_filter (lib := example_lib) entry_python None (Some "python") = true ↔
  ∃ before after,
    "python 3.13 released" +:+ "release notes" +:+ EmptyString
    = before +:+ "python" +:+ after.
Proof.
  apply (proj2 (matches_filter_spec (lib := example_lib) entry_python None (Some "python"))
           "python"); [reflexivity | discriminate].
Defined.

(** C6 as stated fails where lowering a concatenation is not concatenating
    the lowered parts. The capital sigma that ends the title is lowered to
    the final sigma; in the concatenation of title and description it is
    followed by a letter and lowered to the plain sigma. The keyword, small
    sigma then small alpha, occurs in the lowered concatenation and not in
    the text the code searches, and the filter answers false. *)
Lemma lowered_concatenation_differs :
  str_lower (PyLib := greek_lib) "ΑΣ" = "ας" ∧
  str_lower (PyLib := greek_lib) "Α" = "α" ∧
  str_lower (PyLib := greek_lib) "σα" = "σα" ∧
  str_lower (PyLib := greek_lib) ("ΑΣ" +:+ "Α" +:+ EmptyString) = "ασα" ∧
  str_in (str_lower (PyLib := greek_lib) "σα")
    (str_lower (PyLib := greek_lib)
       (default EmptyString (item_title entry_greek) +:+
        default EmptyString (item_description entry_greek) +:+
        default EmptyString None)) = true ∧
  matches_filter (lib := greek_lib) entry_greek None (Some "σα") = false.
Proof. vm_compute. repeat split; reflexivity. Qed.

Lemma lower_string_app (a b : string) :
  lower_string (a +:+ b) = lower_string a +:+ lower_string b.
Proof.
  induction a as [|c a IH]; [done|].
  rewrite string_app_cons. simpl. by rewrite IH, string_app_cons.
Qed.

Example matches_filter_python :
  matches_filter (lib := example_lib) entry_python None (Some "PYTHON") = true.
Proof. reflexivity. Qed.

Example matches_filter_rust :
  matches_filter (lib := example_lib) entry_python (Some "About Go") (Some "rust") = false.
Proof. reflexivity. Qed.

(** ** One turn of the loop over the entries *)

Section ScanItem.
Context {lib : PyLib}.

Lemma scan_item_seen (e : Env) (kw : option string) (s : Scan) (item : Item) :
  get_article_identifier item ∈ seen s → scan_item e kw s item = s.
Proof. intros H. unfold scan_item. by rewrite decide_True. Qed.

Lemma scan_item_unseen (e : Env) (kw : option string) (s : Scan) (item : Item) :
  get_article_identifier item ∉ seen s →
  let f := fetch_if_link e (default "No link" (item_link item)) (scan_trace s) in
  let p := read_pub_date e item f.2 in
  scan_item e kw s item =
    if matches_filter item f.1 kw then
      {| seen := seen s ∪ {[get_article_identifier item]};
         new_articles := new_articles s ++ [accepted item f.1 p.1];
         scan_trace := p.2 |}
    else
      {| seen := seen s; new_articles := new_articles s; scan_trace := p.2 |}.
Proof.
  intros H. unfold scan_item. rewrite decide_False by done.
  destruct (fetch_if_link _ _ _) as [fc tr1]. simpl.
  destruct (read_pub_date _ _ _) as [pd tr2]. simpl.
  reflexivity.
Qed.

Lemma fetch_if_link_spec (e : Env) (link : string) (tr : Trace) :
  fetch_if_link e link tr =
    if truthy link
    then (content_of_reply (get_reply e (length tr) link), tr ++ [GetCall link])
    else (None, tr).
Proof. reflexivity. Qed.

Lemma read_pub_date_spec (e : Env) (item : Item) (tr : Trace) :
  let now := now_reply e (length tr) in
  let pub_date :=
    default (default (isoformat "T" (naive now)) (item_pubdate item))
      (item_published item) in
  read_pub_date e item tr =
    match fromisoformat (replace_Z pub_date) with
    | Some t => (t, tr ++ [NowCall])
    | None => (naive (now_reply e (S (length tr))), tr ++ [NowCall; NowCall])
    end.
Proof.
  unfold read_pub_date, datetime_now. simpl.
  destruct (fromisoformat _); [done|].
  rewrite length_app. simpl. rewrite Nat.add_1_r.
  by rewrite <- app_assoc.
Qed.

End ScanItem.

(** The two cases of a turn: the entry is seen and the state is kept, or it
    is unseen and the turn is the one [scan_item_unseen] describes. [H] names
    the membership, or its negation. *)
Ltac scan_item_cases e kw s item H :=
  destruct (decide (get_article_identifier item ∈ seen s)) as [H|H];
  [ rewrite (scan_item_seen e kw s item H)
  | rewrite (scan_item_unseen e kw s item H); simpl ].

(** ** Content extraction *)

Section Extraction.
Context {lib : PyLib}.

Lemma content_of_reply_failed : content_of_reply RequestFailed = None.
Proof. reflexivity. Qed.

Lemma content_of_reply_error_status (status_code : Z) (text : string) :
  400 ≤ status_code < 600 → content_of_reply (Response status_code text) = None.
Proof.
  intros H. unfold content_of_reply, extract_text, raise_for_status.
  destruct (Z.leb_spec 400 status_code); [|lia].
  destruct (Z.ltb_spec status_code 600); [|lia]. done.
Qed.

Lemma content_of_reply_unparseable (status_code : Z) (text : string) :
  readability_summary text = None → content_of_reply (Response status_code text) = None.
Proof.
  intros H. unfold content_of_reply, extract_text.
  destruct (raise_for_status status_code); [done|]. by rewrite H.
Qed.

Lemma content_of_reply_stripper (status_code : Z) (text content : string) :
  readability_summary text = Some content → html_data content = None →
  content_of_reply (Response status_code text) = None.
Proof.
  intros H1 H2. unfold content_of_reply, extract_text.
  destruct (raise_for_status status_code); [done|]. by rewrite H1, H2.
Qed.

(** The only way to a text: a response outside the 4xx and 5xx codes whose
    body readability and the tag stripper both accept. *)
Lemma content_of_reply_Some (r : HttpReply) (data : string) :
  content_of_reply r = Some data ↔
  ∃ status_code text content fed,
    r = Response status_code text ∧ ¬ (400 ≤ status_code < 600) ∧
    readability_summary text = Some content ∧ html_data content = Some fed ∧
    data = String.concat EmptyString fed.
Proof.
  unfold content_of_reply, extract_text, raise_for_status. split.
  - destruct r as [|code text]; [done|].
    destruct (Z.leb_spec 400 code), (Z.ltb_spec code 600); simpl; try done;
      destruct (readability_summary text) as [content|] eqn:Hs; try done;
      destruct (html_data content) as [fed|] eqn:Hd; try done;
      intros [= <-]; exists code, text, content, fed; repeat split; auto; lia.
  - intros (code & text & content & fed & -> & Hc & Hs & Hd & ->).
    rewrite Hs, Hd.
    destruct (Z.leb_spec 400 code), (Z.ltb_spec code 600); simpl; try done; lia.
Qed.

Lemma article_block_no_content (a : NewArticle) :
  na_fetched_content a = None →
  article_block a =
    "Title: " +:+ na_title a +:+ LF +:+
    "Link: " +:+ na_link a +:+ LF +:+
    "Content: " +:+ na_description a +:+ LF +:+ LF.
Proof. intros H. unfold article_block. by rewrite H. Qed.

End Extraction.

(** C7 as stated fails on a status outside 2xx that [raise_for_status] lets
    through: a 300 response with a body, or the 999 some sites answer to
    robots, yields the text of the body. *)
Lemma non_2xx_status_yields_content :
  ¬ (200 ≤ 300 < 300) ∧
  content_of_reply (lib := example_lib) (Response 300 "<p>Python <b>3.13</b></p>")
    = Some "Python 3.13" ∧
  ¬ (200 ≤ 999 < 300) ∧
  content_of_reply (lib := example_lib) (Response 999 "<p>Request denied</p>")
    = Some "Request denied".
Proof. repeat split; try lia; reflexivity. Qed.

(** An entry that matches only through its page is not stored when the page
    cannot be fetched, and is stored when it can. *)
Example extraction_failure_can_block_ingestion :
  new_articles (scan_item (lib := example_lib) (env_offline [entry_plain])
                  (Some "python") scan_start entry_plain) = [] ∧
  new_articles (scan_item (lib := example_lib) (env_online [entry_plain] "<p>Python</p>")
                  (Some "python") scan_start entry_plain) ≠ [].
Proof. split; [reflexivity | discriminate]. Qed.

(** ** The publication date *)

Section PubDate.
Context {lib : PyLib}.

(** The date string the feed supplies: [published], else [pubdate]. *)
Lemma supplied_date (item : Item) (s d : string) :
  item_published item = Some s ∨ (item_published item = None ∧ item_pubdate item = Some s) →
  default (default d (item_pubdate item)) (item_published item) = s.
Proof. intros [-> | [-> ->]]; reflexivity. Qed.

Lemma read_pub_date_parsed (e : Env) (item : Item) (tr : Trace) (s : string)
    (t : datetime) :
  item_published item = Some s ∨ (item_published item = None ∧ item_pubdate item = Some s) →
  fromisoformat (replace_Z s) = Some t →
  read_pub_date e item tr = (t, tr ++ [NowCall]).
Proof.
  intros Hs Ht. rewrite read_pub_date_spec. simpl.
  by rewrite (supplied_date _ s _ Hs), Ht.
Qed.

Lemma read_pub_date_unparsed (e : Env) (item : Item) (tr : Trace) (s : string) :
  item_published item = Some s ∨ (item_published item = None ∧ item_pubdate item = Some s) →
  fromisoformat (replace_Z s) = None →
  read_pub_date e item tr =
    (naive (now_reply e (S (length tr))), tr ++ [NowCall; NowCall]).
Proof.
  intros Hs Ht. rewrite read_pub_date_spec. simpl.
  by rewrite (supplied_date _ s _ Hs), Ht.
Qed.

Lemma read_pub_date_absent (e : Env) (item : Item) (tr : Trace) :
  item_published item = None → item_pubdate item = None →
  read_pub_date e item tr =
    match fromisoformat (replace_Z (isoformat "T" (naive (now_reply e (length tr))))) with
    | Some t => (t, tr ++ [NowCall])
    | None => (naive (now_reply e (S (length tr))), tr ++ [NowCall; NowCall])
    end.
Proof. intros H1 H2. rewrite read_pub_date_spec. simpl. by rewrite H1, H2. Qed.

(** The date an unseen entry gets, [tr] being the trace when the date is
    read: the parsed value of the string the feed supplies when
    [fromisoformat] accepts it once every Z is replaced by a zero offset, in
    particular for a string ending in Z whose body carries no Z; the naive
    reading of the clock made after the failure when it rejects it; and,
    without a supplied string, what the ISO form of the first clock reading
    parses to, else the second reading. *)
Lemma read_pub_date_cases (e : Env) (item : Item) (tr : Trace) :
  let supplied s :=
    item_published item = Some s ∨ (item_published item = None ∧ item_pubdate item = Some s) in
  let now0 := naive (now_reply e (length tr)) in
  let now1 := naive (now_reply e (S (length tr))) in
  (∀ s t, supplied s → fromisoformat (replace_Z s) = Some t →
     (read_pub_date e item tr).1 = t) ∧
  (∀ s t, supplied (s +:+ "Z") → fromisoformat (replace_Z s +:+ "+00:00") = Some t →
     (read_pub_date e item tr).1 = t) ∧
  (∀ s, supplied s → fromisoformat (replace_Z s) = None →
     (read_pub_date e item tr).1 = now1) ∧
  (item_published item = None → item_pubdate item = None →
     (∀ t, fromisoformat (replace_Z (isoformat "T" now0)) = Some t →
        (read_pub_date e item tr).1 = t) ∧
     (fromisoformat (replace_Z (isoformat "T" now0)) = None →
        (read_pub_date e item tr).1 = now1)).
Proof.
  simpl. repeat split.
  - intros s t Hs Ht. by rewrite (read_pub_date_parsed _ _ _ s t).
  - intros s t Hs Ht.
    rewrite (read_pub_date_parsed _ _ _ (s +:+ "Z") t); [done | done |].
    by rewrite replace_Z_trailing.
  - intros s Hs Ht. by rewrite (read_pub_date_unparsed _ _ _ s).
  - intros t Ht. rewrite read_pub_date_absent by done. by rewrite Ht.
  - intros Ht. rewrite read_pub_date_absent by done. by rewrite Ht.
Qed.

End PubDate.

(** Without a date, the clock reading made for the default comes back. *)
Example read_pub_date_no_date :
  (read_pub_date (lib := example_lib) (env_offline [])
     {| item_guid := None; item_link := None; item_title := None;
        item_description := None; item_published := None; item_pubdate := None |} []).1
  = naive (example_clock 0).
Proof. vm_compute. reflexivity. Qed.

(** ** Pruning *)

Section Prune.
Context {lib : PyLib}.

Lemma filter_with_feed_url (f : string → string) (cutoff : datetime)
    (l : list ArticleRow) :
  filter (fun a => pub_date_lt a cutoff = false) (with_feed_url f <$> l) =
  with_feed_url f <$> filter (fun a => pub_date_lt a cutoff = false) l.
Proof.
  induction l as [|a l IH]; [done|].
  rewrite fmap_cons, !filter_cons.
  change (pub_date_lt (with_feed_url f a) cutoff) with (pub_date_lt a cutoff).
  destruct (decide (pub_date_lt a cutoff = false)); by rewrite IH.
Qed.

Lemma monitor_feeds_Done (cfg : Config) (e : Env) (d d' : DB) (tr' : Trace) :
  monitor_feeds cfg e d = Done d' tr' →
  ∃ d1 tr1,
    poll_feeds cfg e (RSS_FEEDS cfg)
      (ensure_feed_rows e (RSS_FEEDS cfg) d []).1
      (ensure_feed_rows e (RSS_FEEDS cfg) d []).2 = Done d1 tr1 ∧
    prune_old_articles cfg e d1 tr1 = (PyNone, d', tr').
Proof.
  unfold monitor_feeds.
  destruct (ensure_feed_rows e (RSS_FEEDS cfg) d []) as [d0 tr0]. simpl.
  destruct (poll_feeds cfg e (RSS_FEEDS cfg) d0 tr0) as [d1 tr1|]; [|done].
  intros [= <- <-]. exists d1, tr1. split; [done|]. reflexivity.
Qed.

(** C5, amended. [prune_old_articles] reads the clock once and takes as
    cutoff the naive datetime that reading gives, minus the retention window.
    It deletes exactly the articles whose stored date sorts strictly before
    the cutoff as SQLite compares them, that is the text [isoformat(" ")] of
    the date inserted against the text of the cutoff, byte by byte, and keeps
    the others as they are, in order: a text sorts before another when it is
    a proper prefix of it, or has the smaller byte where they first differ.
    The prune leaves the feeds table alone, acts alike under any renaming of
    the feeds, and returns [None]: the number of deleted rows is not
    reported. A run that completes ends with this one call. *)
Theorem prune_old_articles_spec (cfg : Config) (e : Env) (d : DB) (tr : Trace) :
  let cutoff :=
    naive (now_reply e (length tr) - timedelta_days (PRUNE_OLDER_THAN_DAYS cfg)) in
  let r := prune_old_articles cfg e d tr in
  r.1.1 = PyNone ∧
  r.2 = tr ++ [NowCall] ∧
  feeds r.1.2 = feeds d ∧
  articles r.1.2 = filter (fun a => pub_date_lt a cutoff = false) (articles d) ∧
  (∀ a, a ∈ articles r.1.2 ↔
        a ∈ articles d ∧
        text_lt (isoformat " " (pub_date a)) (isoformat " " cutoff) = false) ∧
  (∀ a, a ∈ articles d → (a ∉ articles r.1.2) →
        text_lt (isoformat " " (pub_date a)) (isoformat " " cutoff) = true) ∧
  (∀ a b, text_lt a b = true ↔
     (∃ c s, b = a +:+ String c s) ∨
     (∃ p x y a' b', a = p +:+ String x a' ∧ b = p +:+ String y b' ∧
                     (N_of_ascii x < N_of_ascii y)%N)) ∧
  (∀ f,
     filter (fun a => pub_date_lt a cutoff = false) (with_feed_url f <$> articles d) =
     with_feed_url f <$> articles r.1.2) ∧
  (∀ d0 d' tr', monitor_feeds cfg e d0 = Done d' tr' →
     ∃ d1 tr1,
       poll_feeds cfg e (RSS_FEEDS cfg)
         (ensure_feed_rows e (RSS_FEEDS cfg) d0 []).1
         (ensure_feed_rows e (RSS_FEEDS cfg) d0 []).2 = Done d1 tr1 ∧
       prune_old_articles cfg e d1 tr1 = (PyNone, d', tr')).
Proof.
  simpl. split; [done|]. split; [done|]. split; [done|]. split; [done|].
  split; [|split; [|split; [|split]]].
  - intros a. rewrite list_elem_of_filter. tauto.
  - intros a Hin Hout. rewrite list_elem_of_filter in Hout.
    destruct (text_lt _ _) eqn:Hlt; [done|]. destruct Hout. by split.
  - apply text_lt_spec.
  - intros f. apply filter_with_feed_url.
  - intros d0 d' tr'. apply monitor_feeds_Done.
Qed.

End Prune.

Lemma prune_old_articles_spec_witness :
  ∃ d1 tr1,
    poll_feeds (lib := example_lib) config_a (env_offline [entry_python]) (RSS_FEEDS config_a)
      (ensure_feed_rows (env_offline [entry_python]) (RSS_FEEDS config_a) db_one_old []).1
      (ensure_feed_rows (env_offline [entry_python]) (RSS_FEEDS config_a) db_one_old []).2
      = Done d1 tr1 ∧
    prune_old_articles (lib := example_lib) config_a (env_offline [entry_python]) d1 tr1
      = (PyNone,
         outcome_db (monitor_feeds (lib := example_lib) config_a
                       (env_offline [entry_python]) db_one_old),
         outcome_trace (monitor_feeds (lib := example_lib) config_a
                          (env_offline [entry_python]) db_one_old)).
Proof.
  pose proof (prune_old_articles_spec (lib := example_lib) config_a
                (env_offline [entry_python]) empty_db []) as H.
  cbv zeta in H. destruct H as (_ & _ & _ & _ & _ & _ & _ & _ & H).
  apply (H db_one_old). vm_compute. reflexivity.
Defined.

(** C5 as stated fails on the return value: one row is deleted and the
    function returns [None], not the count. *)
Lemma prune_old_articles_returns_no_count :
  let r := prune_old_articles (lib := example_lib) script_config (env_offline [])
             db_one_old [] in
  (length (articles db_one_old) - length (articles r.1.2))%nat = 1%nat ∧
  r.1.1 ≠ PyInt 1.
Proof. split; [reflexivity | discriminate]. Qed.

(** Thirty days of retention: of two articles with naive dates 31 days and
    1 day before the clock reading, only the first is deleted. *)
Example prune_31_and_1 :
  let a31 := article_dated 1 "g31" (naive (example_clock 0 - timedelta_days 31)) in
  let a1 := article_dated 2 "g1" (naive (example_clock 0 - timedelta_days 1)) in
  let d := {| feeds := ∅; articles := [a31; a1]; last_id := 2 |} in
  articles (prune_old_articles (lib := example_lib) script_config
              (env_offline []) d []).1.2 = [a1].
Proof. vm_compute. reflexivity. Qed.

(** The comparison is one of texts, not of instants. With the cutoff at
    noon, [2024-04-02 12:00:00], an article dated 13:00 at five hours east
    of Greenwich is kept and an article dated 11:00 at five hours west is
    deleted, though the first instant is eight hours before the second. *)
Example prune_compares_texts :
  let east := article_dated 1 "east" {| wall := 1712062800000000; utcoffset := Some 18000 |} in
  let west := article_dated 2 "west" {| wall := 1712055600000000; utcoffset := Some (-18000) |} in
  let d := {| feeds := ∅; articles := [east; west]; last_id := 2 |} in
  fromisoformat (PyLib := example_lib) "2024-04-02T13:00:00+05:00" = Some (pub_date east) ∧
  fromisoformat (PyLib := example_lib) "2024-04-02T11:00:00-05:00" = Some (pub_date west) ∧
  adapt_datetime (lib := example_lib) (pub_date east) = "2024-04-02 13:00:00+05:00" ∧
  adapt_datetime (lib := example_lib) (pub_date west) = "2024-04-02 11:00:00-05:00" ∧
  adapt_datetime (lib := example_lib)
    (naive (example_clock 0 - timedelta_days 30)) = "2024-04-02 12:00:00" ∧
  wall (pub_date east) - 18000 * 1000000 < wall (pub_date west) + 18000 * 1000000 ∧
  articles (prune_old_articles (lib := example_lib) script_config
              (env_offline []) d []).1.2 = [east].
Proof. vm_compute. repeat split; reflexivity. Qed.

(** ** SHA-256 test vectors *)

Example sha256_empty :
  SHA256.hexdigest EmptyString
  = "e3b0c44298fc1c149afbf4c8996fb92427ae41e4649b934ca495991b7852b855".
Proof. vm_compute. reflexivity. Qed.

Example sha256_abc :
  SHA256.hexdigest "abc"
  = "ba7816bf8f01cfea414140de5dae2223b00361a396177a9cb410ff61f20015ad".
Proof. vm_compute. reflexivity. Qed.

(** A message of 56 bytes, padded to two blocks. *)
Example sha256_two_blocks :
  SHA256.hexdigest "abcdbcdecdefdefgefghfghighijhijkijkljklmklmnlmnomnopnopq"
  = "248d6a61d20638b8e5c026930c3e6039a33ce45964ff2167f6ecedd419db06c1".
Proof. vm_compute. reflexivity. Qed.

(** ** The articles table *)

Section Articles.

Lemma select_identifiers_articles_of (url : string) (d : DB) :
  select_identifiers url d = identifier <$> articles_of url d.
Proof. reflexivity. Qed.

Lemma elem_of_select_identifiers (url ident : string) (d : DB) :
  ident ∈ select_identifiers url d ↔ (url, ident) ∈ article_key <$> articles d.
Proof.
  unfold select_identifiers. rewrite !list_elem_of_fmap. split.
  - intros (a & -> & Ha). apply list_elem_of_filter in Ha as [<- Ha].
    by exists a.
  - intros (a & Hk & Ha). unfold article_key in Hk. injection Hk as -> ->.
    exists a. split; [done|]. by apply list_elem_of_filter.
Qed.

Lemma elem_of_known (url ident : string) (d : DB) :
  ident ∈ known url d ↔ (url, ident) ∈ article_key <$> articles d.
Proof. unfold known. by rewrite elem_of_list_to_set, elem_of_select_identifiers. Qed.

Lemma article_key_rows_of (url : string) (n : Z) (news : list NewArticle) :
  article_key <$> rows_of url n news = (fun a => (url, na_identifier a)) <$> news.
Proof.
  revert n. induction news as [|a news IH]; intros n; [done|].
  simpl. by rewrite IH.
Qed.

Lemma rows_of_feed_url (url : string) (n : Z) (news : list NewArticle) :
  Forall (fun a => feed_url a = url) (rows_of url n news).
Proof.
  revert n. induction news as [|a news IH]; intros n; simpl; constructor; auto.
Qed.

Lemma insert_article_fresh (url : string) (a : NewArticle) (d : DB) :
  (url, na_identifier a) ∉ article_key <$> articles d →
  insert_article url a d = Some (with_new_rows url [a] d).
Proof.
  intros H. unfold insert_article. rewrite decide_False by done. reflexivity.
Qed.

Lemma insert_article_duplicate (url : string) (a : NewArticle) (d : DB) :
  (url, na_identifier a) ∈ article_key <$> articles d →
  insert_article url a d = None.
Proof. intros H. unfold insert_article. by rewrite decide_True. Qed.

Lemma with_new_rows_cons (url : string) (a : NewArticle) (news : list NewArticle) (d : DB) :
  with_new_rows url news (with_new_rows url [a] d) = with_new_rows url (a :: news) d.
Proof.
  unfold with_new_rows. simpl. f_equal.
  - by rewrite <- app_assoc.
  - lia.
Qed.

Lemma with_new_rows_nil (url : string) (d : DB) : with_new_rows url [] d = d.
Proof.
  destruct d as [f a n]. unfold with_new_rows. simpl. f_equal.
  - apply app_nil_r.
  - lia.
Qed.

(** The loop over [new_articles] goes through when the identifiers are
    distinct and none is stored for the feed. *)
Lemma insert_new_articles_fresh (url : string) (news : list NewArticle)
    (body : string) (d : DB) :
  NoDup (na_identifier <$> news) →
  (∀ a, a ∈ news → (url, na_identifier a) ∉ article_key <$> articles d) →
  insert_new_articles url news body d =
    Some (body +:+ mail_blocks news, with_new_rows url news d).
Proof.
  revert body d. induction news as [|a news IH]; intros body d Hnd Hfresh.
  - simpl. by rewrite string_app_nil_r, with_new_rows_nil.
  - simpl. rewrite fmap_cons in Hnd. apply NoDup_cons in Hnd as [Ha Hnd].
    rewrite insert_article_fresh by (apply Hfresh; left).
    rewrite IH.
    + by rewrite string_app_assoc, with_new_rows_cons.
    + done.
    + intros b Hb. simpl. rewrite fmap_app, elem_of_app. intros [Hin | Hin].
      * by apply (Hfresh b); [right|].
      * simpl in Hin. apply list_elem_of_singleton in Hin.
        unfold article_key in Hin. simpl in Hin. injection Hin as Heq.
        apply Ha. rewrite <- Heq. by apply list_elem_of_fmap_2.
Qed.

Lemma unique_ok_with_new_rows (url : string) (news : list NewArticle) (d : DB) :
  unique_ok d →
  NoDup (na_identifier <$> news) →
  (∀ a, a ∈ news → (url, na_identifier a) ∉ article_key <$> articles d) →
  unique_ok (with_new_rows url news d).
Proof.
  unfold unique_ok. intros Hd Hnd Hfresh. simpl.
  rewrite fmap_app, article_key_rows_of. apply NoDup_app. split; [done|]. split.
  - intros k Hk Hin. apply list_elem_of_fmap in Hin as (a & -> & Ha).
    by apply (Hfresh a).
  - rewrite (list_fmap_compose na_identifier (pair url)).
    apply (NoDup_fmap_2 _). done.
Qed.

Lemma articles_of_with_new_rows (url u : string) (news : list NewArticle) (d : DB) :
  articles_of u (with_new_rows url news d) =
    articles_of u d ++ (if decide (url = u) then rows_of url (last_id d) news else []).
Proof.
  unfold articles_of. simpl. rewrite filter_app. f_equal.
  pose proof (rows_of_feed_url url (last_id d) news) as Hall.
  induction Hall as [|a l Ha Hall IH]; [by destruct (decide _)|].
  rewrite filter_cons. destruct (decide (url = u)) as [->|Hne].
  - rewrite decide_True by done. by rewrite IH.
  - rewrite decide_False by congruence. done.
Qed.

Lemma known_with_new_rows (url : string) (news : list NewArticle) (d : DB) :
  known url (with_new_rows url news d) =
    known url d ∪ list_to_set (na_identifier <$> news).
Proof.
  apply set_eq. intros x.
  rewrite elem_of_union, !elem_of_known, elem_of_list_to_set. simpl.
  rewrite fmap_app, elem_of_app, article_key_rows_of.
  rewrite (list_fmap_compose na_identifier (pair url)).
  split; (intros [H|H]; [by left | right]).
  - apply list_elem_of_fmap in H as (y & Hy & Hin). by injection Hy as ->.
  - by apply list_elem_of_fmap_2.
Qed.

End Articles.

(** ** The loop over the entries *)

Section Scanning.
Context {lib : PyLib}.
Implicit Types (e : Env) (kw : option string) (s : Scan) (item : Item).

Lemma scan_entries_nil e kw s : scan_entries e kw s [] = s.
Proof. reflexivity. Qed.

Lemma scan_entries_cons e kw s item items :
  scan_entries e kw s (item :: items) = scan_entries e kw (scan_item e kw s item) items.
Proof. reflexivity. Qed.

(** A rule for every property the turns of the loop preserve. *)
Lemma scan_entries_ind (P : Scan → Prop) e kw items :
  (∀ s item, item ∈ items → P s → P (scan_item e kw s item)) →
  ∀ s, P s → P (scan_entries e kw s items).
Proof.
  induction items as [|item items IH]; intros Hstep s Hs; [done|].
  rewrite scan_entries_cons. apply IH.
  - intros s' item' Hin. apply Hstep. by right.
  - apply Hstep; [left | done].
Qed.

Lemma fetch_if_link_trace e (url : string) (tr : Trace) :
  ∃ calls, (fetch_if_link e url tr).2 = tr ++ calls ∧ Forall is_probe calls ∧
           (truthy url = true → GetCall url ∈ calls).
Proof.
  rewrite fetch_if_link_spec. destruct (truthy url); simpl.
  - exists [GetCall url]. repeat split; [by repeat constructor | intros _; left].
  - exists []. rewrite app_nil_r. repeat split; [constructor | done].
Qed.

Lemma read_pub_date_trace e item (tr : Trace) :
  ∃ calls, (read_pub_date e item tr).2 = tr ++ calls ∧ Forall is_probe calls.
Proof.
  rewrite read_pub_date_spec. simpl. destruct (fromisoformat _); simpl.
  - exists [NowCall]. split; [done | by repeat constructor].
  - exists [NowCall; NowCall]. split; [done | by repeat constructor].
Qed.

(** A turn for an unseen entry fetches its page, when it has a link, and
    reads its date; a turn for a seen entry calls nothing. *)
Lemma scan_item_trace e kw s item :
  ∃ calls, scan_trace (scan_item e kw s item) = scan_trace s ++ calls ∧
           Forall is_probe calls ∧
           (get_article_identifier item ∉ seen s →
            truthy (default "No link" (item_link item)) = true →
            GetCall (default "No link" (item_link item)) ∈ calls).
Proof.
  scan_item_cases e kw s item Hout.
  - exists []. rewrite app_nil_r. repeat split; [constructor | done].
  -     destruct (fetch_if_link_trace e (default "No link" (item_link item)) (scan_trace s))
      as (c1 & H1 & Hp1 & Hget).
    destruct (read_pub_date_trace e item
                (fetch_if_link e (default "No link" (item_link item)) (scan_trace s)).2)
      as (c2 & H2 & Hp2).
    exists (c1 ++ c2). split; [|split].
    + destruct (matches_filter _ _ _); simpl; by rewrite H2, H1, app_assoc.
    + by apply Forall_app.
    + intros _ Ht. apply elem_of_app. left. by apply Hget.
Qed.

Lemma scan_entries_trace e kw s items :
  ∃ calls, scan_trace (scan_entries e kw s items) = scan_trace s ++ calls ∧
           Forall is_probe calls.
Proof.
  revert s. induction items as [|item items IH]; intros s.
  - exists []. by rewrite app_nil_r.
  - rewrite scan_entries_cons.
    destruct (scan_item_trace e kw s item) as (c1 & H1 & Hp1 & _).
    destruct (IH (scan_item e kw s item)) as (c2 & H2 & Hp2).
    exists (c1 ++ c2). split; [by rewrite H2, H1, app_assoc | by apply Forall_app].
Qed.

Lemma scan_item_seen_mono e kw s item : seen s ⊆ seen (scan_item e kw s item).
Proof.
  scan_item_cases e kw s item Hout; [done|].
  destruct (matches_filter _ _ _); simpl; set_solver.
Qed.

Lemma scan_entries_seen_mono e kw s items : seen s ⊆ seen (scan_entries e kw s items).
Proof.
  apply (scan_entries_ind (fun s' => seen s ⊆ seen s')); [|done].
  intros s' item _ H. etransitivity; [exact H | apply scan_item_seen_mono].
Qed.

Lemma scan_item_inv (seen0 : gset string) e kw s item :
  scan_inv seen0 s → scan_inv seen0 (scan_item e kw s item).
Proof.
  intros (Hnd & Hfresh & Hseen).
  scan_item_cases e kw s item Hout; [done|].
  - destruct (matches_filter _ _ _); [|done].
    unfold scan_inv. simpl. split; [|split].
    + rewrite fmap_app. apply NoDup_app. split; [done|]. split.
      * intros x Hx Hx'. simpl in Hx'. apply list_elem_of_singleton in Hx'. subst x.
        apply Hout. rewrite Hseen. apply elem_of_union_r. by apply elem_of_list_to_set.
      * simpl. apply NoDup_singleton.
    + intros a Ha. apply elem_of_app in Ha as [Ha | Ha]; [by apply Hfresh|].
      apply list_elem_of_singleton in Ha. subst a. simpl.
      intros Hin. apply Hout. rewrite Hseen. by apply elem_of_union_l.
    + rewrite Hseen, fmap_app, list_to_set_app_L. simpl. set_solver.
Qed.

Lemma scan_entries_inv (seen0 : gset string) e kw s items :
  scan_inv seen0 s → scan_inv seen0 (scan_entries e kw s items).
Proof.
  apply (scan_entries_ind (scan_inv seen0)). intros s' item _. apply scan_item_inv.
Qed.

Lemma scan_inv_start (seen0 : gset string) (tr : Trace) :
  scan_inv seen0 {| seen := seen0; new_articles := []; scan_trace := tr |}.
Proof.
  split; [|split]; simpl.
  - constructor.
  - intros a Ha. by apply elem_of_nil in Ha.
  - set_solver.
Qed.

(** After the loop, every entry is seen or was rejected by the filter at the
    moment of its turn. *)
Lemma scan_entries_covered e kw s items item :
  item ∈ items →
  get_article_identifier item ∈ seen (scan_entries e kw s items) ∨
  ∃ tr, matches_filter item
          (fetch_if_link e (default "No link" (item_link item)) tr).1 kw = false.
Proof.
  revert s. induction items as [|item' items IH]; intros s Hin.
  - by apply elem_of_nil in Hin.
  - rewrite scan_entries_cons. apply elem_of_cons in Hin as [-> | Hin]; [|by apply IH].
    destruct (decide (get_article_identifier item' ∈ seen s)) as [Hs|Hout].
    + left. apply scan_entries_seen_mono. by rewrite scan_item_seen.
    + pose proof (scan_item_unseen e kw s item' Hout) as Heq. simpl in Heq.
      destruct (matches_filter item' _ kw) eqn:Hm.
      * left. apply scan_entries_seen_mono. rewrite Heq. simpl. set_solver.
      * right. by exists (scan_trace s).
Qed.

(** A loop whose entries are all seen or rejected accepts nothing. *)
Lemma scan_entries_quiet e kw s items :
  (∀ item, item ∈ items →
     get_article_identifier item ∈ seen s ∨ always_rejected e kw item) →
  new_articles (scan_entries e kw s items) = new_articles s ∧
  seen (scan_entries e kw s items) = seen s.
Proof.
  intros Hq.
  apply (scan_entries_ind
           (fun s' => new_articles s' = new_articles s ∧ seen s' = seen s)); [|done].
  intros s' item Hin [Hn Hs].
  scan_item_cases e kw s' item Hout; [done|].
  - destruct (Hq item Hin) as [Hseen | Hrej]; [by rewrite Hs in Hout|].
    rewrite (Hrej (scan_trace s')). done.
Qed.

(** An identifier none of whose entries passes the filter stays out of the
    seen set and out of the new articles. *)
Lemma scan_entries_avoids e kw s items (ident : string) :
  (∀ item, item ∈ items → get_article_identifier item = ident →
     always_rejected e kw item) →
  ident ∉ seen s →
  (∀ a, a ∈ new_articles s → na_identifier a ≠ ident) →
  (ident ∉ seen (scan_entries e kw s items)) ∧
  (∀ a, a ∈ new_articles (scan_entries e kw s items) → na_identifier a ≠ ident).
Proof.
  intros Hrej Hs Hn.
  apply (scan_entries_ind
           (fun s' => (ident ∉ seen s') ∧
                      ∀ a, a ∈ new_articles s' → na_identifier a ≠ ident)); [|done].
  intros s' item Hin [Hs' Hn'].
  scan_item_cases e kw s' item Hout; [done|].
  - destruct (decide (get_article_identifier item = ident)) as [Heq|Hne].
    + rewrite (Hrej item Hin Heq (scan_trace s')). done.
    + destruct (matches_filter _ _ _); simpl; [|done]. split.
      * set_solver.
      * intros a Ha. apply elem_of_app in Ha as [Ha | Ha]; [by apply Hn'|].
        apply list_elem_of_singleton in Ha. by subst a.
Qed.


End Scanning.

(** ** One feed *)

Section ProcessFeed.
Context {lib : PyLib}.
Implicit Types (cfg : Config) (e : Env) (kw : option string) (d : DB) (tr : Trace).

Lemma select_failure_count_increment (url : string) d :
  select_failure_count url (increment_failure_count url d) =
    (fun r => failure_count r + 1) <$> feeds d !! url.
Proof.
  unfold select_failure_count, increment_failure_count. simpl.
  rewrite lookup_alter_eq. by destruct (feeds d !! url).
Qed.

(** The parse failed: the counter is incremented and read back, and the
    alert is mailed when it has reached the threshold. *)
Lemma process_feed_bozo cfg e (url : string) kw d tr :
  bozo (parse_reply e (length tr) url) = true →
  process_feed cfg e url kw d tr =
    match feeds d !! url with
    | None => Raised TypeError d (tr ++ [ParseCall url])
    | Some row =>
        Done (increment_failure_count url d)
          (tr ++ ParseCall url ::
             if ERROR_THRESHOLD cfg <=? failure_count row + 1
             then [SendCall (alert_subject url)
                     (alert_body url (failure_count row + 1)
                        (bozo_exception (parse_reply e (length tr) url)))]
             else [])
    end.
Proof.
  intros Hb. unfold process_feed, feedparser_parse. rewrite Hb.
  rewrite select_failure_count_increment.
  destruct (feeds d !! url) as [row|]; simpl; [|done].
  destruct (ERROR_THRESHOLD cfg <=? failure_count row + 1); [|done].
  unfold send_email. by rewrite <- app_assoc.
Qed.

Lemma feed_scan_inv e (url : string) kw d tr :
  scan_inv (known url d) (feed_scan e url kw d tr).
Proof. apply scan_entries_inv, scan_inv_start. Qed.

Lemma feed_scan_fresh e (url : string) kw d tr (a : NewArticle) :
  a ∈ new_articles (feed_scan e url kw d tr) →
  (url, na_identifier a) ∉ article_key <$> articles d.
Proof.
  intros Ha. destruct (feed_scan_inv e url kw d tr) as (_ & Hfresh & _).
  rewrite <- elem_of_known. by apply Hfresh.
Qed.

(** The parse succeeded: the counter is reset, the entries are scanned from
    the identifiers stored for the feed, and the accepted ones are inserted
    and mailed. *)
Lemma process_feed_parsed cfg e (url : string) kw d tr :
  bozo (parse_reply e (length tr) url) = false →
  let s := feed_scan e url kw d tr in
  let name := default url (feed_title (parse_reply e (length tr) url)) in
  process_feed cfg e url kw d tr =
    Done (with_new_rows url (new_articles s)
            (reset_failure_count (now_reply e (S (length tr))) url d))
         (scan_trace s ++
            match new_articles s with
            | [] => []
            | _ :: _ =>
                [SendCall (news_subject name)
                   (news_header name +:+ mail_blocks (new_articles s))]
            end).
Proof.
  intros Hb. simpl. unfold process_feed, feedparser_parse, datetime_now. rewrite Hb.
  rewrite length_app. simpl. rewrite Nat.add_1_r.
  change (foldl (scan_item e kw) ?s0 ?l) with (scan_entries e kw s0 l).
  rewrite <- app_assoc. simpl.
  change (list_to_set (select_identifiers url (reset_failure_count ?n url d)))
    with (known url d).
  change (scan_entries e kw _ _) with (feed_scan e url kw d tr).
  destruct (new_articles (feed_scan e url kw d tr)) as [|a news] eqn:Hnew.
  - by rewrite with_new_rows_nil, app_nil_r.
  - rewrite <- Hnew. rewrite insert_new_articles_fresh.
    + reflexivity.
    + apply (feed_scan_inv e url kw d tr).
    + intros b Hb'. by apply (feed_scan_fresh e url kw d tr).
Qed.

End ProcessFeed.

(** ** The loop over the feeds *)

Section Polling.
Context {lib : PyLib}.
Implicit Types (cfg : Config) (e : Env) (kw : option string) (d : DB) (tr : Trace).
Implicit Types (fs : list (string * option string)).

Lemma feed_step_refl (url : string) d : feed_step url d d.
Proof.
  repeat split; auto. exists []. by rewrite app_nil_r.
Qed.

Lemma process_feed_step cfg e (url : string) kw d tr :
  feed_step url d (outcome_db (process_feed cfg e url kw d tr)) ∧
  ∃ calls, outcome_trace (process_feed cfg e url kw d tr) = tr ++ calls.
Proof.
  destruct (bozo (parse_reply e (length tr) url)) eqn:Hb.
  - rewrite process_feed_bozo by done.
    destruct (feeds d !! url) as [row|] eqn:Hrow; simpl.
    + split; [|eauto]. repeat split; simpl.
      * intros u Hu. by rewrite lookup_alter_ne.
      * by rewrite dom_alter_L.
      * exists []. by rewrite app_nil_r.
      * done.
    + split; [apply feed_step_refl | eauto].
  - rewrite process_feed_parsed by done. simpl. split.
    + repeat split; simpl.
      * intros u Hu. by rewrite lookup_alter_ne.
      * by rewrite dom_alter_L.
      * eauto.
      * intros Hd. apply unique_ok_with_new_rows; [done | |].
        -- apply (feed_scan_inv e url kw d tr).
        -- intros a Ha. by apply (feed_scan_fresh e url kw d tr).
    + destruct (scan_entries_trace e kw
                  {| seen := known url d; new_articles := [];
                     scan_trace := tr ++ [ParseCall url; NowCall] |}
                  (entries (parse_reply e (length tr) url))) as (calls & Hc & _).
      unfold feed_scan. rewrite Hc. simpl. rewrite <- !app_assoc. eauto.
Qed.

(** A feed with a row is processed to the end: no insert meets a stored
    identifier. *)
Lemma process_feed_Done cfg e (url : string) kw d tr :
  is_Some (feeds d !! url) →
  ∃ d' tr', process_feed cfg e url kw d tr = Done d' tr'.
Proof.
  intros [row Hrow].
  destruct (bozo (parse_reply e (length tr) url)) eqn:Hb.
  - rewrite process_feed_bozo, Hrow by done. eauto.
  - rewrite process_feed_parsed by done. eauto.
Qed.

Lemma ensure_feed_rows_spec e fs d tr :
  let r := ensure_feed_rows e fs d tr in
  articles r.1 = articles d ∧
  last_id r.1 = last_id d ∧
  dom (feeds r.1) = dom (feeds d) ∪ list_to_set fs.*1 ∧
  (∀ u row, feeds d !! u = Some row → feeds r.1 !! u = Some row) ∧
  (∀ u, feeds d !! u = None → u ∈ fs.*1 →
     ∃ n, feeds r.1 !! u = Some {| last_checked := now_reply e n; failure_count := 0 |}) ∧
  r.2 = tr ++ replicate (length fs) NowCall.
Proof.
  revert d tr. induction fs as [|[url k] fs IH]; intros d tr; simpl.
  - repeat split; auto.
    + set_solver.
    + intros u _ Hu. by apply elem_of_nil in Hu.
    + by rewrite app_nil_r.
  - specialize (IH (insert_or_ignore_feed url (now_reply e (length tr)) d) (tr ++ [NowCall])).
    simpl in IH. destruct IH as (Ha & Hl & Hdom & Hkeep & Hnew & Htr).
    unfold insert_or_ignore_feed in *.
    destruct (feeds d !! url) as [row0|] eqn:Hrow.
    + repeat split; auto.
      * rewrite Hdom. apply elem_of_dom_2 in Hrow. set_solver.
      * intros u Hu Hin. apply elem_of_cons in Hin as [-> | Hin]; [congruence|].
        by apply Hnew.
      * by rewrite Htr, <- app_assoc.
    + simpl in *. repeat split; auto.
      * rewrite Hdom, dom_insert_L. set_solver.
      * intros u row Hu. apply Hkeep. rewrite lookup_insert_ne; [done | congruence].
      * intros u Hu Hin.
        destruct (decide (u = url)) as [->|Hne].
        -- exists (length tr). apply Hkeep. by rewrite lookup_insert_eq.
        -- apply Hnew; [by rewrite lookup_insert_ne | set_solver].
      * by rewrite Htr, <- app_assoc.
Qed.

(** The loop over the feeds ends normally when every feed has a row, and
    keeps the UNIQUE constraint. *)
Lemma poll_feeds_Done cfg e fs d tr :
  (∀ u, u ∈ fs.*1 → is_Some (feeds d !! u)) →
  ∃ d' tr', poll_feeds cfg e fs d tr = Done d' tr' ∧
            dom (feeds d') = dom (feeds d) ∧
            (unique_ok d → unique_ok d') ∧
            (∃ rows, articles d' = articles d ++ rows) ∧
            (∃ calls, tr' = tr ++ calls).
Proof.
  revert d tr. induction fs as [|[url k] fs IH]; intros d tr Hrows; simpl.
  - exists d, tr. repeat split; auto; [by exists []; rewrite app_nil_r..].
  - destruct (process_feed_Done cfg e url k d tr) as (d1 & tr1 & Hp).
    { apply Hrows. left. }
    pose proof (process_feed_step cfg e url k d tr) as [(Hf & Hdom & [news Hrowsd] & Hu) [c1 Hc1]].
    rewrite Hp in *. simpl in *.
    destruct (IH d1 tr1) as (d' & tr' & Hpoll & Hdom' & Hu' & [rows Hr] & [c2 Hc2]).
    { intros u Hin. apply elem_of_dom. rewrite Hdom. apply elem_of_dom.
      apply Hrows. by right. }
    exists d', tr'. repeat split; auto.
    + by rewrite Hdom'.
    + eexists. rewrite Hr, Hrowsd. by rewrite <- app_assoc.
    + eexists. rewrite Hc2, Hc1. by rewrite <- app_assoc.
Qed.

Lemma unique_ok_delete_older (cutoff : datetime) d : unique_ok d → unique_ok (delete_older cutoff d).
Proof.
  unfold unique_ok. simpl. intros H.
  eapply sublist_NoDup; [exact H | apply fmap_sublist, sublist_filter].
Qed.

(** A run ends normally, whatever the configuration, the outside world and
    the database. *)
Lemma monitor_feeds_completes cfg e d :
  ∃ d1 tr1,
    poll_pass cfg e d = Done d1 tr1 ∧
    monitor_feeds cfg e d =
      Done (delete_older (naive (now_reply e (length tr1)
                                   - timedelta_days (PRUNE_OLDER_THAN_DAYS cfg))) d1)
           (tr1 ++ [NowCall]) ∧
    (unique_ok d → unique_ok d1) ∧
    dom (feeds d1) = dom (feeds d) ∪ list_to_set (RSS_FEEDS cfg).*1 ∧
    (∃ rows, articles d1 = articles d ++ rows).
Proof.
  unfold poll_pass, monitor_feeds.
  pose proof (ensure_feed_rows_spec e (RSS_FEEDS cfg) d []) as Hens. simpl in Hens.
  destruct (ensure_feed_rows e (RSS_FEEDS cfg) d []) as [d0 tr0]. simpl in *.
  destruct Hens as (Ha & Hl & Hdom & Hkeep & Hnew & Htr).
  destruct (poll_feeds_Done cfg e (RSS_FEEDS cfg) d0 tr0)
    as (d1 & tr1 & Hpoll & Hdom1 & Hu & [rows Hrows] & _).
  { intros u Hin. apply elem_of_dom. rewrite Hdom. set_solver. }
  exists d1, tr1. rewrite Hpoll. repeat split; auto.
  - intros Hd. apply Hu. unfold unique_ok. by rewrite Ha.
  - by rewrite Hdom1.
  - exists rows. by rewrite Hrows, Ha.
Qed.

End Polling.

(** ** One feed within a run *)

Section Framing.
Context {lib : PyLib}.
Implicit Types (cfg : Config) (e : Env) (kw : option string) (d : DB) (tr : Trace).
Implicit Types (fs : list (string * option string)).

Lemma articles_of_app_other (url u : string) (l : list ArticleRow) (n : Z)
    (news : list NewArticle) :
  u ≠ url →
  filter (fun a => feed_url a = url) (l ++ rows_of u n news) =
  filter (fun a => feed_url a = url) l.
Proof.
  intros Hne. rewrite filter_app.
  assert (filter (fun a => feed_url a = url) (rows_of u n news) = []) as ->.
  { pose proof (rows_of_feed_url u n news) as Hall.
    induction Hall as [|a l' Ha Hall IH]; [done|].
    rewrite filter_cons, decide_False by congruence. done. }
  by rewrite app_nil_r.
Qed.

Lemma feed_step_other (url u : string) d d' :
  u ≠ url → feed_step u d d' →
  feeds d' !! url = feeds d !! url ∧ articles_of url d' = articles_of url d.
Proof.
  intros Hne (Hf & _ & [news Hrows] & _). split.
  - apply Hf. congruence.
  - unfold articles_of. rewrite Hrows. by apply articles_of_app_other.
Qed.

(** The feeds other than [url] leave its row and its articles alone. *)
Lemma poll_feeds_other cfg e fs d tr d' tr' (url : string) :
  url ∉ fs.*1 →
  poll_feeds cfg e fs d tr = Done d' tr' →
  feeds d' !! url = feeds d !! url ∧ articles_of url d' = articles_of url d ∧
  ∃ calls, tr' = tr ++ calls.
Proof.
  revert d tr. induction fs as [|[u k] fs IH]; intros d tr Hout Hpoll; simpl in *.
  - injection Hpoll as <- <-. repeat split. exists []. by rewrite app_nil_r.
  - apply not_elem_of_cons in Hout as [Hne Hout].
    pose proof (process_feed_step cfg e u k d tr) as [Hstep [c1 Hc1]].
    destruct (process_feed cfg e u k d tr) as [d1 tr1|]; [|done]. simpl in *.
    destruct (IH d1 tr1 Hout Hpoll) as (Hf & Ha & [c2 Hc2]).
    destruct (feed_step_other url u d d1) as [Hf1 Ha1]; [congruence | done |].
    repeat split; [congruence | congruence |].
    exists (c1 ++ c2). by rewrite Hc2, Hc1, app_assoc.
Qed.

(** The turn of the feed [url] within the loop over the feeds. *)
Lemma poll_feeds_at cfg e fs d tr d' tr' (url : string) kw :
  NoDup fs.*1 → (url, kw) ∈ fs →
  poll_feeds cfg e fs d tr = Done d' tr' →
  ∃ d1 tr1 d2 tr2,
    process_feed cfg e url kw d1 tr1 = Done d2 tr2 ∧
    feeds d1 !! url = feeds d !! url ∧ articles_of url d1 = articles_of url d ∧
    feeds d' !! url = feeds d2 !! url ∧ articles_of url d' = articles_of url d2 ∧
    (∃ calls, tr1 = tr ++ calls) ∧ (∃ calls, tr' = tr2 ++ calls).
Proof.
  revert d tr. induction fs as [|[u k] fs IH]; intros d tr Hnd Hin Hpoll.
  - by apply elem_of_nil in Hin.
  - simpl in Hnd, Hpoll. apply NoDup_cons in Hnd as [Hu Hnd].
    pose proof (process_feed_step cfg e u k d tr) as [Hstep [c1 Hc1]].
    destruct (process_feed cfg e u k d tr) as [d1 tr1|] eqn:Hp; [|done]. simpl in *.
    apply elem_of_cons in Hin as [Heq | Hin].
    + injection Heq as -> ->.
      destruct (poll_feeds_other cfg e fs d1 tr1 d' tr' u Hu Hpoll) as (Hf & Ha & Hc).
      exists d, tr, d1, tr1. repeat split; auto. exists []. by rewrite app_nil_r.
    + assert (u ≠ url) as Hne.
      { intros ->. apply Hu. by apply (list_elem_of_fmap_2 fst) in Hin. }
      destruct (IH d1 tr1 Hnd Hin Hpoll)
        as (d2 & tr2 & d3 & tr3 & Hp' & Hf & Ha & Hf' & Ha' & [c2 Hc2] & Hc3).
      destruct (feed_step_other url u d d1 Hne Hstep) as [Hf1 Ha1].
      exists d2, tr2, d3, tr3. repeat split; auto; [congruence | congruence |].
      exists (c1 ++ c2). by rewrite Hc2, Hc1, app_assoc.
Qed.

(** The turn of the feed [url] within a run: the row it starts from is the
    one stored, or the one just created with a zero counter; its articles
    are those stored; and what the turn leaves reaches the end of the run but
    for the prune. *)
Lemma monitor_feeds_at cfg e d (url : string) kw :
  NoDup (RSS_FEEDS cfg).*1 → (url, kw) ∈ RSS_FEEDS cfg →
  ∃ d1 tr1 d2 tr2 d3 tr3,
    process_feed cfg e url kw d1 tr1 = Done d2 tr2 ∧
    (∀ row, feeds d !! url = Some row → feeds d1 !! url = Some row) ∧
    (feeds d !! url = None →
       ∃ n, feeds d1 !! url = Some {| last_checked := now_reply e n; failure_count := 0 |}) ∧
    articles_of url d1 = articles_of url d ∧
    poll_pass cfg e d = Done d3 tr3 ∧
    monitor_feeds cfg e d =
      Done (delete_older (naive (now_reply e (length tr3)
                                   - timedelta_days (PRUNE_OLDER_THAN_DAYS cfg))) d3)
           (tr3 ++ [NowCall]) ∧
    feeds d3 !! url = feeds d2 !! url ∧ articles_of url d3 = articles_of url d2 ∧
    (∃ calls, tr3 = tr2 ++ calls).
Proof.
  intros Hnd Hin.
  destruct (monitor_feeds_completes cfg e d) as (d3 & tr3 & Hpoll & Hrun & _).
  pose proof (ensure_feed_rows_spec e (RSS_FEEDS cfg) d []) as Hens.
  cbv zeta in Hens. destruct Hens as (Ha0 & _ & _ & Hkeep & Hnew & _).
  pose proof Hpoll as Hpoll'. unfold poll_pass in Hpoll'.
  destruct (poll_feeds_at cfg e (RSS_FEEDS cfg) _ _ d3 tr3 url kw Hnd Hin Hpoll')
    as (d1 & tr1 & d2 & tr2 & Hp & Hf1 & Ha1 & Hf3 & Ha3 & _ & Hc).
  exists d1, tr1, d2, tr2, d3, tr3. repeat split; auto.
  - intros row Hrow. rewrite Hf1. by apply Hkeep.
  - intros Hnone. rewrite Hf1. apply Hnew; [done|].
    by apply (list_elem_of_fmap_2 fst) in Hin.
  - rewrite Ha1. unfold articles_of. by rewrite Ha0.
Qed.

End Framing.

(** ** The feed row across a run *)

Section FeedRow.
Context {lib : PyLib}.
Implicit Types (cfg : Config) (e : Env) (kw : option string) (d : DB) (tr : Trace).

Lemma starting_row_failure_count e d (url : string) (row : FeedRow) :
  starting_row e d url row → failure_count_of url d = failure_count row.
Proof.
  unfold failure_count_of, select_failure_count.
  intros [-> | [-> [n ->]]]; reflexivity.
Qed.

Lemma elem_of_articles_of (url : string) d (a : ArticleRow) :
  a ∈ articles_of url d ↔ a ∈ articles d ∧ feed_url a = url.
Proof. unfold articles_of. rewrite list_elem_of_filter. tauto. Qed.

(** A run in which the parse of [url] fails. *)
Lemma monitor_feeds_failed cfg e d (url : string) kw :
  NoDup (RSS_FEEDS cfg).*1 → (url, kw) ∈ RSS_FEEDS cfg → parse_fails e url →
  ∃ row,
    starting_row e d url row ∧
    feeds (outcome_db (monitor_feeds cfg e d)) !! url =
      Some {| last_checked := last_checked row; failure_count := failure_count row + 1 |} ∧
    (∀ a, a ∈ articles (outcome_db (monitor_feeds cfg e d)) → feed_url a = url →
       a ∈ articles d) ∧
    (ERROR_THRESHOLD cfg ≤ failure_count row + 1 →
       ∃ n, SendCall (alert_subject url)
              (alert_body url (failure_count row + 1)
                 (bozo_exception (parse_reply e n url)))
            ∈ outcome_trace (monitor_feeds cfg e d)).
Proof.
  intros Hnd Hin Hfail.
  destruct (monitor_feeds_at cfg e d url kw Hnd Hin)
    as (d1 & tr1 & d2 & tr2 & d3 & tr3 & Hp & Hkeep & Hnew & Ha1 & _ & Hrun & Hf3 & Ha3 & [c Hc]).
  rewrite Hrun. simpl.
  rewrite process_feed_bozo in Hp by apply Hfail.
  assert (∃ row, starting_row e d url row ∧ feeds d1 !! url = Some row) as (row & Hstart & Hrow).
  { destruct (feeds d !! url) as [row|] eqn:Hd.
    - exists row. split; [by left | by apply Hkeep].
    - destruct (Hnew eq_refl) as [n Hn]. eexists. split; [|exact Hn].
      right. split; [done|]. by exists n. }
  rewrite Hrow in Hp. injection Hp as <- <-.
  exists row. split; [done|]. split; [|split].
  - rewrite Hf3. simpl. by rewrite lookup_alter_eq, Hrow.
  - intros a Ha Hu. apply list_elem_of_filter in Ha as [_ Ha].
    assert (a ∈ articles_of url d3) as Ha' by by apply elem_of_articles_of.
    rewrite Ha3 in Ha'. unfold articles_of in Ha'. simpl in Ha'.
    fold (articles_of url d1) in Ha'. rewrite Ha1 in Ha'.
    by apply elem_of_articles_of in Ha' as [? _].
  - intros Hthr. exists (length tr1). rewrite Hc.
    destruct (Z.leb_spec (ERROR_THRESHOLD cfg) (failure_count row + 1)); [|lia].
    rewrite !elem_of_app. left. left. right. right. left.
Qed.

(** A run in which the parse of [url] succeeds. *)
Lemma monitor_feeds_parsed cfg e d (url : string) kw :
  NoDup (RSS_FEEDS cfg).*1 → (url, kw) ∈ RSS_FEEDS cfg → parse_succeeds e url →
  ∃ n, feeds (outcome_db (monitor_feeds cfg e d)) !! url =
         Some {| last_checked := now_reply e n; failure_count := 0 |}.
Proof.
  intros Hnd Hin Hok.
  destruct (monitor_feeds_at cfg e d url kw Hnd Hin)
    as (d1 & tr1 & d2 & tr2 & d3 & tr3 & Hp & Hkeep & Hnew & _ & _ & Hrun & Hf3 & _).
  rewrite Hrun. simpl.
  rewrite process_feed_parsed in Hp by apply Hok. injection Hp as <- _.
  assert (is_Some (feeds d1 !! url)) as [row Hrow].
  { destruct (feeds d !! url) as [row|] eqn:Hd; [by rewrite (Hkeep row)|].
    destruct (Hnew eq_refl) as [n ->]. done. }
  exists (S (length tr1)). rewrite Hf3. simpl. by rewrite lookup_alter_eq, Hrow.
Qed.

Lemma monitor_feeds_dom cfg e d :
  dom (feeds d) ⊆ dom (feeds (outcome_db (monitor_feeds cfg e d))).
Proof.
  destruct (monitor_feeds_completes cfg e d) as (d1 & tr1 & _ & -> & _ & Hdom & _).
  simpl. rewrite Hdom. set_solver.
Qed.

End FeedRow.

(** ** No duplicate insert *)

Section Dedup.
Context {lib : PyLib}.

Lemma process_feed_no_integrity_error (cfg : Config) (e : Env) (url : string)
    (kw : option string) (d : DB) (tr : Trace) (d' : DB) (tr' : Trace) :
  process_feed cfg e url kw d tr ≠ Raised IntegrityError d' tr'.
Proof.
  destruct (bozo (parse_reply e (length tr) url)) eqn:Hb.
  - rewrite process_feed_bozo by done. by destruct (feeds d !! url).
  - by rewrite process_feed_parsed.
Qed.

Lemma monitor_feeds_unique_ok (cfg : Config) (e : Env) (d : DB) :
  ∃ d' tr', monitor_feeds cfg e d = Done d' tr' ∧ (unique_ok d → unique_ok d').
Proof.
  destruct (monitor_feeds_completes cfg e d) as (d1 & tr1 & _ & Hrun & Hu & _).
  eexists _, _. split; [exact Hrun|].
  intros Hd. by apply unique_ok_delete_older, Hu.
Qed.

Lemma run_passes_unique_ok (cfg : Config) (es : list Env) (d : DB) :
  unique_ok d → unique_ok (run_passes cfg es d).
Proof.
  revert d. induction es as [|e es IH]; intros d Hd; [done|].
  simpl. apply IH.
  destruct (monitor_feeds_unique_ok cfg e d) as (d' & tr' & -> & Hu). by apply Hu.
Qed.

(** Under the UNIQUE constraint two rows of a feed with the same identifier
    are one row. *)
Lemma unique_ok_at_most_one (d : DB) (i j : nat) (a b : ArticleRow) :
  unique_ok d →
  articles d !! i = Some a → articles d !! j = Some b →
  feed_url a = feed_url b → identifier a = identifier b → i = j.
Proof.
  intros Hd Ha Hb Hf Hi.
  apply (proj1 (NoDup_alt _) Hd i j (article_key a)).
  - by rewrite list_lookup_fmap, Ha.
  - rewrite list_lookup_fmap, Hb. unfold article_key. simpl. by rewrite Hf, Hi.
Qed.

(** C1. When the loop over the entries of a feed ends, the seen set is the
    set of identifiers stored for the feed together with those of the new
    articles; the new articles have distinct identifiers and none of them is
    stored for the feed. So no insert meets the UNIQUE constraint: processing
    a feed never raises [IntegrityError], every run ends normally, and a
    database in which a feed and an identifier name at most one row is left
    so by every run and by every sequence of runs, as is every database the
    script builds from an empty one. *)
Theorem no_duplicate_insert (cfg : Config) (e : Env) :
  (∀ url kw d tr,
     let s := feed_scan e url kw d tr in
     seen s = known url d ∪ list_to_set (na_identifier <$> new_articles s) ∧
     NoDup (na_identifier <$> new_articles s) ∧
     (∀ a, a ∈ new_articles s → (url, na_identifier a) ∉ article_key <$> articles d) ∧
     (∀ d' tr', process_feed cfg e url kw d tr ≠ Raised IntegrityError d' tr')) ∧
  (∀ d, ∃ d' tr',
     monitor_feeds cfg e d = Done d' tr' ∧
     (unique_ok d →
        unique_ok d' ∧
        ∀ i j a b, articles d' !! i = Some a → articles d' !! j = Some b →
                   feed_url a = feed_url b → identifier a = identifier b → i = j)) ∧
  (∀ es d, unique_ok d → unique_ok (run_passes cfg es d)) ∧
  (∀ es, unique_ok (run_passes cfg es empty_db)).
Proof.
  split; [|split; [|split]].
  - intros url kw d tr. simpl.
    destruct (feed_scan_inv e url kw d tr) as (Hnd & _ & Hseen).
    split; [done|]. split; [done|]. split.
    + intros a. apply feed_scan_fresh.
    + apply process_feed_no_integrity_error.
  - intros d. destruct (monitor_feeds_unique_ok cfg e d) as (d' & tr' & Hrun & Hu).
    exists d', tr'. split; [done|]. intros Hd. split; [by apply Hu|].
    intros i j a b. apply unique_ok_at_most_one. by apply Hu.
  - intros es d. apply run_passes_unique_ok.
  - intros es. apply run_passes_unique_ok. constructor.
Qed.

End Dedup.

Lemma unique_ok_db_one_old : unique_ok db_one_old.
Proof. unfold unique_ok. simpl. apply NoDup_singleton. Defined.

Lemma no_duplicate_insert_witness :
  ∃ d' tr',
    monitor_feeds (lib := example_lib) config_a
      (env_online [entry_python; entry_python; entry_old] "<p>Python</p>") db_one_old
    = Done d' tr' ∧ unique_ok d'.
Proof.
  destruct (proj1 (proj2 (no_duplicate_insert (lib := example_lib) config_a
                            (env_online [entry_python; entry_python; entry_old]
                               "<p>Python</p>"))) db_one_old)
    as (d' & tr' & Hrun & Hu).
  exists d', tr'. split; [exact Hrun | apply Hu, unique_ok_db_one_old].
Defined.

(** The constraint is enforced: inserting the same article twice raises. *)
Example duplicate_insert_raises :
  let a := accepted entry_python None (naive 0) in
  insert_new_articles feed_a [a; a] EmptyString empty_db = None ∧
  insert_new_articles feed_a [a] EmptyString empty_db ≠ None.
Proof. split; [reflexivity | discriminate]. Qed.

(** The scenario of the specification: of two entries with the GUID g1, one
    alone is stored and mailed; the article stored before, published four
    months earlier, is pruned. *)
Example two_entries_one_guid :
  let o := monitor_feeds (lib := example_lib) config_a
             (env_online [entry_python; entry_python] "<p>Python</p>") db_one_old in
  identifier <$> articles (outcome_db o) = ["g1"] ∧
  sent_mails (outcome_trace o) =
    [ ("New RSS Articles: Example",
       "New articles in Example:" +:+ LF +:+ LF +:+
       "Title: Python 3.13 released" +:+ LF +:+
       "Link: http://example.org/a" +:+ LF +:+
       "Content: Python" +:+ LF +:+ LF) ].
Proof. vm_compute. split; reflexivity. Qed.

(** ** The failure counter *)

Section Health.
Context {lib : PyLib}.

Lemma failure_count_of_lookup (url : string) (d : DB) (row : FeedRow) :
  feeds d !! url = Some row → failure_count_of url d = failure_count row.
Proof. unfold failure_count_of, select_failure_count. by intros ->. Qed.

Lemma monitor_feeds_failed_count (cfg : Config) (e : Env) (d : DB) (url : string)
    (kw : option string) :
  NoDup (RSS_FEEDS cfg).*1 → (url, kw) ∈ RSS_FEEDS cfg → parse_fails e url →
  failure_count_of url (outcome_db (monitor_feeds cfg e d)) = failure_count_of url d + 1.
Proof.
  intros Hnd Hin Hfail.
  destruct (monitor_feeds_failed cfg e d url kw Hnd Hin Hfail) as (row & Hstart & Hrow & _).
  rewrite (failure_count_of_lookup _ _ _ Hrow). simpl.
  by rewrite (starting_row_failure_count e d url row).
Qed.

Lemma run_passes_failed_count (cfg : Config) (es : list Env) (d : DB) (url : string)
    (kw : option string) :
  NoDup (RSS_FEEDS cfg).*1 → (url, kw) ∈ RSS_FEEDS cfg →
  Forall (fun e => parse_fails e url) es →
  failure_count_of url (run_passes cfg es d) = failure_count_of url d + Z.of_nat (length es).
Proof.
  intros Hnd Hin Hall. revert d.
  induction Hall as [|e es He Hall IH]; intros d; simpl run_passes.
  - simpl. lia.
  - rewrite IH, (monitor_feeds_failed_count cfg e d url kw) by done.
    rewrite length_cons. lia.
Qed.

(** C4. For a feed of a configuration that lists each URL once: after N
    consecutive runs in which its parse fails, the stored failure counter is
    its former value plus N, hence N from zero or from a feed not yet
    stored; a run in which its parse succeeds leaves the counter at zero; and
    in every run in which its parse fails and the incremented counter is at
    least [ERROR_THRESHOLD], the alert is mailed with that count, whether or
    not the threshold was reached before. The alert is mailed in no other
    case of a failed parse. *)
Theorem failure_count_tracking (cfg : Config) (url : string) (kw : option string) :
  NoDup (RSS_FEEDS cfg).*1 → (url, kw) ∈ RSS_FEEDS cfg →
  (∀ es d, Forall (fun e => parse_fails e url) es →
     failure_count_of url (run_passes cfg es d)
       = failure_count_of url d + Z.of_nat (length es)) ∧
  (∀ e d, parse_succeeds e url →
     failure_count_of url (outcome_db (monitor_feeds cfg e d)) = 0) ∧
  (∀ e d, parse_fails e url →
     let c := failure_count_of url d + 1 in
     failure_count_of url (outcome_db (monitor_feeds cfg e d)) = c ∧
     (ERROR_THRESHOLD cfg ≤ c →
        ∃ n, SendCall (alert_subject url)
               (alert_body url c (bozo_exception (parse_reply e n url)))
             ∈ outcome_trace (monitor_feeds cfg e d))) ∧
  (∀ e d tr row,
     bozo (parse_reply e (length tr) url) = true → feeds d !! url = Some row →
     outcome_trace (process_feed cfg e url kw d tr) =
       tr ++ ParseCall url ::
         if ERROR_THRESHOLD cfg <=? failure_count row + 1
         then [SendCall (alert_subject url)
                 (alert_body url (failure_count row + 1)
                    (bozo_exception (parse_reply e (length tr) url)))]
         else []).
Proof.
  intros Hnd Hin. split; [|split; [|split]].
  - intros es d. by apply (run_passes_failed_count cfg es d url kw).
  - intros e d Hok.
    destruct (monitor_feeds_parsed cfg e d url kw Hnd Hin Hok) as [n Hrow].
    by rewrite (failure_count_of_lookup _ _ _ Hrow).
  - intros e d Hfail. simpl. split.
    + by apply (monitor_feeds_failed_count cfg e d url kw).
    + destruct (monitor_feeds_failed cfg e d url kw Hnd Hin Hfail)
        as (row & Hstart & _ & _ & Halert).
      rewrite (starting_row_failure_count e d url row Hstart). exact Halert.
  - intros e d tr row Hb Hrow. by rewrite process_feed_bozo, Hrow.
Qed.

End Health.

(** The configuration of the script lists each URL once. *)
Lemma script_config_NoDup : NoDup (RSS_FEEDS script_config).*1.
Proof.
  simpl. apply NoDup_cons. split; [|apply NoDup_singleton].
  intros H. apply list_elem_of_singleton in H. discriminate H.
Qed.

Lemma config_a_NoDup : NoDup (RSS_FEEDS config_a).*1.
Proof. simpl. apply NoDup_singleton. Defined.

Lemma config_a_feed : (feed_a, Some "python") ∈ RSS_FEEDS config_a.
Proof. simpl. apply list_elem_of_singleton. reflexivity. Defined.

Lemma env_down_fails : parse_fails env_down feed_a.
Proof. intros n. reflexivity. Defined.

Lemma failure_count_tracking_witness :
  failure_count_of feed_a
    (run_passes (lib := example_lib) config_a [env_down; env_down; env_down] empty_db)
  = failure_count_of feed_a empty_db + Z.of_nat 3.
Proof.
  apply (proj1 (failure_count_tracking (lib := example_lib) config_a feed_a (Some "python")
                  config_a_NoDup config_a_feed)
           [env_down; env_down; env_down] empty_db).
  repeat constructor; exact env_down_fails.
Defined.

(** Three failing runs from an empty database: the counter reaches three;
    the third run mails the alert, and so does a fourth. *)
Example alert_on_third_and_fourth_failure :
  let d2 := run_passes (lib := example_lib) config_a [env_down; env_down] empty_db in
  let o3 := monitor_feeds (lib := example_lib) config_a env_down d2 in
  let o4 := monitor_feeds (lib := example_lib) config_a env_down (outcome_db o3) in
  sent_mails (outcome_trace (monitor_feeds (lib := example_lib) config_a env_down empty_db)) = [] ∧
  failure_count_of feed_a (outcome_db o3) = 3 ∧
  (sent_mails (outcome_trace o3)).*1 = ["RSS Monitor Error: https://example.org/feed"] ∧
  (sent_mails (outcome_trace o3)).*2 =
    ["Failed to parse feed https://example.org/feed 3 times. Error: not well-formed"] ∧
  (sent_mails (outcome_trace o4)).*2 =
    ["Failed to parse feed https://example.org/feed 4 times. Error: not well-formed"].
Proof. vm_compute. repeat split; reflexivity. Qed.

(** With the constants of the script: three runs in which no feed parses
    leave both counters at three, and a run in which both parse resets
    them. *)
Example script_config_counters :
  let d3 := run_passes (lib := example_lib) script_config [env_down; env_down; env_down]
              empty_db in
  let d4 := run_passes (lib := example_lib) script_config [env_offline []] d3 in
  failure_count_of "https://news.opensuse.org/feed/" d3 = 3 ∧
  failure_count_of "https://www.reddit.com/r/python.rss" d3 = 3 ∧
  failure_count_of "https://news.opensuse.org/feed/" d4 = 0 ∧
  failure_count_of "https://www.reddit.com/r/python.rss" d4 = 0.
Proof. vm_compute. repeat split; reflexivity. Qed.

(** ** Entries the filter rejects *)

Section Rejected.
Context {lib : PyLib}.
Implicit Types (cfg : Config) (e : Env) (kw : option string) (d : DB) (tr : Trace).

Lemma known_articles_of (url : string) d d' :
  articles_of url d' = articles_of url d → known url d' = known url d.
Proof. unfold known. rewrite !select_identifiers_articles_of. by intros ->. Qed.


Lemma known_grows (url : string) d d' (rows : list ArticleRow) :
  articles d' = articles d ++ rows → known url d ⊆ known url d'.
Proof.
  intros Hrows x. rewrite !elem_of_known, Hrows, fmap_app, elem_of_app. by left.
Qed.

Lemma process_feed_avoids cfg e (url : string) kw d tr (ident : string) :
  ident ∉ known url d →
  (∀ item, item ∈ entries (parse_reply e (length tr) url) →
           get_article_identifier item = ident → always_rejected e kw item) →
  (ident ∉ known url (outcome_db (process_feed cfg e url kw d tr))) ∧
  (∀ a, a ∈ new_articles (feed_scan e url kw d tr) → na_identifier a ≠ ident).
Proof.
  intros Hout Hrej.
  destruct (scan_entries_avoids e kw
              {| seen := known url d; new_articles := [];
                 scan_trace := tr ++ [ParseCall url; NowCall] |}
              (entries (parse_reply e (length tr) url)) ident Hrej Hout)
    as [Hseen Hnews].
  { intros a Ha. by apply elem_of_nil in Ha. }
  split; [|exact Hnews].
  destruct (bozo (parse_reply e (length tr) url)) eqn:Hb.
  - rewrite process_feed_bozo by done. by destruct (feeds d !! url).
  - rewrite process_feed_parsed by done. simpl.
    rewrite known_with_new_rows.
    change (known url (reset_failure_count ?n url d)) with (known url d).
    destruct (feed_scan_inv e url kw d tr) as (_ & _ & Heq).
    fold (feed_scan e url kw d tr) in Hseen. by rewrite <- Heq.
Qed.






End Rejected.



(** ** Two runs in a row *)

Section Idempotence.
Context {lib : PyLib}.
Implicit Types (cfg : Config) (e : Env) (kw : option string) (d : DB) (tr : Trace).
Implicit Types (fs : list (string * option string)).

Lemma alert_is_not_news (url body : string) :
  ¬ is_news_mail (SendCall (alert_subject url) body).
Proof. intros (name & b & H). discriminate H. Qed.

Lemma probe_is_not_news (c : Call) : is_probe c → ¬ is_news_mail c.
Proof. intros Hc (name & b & ->). exact Hc. Qed.

Lemma poll_feeds_grows cfg e fs d tr d' tr' :
  poll_feeds cfg e fs d tr = Done d' tr' → ∃ rows, articles d' = articles d ++ rows.
Proof.
  revert d tr. induction fs as [|[u k] fs IH]; intros d tr Hpoll; simpl in Hpoll.
  - injection Hpoll as <- _. exists []. by rewrite app_nil_r.
  - pose proof (process_feed_step cfg e u k d tr) as [(_ & _ & [news Hrows] & _) _].
    destruct (process_feed cfg e u k d tr) as [d1 tr1|]; [|done]. simpl in Hrows.
    destruct (IH d1 tr1 Hpoll) as [rows Hr].
    eexists. rewrite Hr, Hrows. by rewrite <- app_assoc.
Qed.

(** After the loop over the feeds, every entry of a feed that parsed is
    stored for the feed or was rejected by the filter at its turn. *)
Lemma poll_feeds_covered cfg e fs d tr d' tr' (u : string) kw (item : Item) :
  (∀ n url, url ∈ fs.*1 → parse_reply e n url = parse_reply e 0%nat url) →
  poll_feeds cfg e fs d tr = Done d' tr' →
  (u, kw) ∈ fs →
  bozo (parse_reply e 0%nat u) = false →
  item ∈ entries (parse_reply e 0%nat u) →
  get_article_identifier item ∈ known u d' ∨
  ∃ tr0, matches_filter item
           (fetch_if_link e (default "No link" (item_link item)) tr0).1 kw = false.
Proof.
  intros Hindep. revert d tr.
  induction fs as [|[u0 k0] fs IH]; intros d tr Hpoll Hin Hb Hitem.
  - by apply elem_of_nil in Hin.
  - simpl in Hpoll.
    destruct (process_feed cfg e u0 k0 d tr) as [d1 tr1|] eqn:Hp; [|done].
    apply elem_of_cons in Hin as [Heq | Hin].
    2:{ apply (IH (fun n url H => Hindep n url (list_elem_of_further _ _ _ H)) d1 tr1);
        done. }
    injection Heq as <- <-.
    assert (parse_reply e (length tr) u = parse_reply e 0%nat u) as Hu
      by (apply Hindep; left).
    rewrite process_feed_parsed in Hp by by rewrite Hu.
    injection Hp as <- _.
    destruct (scan_entries_covered e kw
                {| seen := known u d; new_articles := [];
                   scan_trace := tr ++ [ParseCall u; NowCall] |}
                (entries (parse_reply e (length tr) u)) item) as [Hseen | Hrej].
    + by rewrite Hu.
    + left. destruct (poll_feeds_grows cfg e fs _ _ d' tr' Hpoll) as [rows Hrows].
      apply (known_grows u _ d' rows Hrows).
      rewrite known_with_new_rows.
      change (known u (reset_failure_count ?n u d)) with (known u d).
      destruct (feed_scan_inv e u kw d tr) as (_ & _ & Hs).
      rewrite <- Hs. exact Hseen.
    + by right.
Qed.

(** A loop over the feeds in which every entry is stored or rejected stores
    nothing and mails no news. *)
Lemma poll_feeds_quiet cfg e fs d0 d tr :
  articles d = articles d0 →
  (∀ u kw n item, (u, kw) ∈ fs → bozo (parse_reply e n u) = false →
     item ∈ entries (parse_reply e n u) →
     get_article_identifier item ∈ known u d0 ∨ always_rejected e kw item) →
  (∀ u, u ∈ fs.*1 → is_Some (feeds d !! u)) →
  ∃ d' calls,
    poll_feeds cfg e fs d tr = Done d' (tr ++ calls) ∧
    articles d' = articles d0 ∧
    Forall (fun c => ¬ is_news_mail c) calls.
Proof.
  revert d tr. induction fs as [|[u k] fs IH]; intros d tr Harts Hq Hrows.
  - exists d, []. simpl. by rewrite app_nil_r.
  - simpl.
    assert (∃ d1 c1, process_feed cfg e u k d tr = Done d1 (tr ++ c1) ∧
                     articles d1 = articles d0 ∧
                     dom (feeds d1) = dom (feeds d) ∧
                     Forall (fun c => ¬ is_news_mail c) c1) as (d1 & c1 & Hp & Ha & Hdom & Hc1).
    { destruct (bozo (parse_reply e (length tr) u)) eqn:Hb.
      - rewrite process_feed_bozo by done.
        destruct (Hrows u) as [row Hrow]; [left|]. rewrite Hrow.
        eexists _, _. split; [reflexivity|]. split; [done|]. split.
        + simpl. by rewrite dom_alter_L.
        + constructor; [by intros (? & ? & ?)|].
          destruct (_ <=? _); repeat constructor. apply alert_is_not_news.
      - rewrite process_feed_parsed by done. simpl.
        destruct (scan_entries_quiet e k
                    {| seen := known u d; new_articles := [];
                       scan_trace := tr ++ [ParseCall u; NowCall] |}
                    (entries (parse_reply e (length tr) u))) as [Hnew _].
        { intros item Hitem. simpl.
          rewrite (known_articles_of u d0 d) by (unfold articles_of; by rewrite Harts).
          apply (Hq u k (length tr) item); [left | done | done]. }
        destruct (scan_entries_trace e k
                    {| seen := known u d; new_articles := [];
                       scan_trace := tr ++ [ParseCall u; NowCall] |}
                    (entries (parse_reply e (length tr) u))) as (calls & Hc & Hprobe).
        unfold feed_scan. rewrite Hnew, Hc. simpl.
        exists (with_new_rows u [] (reset_failure_count (now_reply e (S (length tr))) u d)),
               ([ParseCall u; NowCall] ++ calls).
        split; [by rewrite app_nil_r, <- !app_assoc|]. split; [|split].
        + simpl. by rewrite app_nil_r.
        + simpl. by rewrite dom_alter_L.
        + constructor; [by intros (? & ? & ?)|].
          constructor; [by intros (? & ? & ?)|].
          eapply Forall_impl; [exact Hprobe | apply probe_is_not_news]. }
    rewrite Hp.
    destruct (IH d1 (tr ++ c1) Ha) as (d' & c2 & Hpoll & Ha' & Hc2).
    + intros u' kw' n item Hin. apply Hq. by right.
    + intros u' Hin. apply elem_of_dom. rewrite Hdom. apply elem_of_dom.
      apply Hrows. by right.
    + exists d', (c1 ++ c2). rewrite Hpoll, <- app_assoc.
      split; [done|]. split; [done | by apply Forall_app].
Qed.

(** When a run ends, every entry a parsed feed supplied is stored for the
    feed or was rejected by the filter. *)
Lemma poll_pass_covered cfg e d (u : string) kw (item : Item) :
  (∀ n url, url ∈ (RSS_FEEDS cfg).*1 → parse_reply e n url = parse_reply e 0%nat url) →
  (u, kw) ∈ RSS_FEEDS cfg →
  bozo (parse_reply e 0%nat u) = false →
  item ∈ entries (parse_reply e 0%nat u) →
  get_article_identifier item ∈ known u (outcome_db (poll_pass cfg e d)) ∨
  ∃ tr0, matches_filter item
           (fetch_if_link e (default "No link" (item_link item)) tr0).1 kw = false.
Proof.
  intros Hindep Hin Hb Hitem.
  destruct (monitor_feeds_completes cfg e d) as (d1 & tr1 & Hpoll & _).
  rewrite Hpoll. simpl. unfold poll_pass in Hpoll.
  by eapply (poll_feeds_covered cfg e (RSS_FEEDS cfg)).
Qed.

(** A run from a database in which every entry the feeds supply is stored or
    rejected adds no article and mails no news. *)
Lemma monitor_feeds_quiet cfg e d :
  (∀ u kw n item, (u, kw) ∈ RSS_FEEDS cfg → bozo (parse_reply e n u) = false →
     item ∈ entries (parse_reply e n u) →
     get_article_identifier item ∈ known u d ∨ always_rejected e kw item) →
  articles (outcome_db (poll_pass cfg e d)) = articles d ∧
  (∀ a, a ∈ articles (outcome_db (monitor_feeds cfg e d)) → a ∈ articles d) ∧
  (∀ c, c ∈ outcome_trace (monitor_feeds cfg e d) → ¬ is_news_mail c).
Proof.
  intros Hq.
  pose proof (ensure_feed_rows_spec e (RSS_FEEDS cfg) d []) as Hens. cbv zeta in Hens.
  destruct Hens as (Ha0 & _ & Hdom & _ & _ & Htr0).
  destruct (poll_feeds_quiet cfg e (RSS_FEEDS cfg) d
              (ensure_feed_rows e (RSS_FEEDS cfg) d []).1
              (ensure_feed_rows e (RSS_FEEDS cfg) d []).2 Ha0 Hq)
    as (d' & calls & Hpoll & Ha & Hc).
  { intros u Hin. apply elem_of_dom. rewrite Hdom. set_solver. }
  destruct (monitor_feeds_completes cfg e d) as (d1 & tr1 & Hpoll1 & Hrun & _).
  unfold poll_pass in *. rewrite Hpoll in Hpoll1. injection Hpoll1 as <- <-.
  rewrite Hrun, Hpoll. simpl. split; [done|]. split.
  - intros a Hin. apply list_elem_of_filter in Hin as [_ Hin]. by rewrite <- Ha.
  - intros c Hin. rewrite Htr0 in Hin. simpl in Hin.
    rewrite !elem_of_app in Hin. destruct Hin as [[Hin | Hin] | Hin].
    + apply elem_of_replicate in Hin as [-> _]. by intros (? & ? & ?).
    + by apply (proj1 (Forall_forall _ _) Hc).
    + apply list_elem_of_singleton in Hin. subst c. by intros (? & ? & ?).
Qed.

(** C2, amended. Two runs in a row, the second observing the same result of
    the feed parser for every feed. If every entry the filter rejected in the
    first run is rejected in the second whenever its page is fetched, and
    every entry of the feeds that was stored when the polling of the first
    run ended is still stored after its prune, or is rejected in the second
    run, then the second run adds no article, up to its prune and after it,
    and mails no news. *)
Theorem second_run_is_quiet cfg (e1 e2 : Env) (d0 : DB) :
  (∀ n m u, u ∈ (RSS_FEEDS cfg).*1 → parse_reply e2 n u = parse_reply e1 m u) →
  (∀ u kw item tr1, (u, kw) ∈ RSS_FEEDS cfg → item ∈ entries (parse_reply e1 0%nat u) →
     matches_filter item
       (fetch_if_link e1 (default "No link" (item_link item)) tr1).1 kw = false →
     always_rejected e2 kw item) →
  (∀ u kw item, (u, kw) ∈ RSS_FEEDS cfg → item ∈ entries (parse_reply e1 0%nat u) →
     get_article_identifier item ∈ known u (outcome_db (poll_pass cfg e1 d0)) →
     get_article_identifier item ∈ known u (outcome_db (monitor_feeds cfg e1 d0)) ∨
     always_rejected e2 kw item) →
  let d1 := outcome_db (monitor_feeds cfg e1 d0) in
  articles (outcome_db (poll_pass cfg e2 d1)) = articles d1 ∧
  (∀ a, a ∈ articles (outcome_db (monitor_feeds cfg e2 d1)) → a ∈ articles d1) ∧
  (∀ c, c ∈ outcome_trace (monitor_feeds cfg e2 d1) → ¬ is_news_mail c).
Proof.
  intros Hsame Hstable Hprune. simpl.
  apply monitor_feeds_quiet.
  intros u kw n item Hin Hb Hitem.
  assert (u ∈ (RSS_FEEDS cfg).*1) as Hu by by apply (list_elem_of_fmap_2 fst) in Hin.
  rewrite (Hsame n 0%nat u Hu) in Hb, Hitem.
  destruct (poll_pass_covered cfg e1 d0 u kw item) as [Hk | [tr0 Hrej]]; try done.
  - intros m url Hurl.
    by rewrite <- (Hsame 0%nat m url Hurl), <- (Hsame 0%nat 0%nat url Hurl).
  - by apply (Hprune u kw item).
  - right. by apply (Hstable u kw item tr0).
Qed.

(** The pages answer alike in both runs: a sufficient condition for the
    filter to reject again what it rejected. *)
Lemma same_pages_same_filter (e1 e2 : Env) kw (item : Item) (tr1 : Trace) :
  (∀ n m url, get_reply e2 n url = get_reply e1 m url) →
  matches_filter item
    (fetch_if_link e1 (default "No link" (item_link item)) tr1).1 kw = false →
  always_rejected e2 kw item.
Proof.
  intros Hsame Hrej tr2. rewrite fetch_if_link_spec in *.
  destruct (truthy _); simpl in *; [|done]. by rewrite (Hsame _ (length tr1)).
Qed.

End Idempotence.

Lemma second_run_is_quiet_witness :
  let e := env_online [entry_python; entry_plain] "<p>Rust</p>" in
  let d1 := outcome_db (monitor_feeds (lib := example_lib) config_a e db_one_old) in
  articles (outcome_db (poll_pass (lib := example_lib) config_a e d1)) = articles d1 ∧
  (∀ a, a ∈ articles (outcome_db (monitor_feeds (lib := example_lib) config_a e d1)) →
        a ∈ articles d1) ∧
  (∀ c, c ∈ outcome_trace (monitor_feeds (lib := example_lib) config_a e d1) →
        ¬ is_news_mail c).
Proof.
  cbv zeta.
  apply (second_run_is_quiet (lib := example_lib) config_a
           (env_online [entry_python; entry_plain] "<p>Rust</p>")
           (env_online [entry_python; entry_plain] "<p>Rust</p>") db_one_old).
  - intros n m u _. reflexivity.
  - intros u kw item tr1 Hin Hitem Hrej.
    simpl in Hin, Hitem.
    apply list_elem_of_singleton in Hin. injection Hin as -> ->.
    apply elem_of_cons in Hitem as [-> | Hitem]; [discriminate Hrej|].
    apply list_elem_of_singleton in Hitem. subst item.
    intros tr2. reflexivity.
  - intros u kw item Hin Hitem _.
    simpl in Hin, Hitem.
    apply list_elem_of_singleton in Hin. injection Hin as -> ->.
    apply elem_of_cons in Hitem as [-> | Hitem].
    + left. apply elem_of_known. vm_compute. left.
    + apply list_elem_of_singleton in Hitem. subst item.
      right. intros tr2. reflexivity.
Defined.

(** In that example the first run stores the entry that names the keyword,
    rejects the other, and prunes the article stored before, which the feed
    no longer supplies. *)
Example second_run_is_quiet_first_run :
  let e := env_online [entry_python; entry_plain] "<p>Rust</p>" in
  identifier <$> articles (outcome_db (poll_pass (lib := example_lib) config_a e db_one_old))
  = ["g0"; "g1"] ∧
  identifier <$> articles (outcome_db (monitor_feeds (lib := example_lib) config_a e db_one_old))
  = ["g1"].
Proof. vm_compute. split; reflexivity. Qed.

(** C2 as stated fails when the page of an entry answers differently: the
    feed supplies the same entry in both runs; the first run cannot fetch its
    page and the filter rejects it; the second run fetches the page, the
    filter accepts the entry, a row is inserted and the news is mailed. *)
Lemma second_run_can_insert_and_mail :
  let e1 := env_offline [entry_plain] in
  let e2 := env_online [entry_plain] "<p>Python</p>" in
  let d1 := outcome_db (monitor_feeds (lib := example_lib) config_a e1 empty_db) in
  let o2 := monitor_feeds (lib := example_lib) config_a e2 d1 in
  (∀ n m u, parse_reply e2 n u = parse_reply e1 m u) ∧
  (∀ n u, entries (parse_reply e2 n u) = [entry_plain]) ∧
  articles d1 = [] ∧
  identifier <$> articles (outcome_db o2) = ["g2"] ∧
  (sent_mails (outcome_trace o2)).*1 = ["New RSS Articles: Example"].
Proof.
  cbv zeta. split; [intros n m u; reflexivity|]. split; [intros n u; reflexivity|].
  vm_compute. repeat split; reflexivity.
Qed.

(** An article dated before the cutoff is stored, mailed and pruned by one
    run, and stored and mailed again by the next, the outside world being
    the same in both. *)
Example pruned_article_is_mailed_again :
  let e := env_online [entry_old] "<p>Python</p>" in
  let o1 := monitor_feeds (lib := example_lib) config_a e empty_db in
  let o2 := monitor_feeds (lib := example_lib) config_a e (outcome_db o1) in
  identifier <$> articles (outcome_db (poll_pass (lib := example_lib) config_a e empty_db))
    = ["g3"] ∧
  (sent_mails (outcome_trace o1)).*1 = ["New RSS Articles: Example"] ∧
  articles (outcome_db o1) = [] ∧
  identifier <$> articles (outcome_db (poll_pass (lib := example_lib) config_a e (outcome_db o1)))
    = ["g3"] ∧
  (sent_mails (outcome_trace o2)).*1 = ["New RSS Articles: Example"].
Proof. vm_compute. repeat split; reflexivity. Qed.


(** * More of the script *)

(** ** Digests *)

Section Digest.

Lemma string_length_app (a b : string) :
  String.length (a +:+ b) = (String.length a + String.length b)%nat.
Proof.
  induction a as [|c a IH]; [done|]. rewrite string_app_cons. simpl. by rewrite IH.
Qed.

Lemma all_chars_app (p : ascii → bool) (a b : string) :
  all_chars p (a +:+ b) = all_chars p a && all_chars p b.
Proof.
  induction a as [|c a IH]; [done|].
  rewrite string_app_cons. simpl. by rewrite IH, andb_assoc.
Qed.

Lemma slice_to_length (n : nat) (s : string) :
  String.length (slice_to n s) = (n `min` String.length s)%nat.
Proof.
  revert s. induction n as [|n IH]; intros [|c s]; simpl; auto.
Qed.

Lemma slice_to_all_chars (p : ascii → bool) (n : nat) (s : string) :
  all_chars p s = true → all_chars p (slice_to n s) = true.
Proof.
  revert s. induction n as [|n IH]; intros [|c s]; simpl; auto.
  rewrite !andb_true_iff. intros [Hc Hs]. auto.
Qed.

Lemma hex_digit_is_hex (n : Z) : 0 ≤ n < 16 → is_hex_digit (SHA256.hex_digit n) = true.
Proof.
  intros Hn. assert (∃ k : nat, (k < 16)%nat ∧ n = Z.of_nat k) as (k & Hk & ->).
  { exists (Z.to_nat n). split; lia. }
  do 16 (destruct k as [|k]; [reflexivity|]). lia.
Qed.

Lemma hex_chars_length (f : Z → Z) (l : list Z) :
  String.length (foldr (fun i s => String (SHA256.hex_digit (f i `mod` 16)) s) EmptyString l)
  = length l.
Proof. induction l as [|i l IH]; [done|]. cbn [foldr String.length length]. by rewrite IH. Qed.

Lemma hex_chars_are_hex (f : Z → Z) (l : list Z) :
  all_chars is_hex_digit
    (foldr (fun i s => String (SHA256.hex_digit (f i `mod` 16)) s) EmptyString l) = true.
Proof.
  induction l as [|i l IH]; [done|]. cbn [foldr all_chars].
  rewrite hex_digit_is_hex by (apply Z.mod_pos_bound; lia). by rewrite IH.
Qed.

Lemma hex_word_length (w : Z) : String.length (SHA256.hex_word w) = 8%nat.
Proof.
  unfold SHA256.hex_word.
  by rewrite (hex_chars_length (fun i => Z.shiftr w (4 * i))).
Qed.

Lemma hex_word_is_hex (w : Z) : all_chars is_hex_digit (SHA256.hex_word w) = true.
Proof.
  unfold SHA256.hex_word. apply (hex_chars_are_hex (fun i => Z.shiftr w (4 * i))).
Qed.

Lemma round_length (v : list Z) (kw : Z * Z) : length (SHA256.round v kw) = length v.
Proof.
  unfold SHA256.round.
  do 9 (destruct v as [|? v]; [reflexivity|]). reflexivity.
Qed.

Lemma foldl_round_length (v : list Z) (l : list (Z * Z)) :
  length (foldl SHA256.round v l) = length v.
Proof.
  revert v. induction l as [|kw l IH]; intros v; [done|].
  cbn [foldl]. by rewrite IH, round_length.
Qed.

Lemma compress_length (h block : list Z) : length (SHA256.compress h block) = length h.
Proof.
  unfold SHA256.compress. rewrite length_zip_with, foldl_round_length. lia.
Qed.

Lemma blocks_length (n : nat) (h ws : list Z) : length (SHA256.blocks n h ws) = length h.
Proof.
  revert h ws. induction n as [|n IH]; intros h ws; [done|].
  cbn [SHA256.blocks]. destruct ws as [|w ws]; [done|]. by rewrite IH, compress_length.
Qed.

Lemma hex_words_length (l : list Z) :
  String.length (foldr (fun w acc => SHA256.hex_word w +:+ acc) EmptyString l)
  = (8 * length l)%nat.
Proof.
  induction l as [|w l IH]; [done|].
  cbn [foldr]. rewrite string_length_app, hex_word_length, IH. cbn [length]. lia.
Qed.

Lemma hex_words_are_hex (l : list Z) :
  all_chars is_hex_digit (foldr (fun w acc => SHA256.hex_word w +:+ acc) EmptyString l)
  = true.
Proof.
  induction l as [|w l IH]; [done|].
  cbn [foldr]. by rewrite all_chars_app, hex_word_is_hex, IH.
Qed.

Lemma H0_length : length SHA256.H0 = 8%nat.
Proof. unfold SHA256.H0. rewrite length_fmap. reflexivity. Qed.

(** The digest of any string is written on 64 hexadecimal digits. *)
Lemma hexdigest_length (s : string) : String.length (SHA256.hexdigest s) = 64%nat.
Proof.
  unfold SHA256.hexdigest. cbv zeta. by rewrite hex_words_length, blocks_length, H0_length.
Qed.

Lemma hexdigest_is_hex (s : string) : all_chars is_hex_digit (SHA256.hexdigest s) = true.
Proof. unfold SHA256.hexdigest. apply hex_words_are_hex. Qed.

End Digest.

Lemma slice_to_prefix (n : nat) (s : string) : starts_with (slice_to n s) s = true.
Proof.
  revert s. induction n as [|n IH]; intros [|c s]; simpl; auto.
  by rewrite Ascii.eqb_refl.
Qed.

(** X1. Whatever the URL, the empty one included, [hash_feed_url] returns
    exactly 16 characters, each a digit or a letter from a to f, and they are
    the beginning of the SHA-256 digest of the URL: the slice never falls
    short. *)
Theorem hash_feed_url_hex16 (url : string) :
  String.length (hash_feed_url url) = 16%nat ∧
  all_chars is_hex_digit (hash_feed_url url) = true ∧
  starts_with (hash_feed_url url) (SHA256.hexdigest url) = true.
Proof.
  unfold hash_feed_url. split; [|split].
  - rewrite slice_to_length, hexdigest_length. reflexivity.
  - apply slice_to_all_chars, hexdigest_is_hex.
  - apply slice_to_prefix.
Qed.

Example hash_feed_url_example :
  hash_feed_url "https://news.opensuse.org/feed/" = "2cb8613803057620".
Proof. vm_compute. reflexivity. Qed.

Lemma string_length_nonempty (s : string) : (0 < String.length s)%nat → s ≠ EmptyString.
Proof. destruct s; simpl; [lia | done]. Qed.

(** X2. The identifier of an entry is never the empty string, whatever keys
    the entry holds, none included: a GUID or a link is used only when it is
    not empty, and the digest used otherwise has 64 hexadecimal digits. *)
Theorem get_article_identifier_nonempty (item : Item) :
  get_article_identifier item ≠ EmptyString ∧
  ((item_guid item = None ∨ item_guid item = Some EmptyString) →
   (item_link item = None ∨ item_link item = Some EmptyString) →
   String.length (get_article_identifier item) = 64%nat ∧
   all_chars is_hex_digit (get_article_identifier item) = true).
Proof.
  unfold get_article_identifier. split.
  - destruct (present_truthy (item_guid item)) as [g|] eqn:Hg.
    { by apply present_truthy_Some in Hg as [_ ?]. }
    destruct (present_truthy (item_link item)) as [l|] eqn:Hl.
    { by apply present_truthy_Some in Hl as [_ ?]. }
    apply string_length_nonempty. rewrite hexdigest_length. lia.
  - intros Hg Hl.
    rewrite (proj2 (present_truthy_None _) Hg), (proj2 (present_truthy_None _) Hl).
    split; [apply hexdigest_length | apply hexdigest_is_hex].
Qed.

Lemma get_article_identifier_nonempty_witness :
  String.length (get_article_identifier entry_bare) = 64%nat ∧
  all_chars is_hex_digit (get_article_identifier entry_bare) = true.
Proof.
  apply (proj2 (get_article_identifier_nonempty entry_bare));
    [left; reflexivity | right; reflexivity].
Defined.

(** ** The filter and the page *)

Section FilterContent.
Context {lib : PyLib}.

Lemma str_in_app_r (needle a b : string) :
  str_in needle a = true → str_in needle (a +:+ b) = true.
Proof.
  rewrite !str_in_spec. intros (before & after & ->).
  exists before, (after +:+ b). by rewrite !string_app_assoc.
Qed.

(** X3. The page can only add matches: an entry the filter accepts without
    extracted content is accepted with any content (lowering the empty
    string gives the empty string, as [str.lower] does); so an entry rejected
    with some content is rejected without content too. *)
Theorem content_only_helps (item : Item) (fetched_content filter_keywords : option string) :
  str_lower EmptyString = EmptyString →
  matches_filter item None filter_keywords = true →
  matches_filter item fetched_content filter_keywords = true.
Proof.
  intros Hempty. unfold matches_filter.
  destruct (present_truthy filter_keywords) as [kw|]; [|done].
  cbn [or_else]. rewrite Hempty, string_app_nil_r, <- (string_app_assoc _ _ (str_lower _)).
  apply str_in_app_r.
Qed.

End FilterContent.

Lemma content_only_helps_witness :
  matches_filter (lib := example_lib) entry_python (Some "<p>Rust</p>") (Some "python") = true.
Proof.
  apply (content_only_helps (lib := example_lib)); reflexivity.
Defined.

(** ** The calls of a run *)

Section Calls.
Context {lib : PyLib}.
Implicit Types (cfg : Config) (e : Env) (kw : option string) (d : DB) (tr : Trace).
Implicit Types (fs : list (string * option string)).

Lemma parse_calls_app (a b : Trace) : parse_calls (a ++ b) = parse_calls a ++ parse_calls b.
Proof. apply omap_app. Qed.


Lemma sent_mails_app (a b : Trace) : sent_mails (a ++ b) = sent_mails a ++ sent_mails b.
Proof. apply omap_app. Qed.

Lemma probes_parse_calls (calls : Trace) : Forall is_probe calls → parse_calls calls = [].
Proof.
  induction 1 as [|c calls Hc _ IH]; [done|]. by destruct c.
Qed.

Lemma probes_sent_mails (calls : Trace) : Forall is_probe calls → sent_mails calls = [].
Proof.
  induction 1 as [|c calls Hc _ IH]; [done|]. by destruct c.
Qed.

Lemma replicate_now_calls (n : nat) :
  parse_calls (replicate n NowCall) = [] ∧ sent_mails (replicate n NowCall) = [] ∧
  get_calls (replicate n NowCall) = [].
Proof. induction n as [|n IH]; [done|]. exact IH. Qed.

(** What the turn of a feed adds to the trace: the call of the parser, then
    no other call of the parser and at most one mail. *)
Lemma process_feed_calls cfg e (url : string) kw d tr :
  ∃ rest,
    outcome_trace (process_feed cfg e url kw d tr) = tr ++ ParseCall url :: rest ∧
    parse_calls rest = [] ∧ (length (sent_mails rest) ≤ 1)%nat.
Proof.
  destruct (bozo (parse_reply e (length tr) url)) eqn:Hb.
  - rewrite process_feed_bozo by done.
    destruct (feeds d !! url) as [row|]; simpl.
    + eexists. split; [reflexivity|]. destruct (_ <=? _); simpl; split; auto.
    + exists []. simpl. auto.
  - rewrite process_feed_parsed by done. simpl.
    destruct (scan_entries_trace e kw
                {| seen := known url d; new_articles := [];
                   scan_trace := tr ++ [ParseCall url; NowCall] |}
                (entries (parse_reply e (length tr) url))) as (calls & Hc & Hprobe).
    unfold feed_scan. rewrite Hc. simpl.
    assert (Forall is_probe (NowCall :: calls)) as Hprobe' by by constructor.
    match goal with
    | |- context [ ((tr ++ [ParseCall url; NowCall]) ++ calls) ++ ?tail ] =>
        exists ((NowCall :: calls) ++ tail)
    end.
    split; [by rewrite <- !app_assoc|].
    rewrite parse_calls_app, sent_mails_app.
    rewrite (probes_parse_calls _ Hprobe'), (probes_sent_mails _ Hprobe').
    destruct (new_articles _); simpl; split; auto.
Qed.

Lemma poll_feeds_calls cfg e fs d tr :
  (∀ u, u ∈ fs.*1 → is_Some (feeds d !! u)) →
  parse_calls (outcome_trace (poll_feeds cfg e fs d tr)) = parse_calls tr ++ fs.*1 ∧
  (length (sent_mails (outcome_trace (poll_feeds cfg e fs d tr)))
   ≤ length (sent_mails tr) + length fs)%nat.
Proof.
  revert d tr. induction fs as [|[u k] fs IH]; intros d tr Hrows.
  - simpl. rewrite app_nil_r. split; [done | lia].
  - simpl.
    destruct (process_feed_Done cfg e u k d tr) as (d1 & tr1 & Hp); [apply Hrows; left|].
    destruct (process_feed_calls cfg e u k d tr) as (rest & Htr & Hparse & Hmail).
    pose proof (process_feed_step cfg e u k d tr) as [(_ & Hdom & _) _].
    rewrite Hp in *. simpl in Htr, Hdom.
    destruct (IH d1 tr1) as [IH1 IH2].
    { intros u' Hin. apply elem_of_dom. rewrite Hdom. apply elem_of_dom.
      apply Hrows. by right. }
    rewrite IH1. split.
    + rewrite Htr, parse_calls_app. simpl. rewrite Hparse. by rewrite <- app_assoc.
    + etransitivity; [exact IH2|].
      rewrite Htr, sent_mails_app, length_app. simpl. lia.
Qed.

(** X4. In every run each configured feed is handed to the parser exactly
    once, in the order of the configuration, whatever the parser answers
    and whatever happens to the feeds before it. *)
Theorem every_feed_parsed_once cfg e d :
  parse_calls (outcome_trace (monitor_feeds cfg e d)) = (RSS_FEEDS cfg).*1.
Proof.
  destruct (monitor_feeds_completes cfg e d) as (d1 & tr1 & Hpoll & -> & _).
  pose proof (ensure_feed_rows_spec e (RSS_FEEDS cfg) d []) as Hens. cbv zeta in Hens.
  destruct Hens as (_ & _ & Hdom & _ & _ & Htr0).
  destruct (poll_feeds_calls cfg e (RSS_FEEDS cfg)
              (ensure_feed_rows e (RSS_FEEDS cfg) d []).1
              (ensure_feed_rows e (RSS_FEEDS cfg) d []).2) as [Hparse _].
  { intros u Hin. apply elem_of_dom. rewrite Hdom. set_solver. }
  unfold poll_pass in Hpoll. rewrite Hpoll in Hparse. simpl in *.
  rewrite parse_calls_app, Hparse, Htr0. simpl.
  rewrite (proj1 (replicate_now_calls _)). by rewrite app_nil_r.
Qed.

End Calls.

(** ** The rows a run adds *)

Section Rows.
Context {lib : PyLib}.
Implicit Types (cfg : Config) (e : Env) (kw : option string) (d : DB) (tr : Trace).
Implicit Types (fs : list (string * option string)).

Lemma row_article_rows_of (url : string) (n : Z) (news : list NewArticle) :
  row_article <$> rows_of url n news = news.
Proof.
  revert n. induction news as [|a news IH]; intros n; [done|].
  simpl. rewrite IH. by destruct a.
Qed.

Lemma elem_of_rows_of (url : string) (n : Z) (news : list NewArticle) (row : ArticleRow) :
  row ∈ rows_of url n news →
  feed_url row = url ∧ row_article row ∈ news ∧
  n < rowid row ≤ n + Z.of_nat (length news).
Proof.
  revert n. induction news as [|a news IH]; intros n Hin; simpl in Hin.
  - by apply elem_of_nil in Hin.
  - apply elem_of_cons in Hin as [-> | Hin].
    + simpl. split; [done|]. split; [destruct a; left | lia].
    + destruct (IH _ Hin) as (Hu & Ha & Hid).
      split; [done|]. split; [by right | simpl; lia].
Qed.

Lemma rows_of_rowids_NoDup (url : string) (n : Z) (news : list NewArticle) :
  NoDup (rowid <$> rows_of url n news).
Proof.
  revert n. induction news as [|a news IH]; intros n; simpl; constructor; [|apply IH].
  intros Hin. apply list_elem_of_fmap in Hin as (row & Hid & Hrow).
  apply elem_of_rows_of in Hrow as (_ & _ & Hrange). simpl in Hid. lia.
Qed.

Lemma scan_entries_sourced e kw s items :
  (∀ a, a ∈ new_articles s → sourced e kw items a) →
  ∀ a, a ∈ new_articles (scan_entries e kw s items) → sourced e kw items a.
Proof.
  apply (scan_entries_ind (fun s' => ∀ a, a ∈ new_articles s' → sourced e kw items a)).
  intros s' item Hitem Hs'.
  scan_item_cases e kw s' item Hout; [done|].
  destruct (matches_filter item _ kw) eqn:Hm; [|done]. simpl.
  intros a Ha. apply elem_of_app in Ha as [Ha | Ha]; [by apply Hs'|].
  apply list_elem_of_singleton in Ha. subst a.
  exists item, (scan_trace s'). by repeat split.
Qed.

(** What the turn of a feed adds to the database: rows of the feed,
    numbered after the counter, one for each article accepted from the
    parsed entries. *)
Lemma process_feed_rows cfg e (url : string) kw d tr :
  ∃ news,
    articles (outcome_db (process_feed cfg e url kw d tr))
      = articles d ++ rows_of url (last_id d) news ∧
    last_id (outcome_db (process_feed cfg e url kw d tr))
      = last_id d + Z.of_nat (length news) ∧
    (∀ a, a ∈ news →
       bozo (parse_reply e (length tr) url) = false ∧
       sourced e kw (entries (parse_reply e (length tr) url)) a).
Proof.
  destruct (bozo (parse_reply e (length tr) url)) eqn:Hb.
  - exists []. rewrite process_feed_bozo by done. simpl.
    destruct (feeds d !! url); simpl; rewrite app_nil_r;
      (split; [done|]); (split; [lia|]); intros a Ha; by apply elem_of_nil in Ha.
  - exists (new_articles (feed_scan e url kw d tr)).
    rewrite process_feed_parsed by done. simpl. split; [done|]. split; [done|].
    intros a Ha. split; [done|].
    revert a Ha. apply scan_entries_sourced. intros a Ha. by apply elem_of_nil in Ha.
Qed.

(** The mails and the rows of the turn of a feed that parsed, in terms of
    the articles its scan accepted. *)
Lemma process_feed_parsed_effects cfg e (url : string) kw d tr :
  bozo (parse_reply e (length tr) url) = false →
  let o := process_feed cfg e url kw d tr in
  let news := new_articles (feed_scan e url kw d tr) in
  let name := default url (feed_title (parse_reply e (length tr) url)) in
  articles (outcome_db o) = articles d ++ rows_of url (last_id d) news ∧
  known url (outcome_db o) = known url d ∪ list_to_set (na_identifier <$> news) ∧
  sent_mails (outcome_trace o) =
    sent_mails tr ++
    match news with
    | [] => []
    | _ :: _ => [(news_subject name, news_header name +:+ mail_blocks news)]
    end.
Proof.
  intros Hb. cbv zeta. rewrite process_feed_parsed by done. cbv zeta.
  split; [done|]. split.
  - cbn [outcome_db]. rewrite known_with_new_rows. f_equal.
  - cbn [outcome_trace].
    destruct (scan_entries_trace e kw
                {| seen := known url d; new_articles := [];
                   scan_trace := tr ++ [ParseCall url; NowCall] |}
                (entries (parse_reply e (length tr) url))) as (calls & Hc & Hprobe).
    fold (feed_scan e url kw d tr) in Hc. rewrite Hc. cbn [scan_trace].
    rewrite !sent_mails_app, (probes_sent_mails calls Hprobe), app_nil_r.
    destruct (new_articles (feed_scan e url kw d tr)) as [|a news]; simpl;
      by rewrite ?app_nil_r.
Qed.

(** X6. When a feed parses, the rows its turn inserts and the mail it sends
    agree: no row and no mail, or one mail whose body lists exactly the
    inserted rows, in the order of insertion, under the title of the feed or
    its URL. *)
Theorem news_mail_lists_inserted_rows cfg e (url : string) kw d tr :
  bozo (parse_reply e (length tr) url) = false →
  let o := process_feed cfg e url kw d tr in
  let name := default url (feed_title (parse_reply e (length tr) url)) in
  ∃ rows,
    articles (outcome_db o) = articles d ++ rows ∧
    Forall (fun row => feed_url row = url) rows ∧
    sent_mails (outcome_trace o) =
      sent_mails tr ++
      match rows with
      | [] => []
      | _ :: _ =>
          [(news_subject name, news_header name +:+ mail_blocks (row_article <$> rows))]
      end.
Proof.
  intros Hb. cbv zeta.
  destruct (process_feed_parsed_effects cfg e url kw d tr Hb) as (Ha & _ & Hm).
  exists (rows_of url (last_id d) (new_articles (feed_scan e url kw d tr))).
  split; [done|]. split; [apply rows_of_feed_url|].
  rewrite Hm, row_article_rows_of.
  by destruct (new_articles (feed_scan e url kw d tr)).
Qed.

(** The mails of one turn. *)
Lemma process_feed_mails cfg e (url : string) kw d tr :
  ∃ mails,
    sent_mails (outcome_trace (process_feed cfg e url kw d tr)) = sent_mails tr ++ mails ∧
    mails_of_turn e url mails.
Proof.
  destruct (bozo (parse_reply e (length tr) url)) eqn:Hb.
  - rewrite process_feed_bozo by done.
    destruct (feeds d !! url) as [row|]; simpl.
    + destruct (ERROR_THRESHOLD cfg <=? failure_count row + 1).
      * eexists. rewrite sent_mails_app. split; [reflexivity|].
        right. left. exists (length tr). by eexists.
      * exists []. rewrite sent_mails_app. split; [done | by left].
    + exists []. rewrite sent_mails_app. split; [done | by left].
  - destruct (process_feed_parsed_effects cfg e url kw d tr Hb) as (_ & _ & Hm).
    rewrite Hm. eexists. split; [reflexivity|].
    destruct (new_articles (feed_scan e url kw d tr)); [by left|].
    right. right. exists (length tr). by eexists.
Qed.

Lemma poll_feeds_mails cfg e fs d tr :
  ∃ turns,
    sent_mails (outcome_trace (poll_feeds cfg e fs d tr)) = sent_mails tr ++ concat turns ∧
    (Forall2 (fun feed mails => mails_of_turn e feed.1 mails) fs turns ∨
     ∃ x d' tr', poll_feeds cfg e fs d tr = Raised x d' tr').
Proof.
  revert d tr. induction fs as [|[u k] fs IH]; intros d tr.
  - exists []. simpl. rewrite app_nil_r. split; [done|]. left. constructor.
  - simpl. destruct (process_feed_mails cfg e u k d tr) as (mails & Hm & Hturn).
    destruct (process_feed cfg e u k d tr) as [d1 tr1|x d1 tr1]; simpl in Hm.
    + destruct (IH d1 tr1) as (turns & Ht & Hall).
      exists (mails :: turns). simpl. rewrite Ht, Hm, <- app_assoc. split; [done|].
      destruct Hall as [Hall | Hraised]; [left; by constructor | by right].
    + exists [mails]. simpl. rewrite app_nil_r. split; [done|]. right. eauto.
Qed.

(** X5. The mails of a run are those of the turns of the configured feeds,
    in the order of the configuration, and each turn mails nothing or one
    message: the alert for the URL of the feed when its parse failed, or the
    news of the feed when its parse succeeded. So a run hands at most as
    many mails to the mail transport as feeds are listed. *)
Theorem at_most_one_mail_per_feed cfg e d :
  (∃ turns,
     sent_mails (outcome_trace (monitor_feeds cfg e d)) = concat turns ∧
     Forall2 (fun feed mails => mails_of_turn e feed.1 mails) (RSS_FEEDS cfg) turns) ∧
  (length (sent_mails (outcome_trace (monitor_feeds cfg e d))) ≤ length (RSS_FEEDS cfg))%nat.
Proof.
  destruct (monitor_feeds_completes cfg e d) as (d1 & tr1 & Hpoll & -> & _).
  pose proof (ensure_feed_rows_spec e (RSS_FEEDS cfg) d []) as Hens. cbv zeta in Hens.
  destruct Hens as (_ & _ & Hdom & _ & _ & Htr0).
  unfold poll_pass in Hpoll. cbn [outcome_trace]. split.
  - destruct (poll_feeds_mails cfg e (RSS_FEEDS cfg)
                (ensure_feed_rows e (RSS_FEEDS cfg) d []).1
                (ensure_feed_rows e (RSS_FEEDS cfg) d []).2) as (turns & Ht & Hall).
    rewrite Hpoll in Ht, Hall. simpl in Ht.
    destruct Hall as [Hall | (x & d' & tr' & Hraised)]; [|done].
    exists turns. split; [|done].
    rewrite sent_mails_app, Ht, Htr0. simpl.
    rewrite (proj1 (proj2 (replicate_now_calls _))). simpl. by rewrite app_nil_r.
  - destruct (poll_feeds_calls cfg e (RSS_FEEDS cfg)
                (ensure_feed_rows e (RSS_FEEDS cfg) d []).1
                (ensure_feed_rows e (RSS_FEEDS cfg) d []).2) as [_ Hmail].
    { intros u Hin. apply elem_of_dom. rewrite Hdom. set_solver. }
    rewrite Hpoll in Hmail. simpl in *.
    rewrite sent_mails_app. simpl. rewrite app_nil_r.
    rewrite Htr0 in Hmail. simpl in Hmail.
    rewrite (proj1 (proj2 (replicate_now_calls _))) in Hmail. simpl in Hmail. lia.
Qed.

Lemma poll_feeds_rows cfg e fs d tr d' tr' :
  poll_feeds cfg e fs d tr = Done d' tr' →
  ∃ rows,
    articles d' = articles d ++ rows ∧
    last_id d ≤ last_id d' ∧
    NoDup (rowid <$> rows) ∧
    ∀ row, row ∈ rows →
      last_id d < rowid row ≤ last_id d' ∧
      ∃ url kw n,
        (url, kw) ∈ fs ∧ bozo (parse_reply e n url) = false ∧ feed_url row = url ∧
        sourced e kw (entries (parse_reply e n url)) (row_article row).
Proof.
  revert d tr. induction fs as [|[u k] fs IH]; intros d tr Hpoll; simpl in Hpoll.
  - injection Hpoll as <- _. exists []. rewrite app_nil_r.
    split; [done|]. split; [lia|]. split; [constructor|].
    intros row Hrow. by apply elem_of_nil in Hrow.
  - destruct (process_feed_rows cfg e u k d tr) as (news & Ha & Hl & Hsrc).
    destruct (process_feed cfg e u k d tr) as [d1 tr1|]; [|done]. simpl in Ha, Hl.
    destruct (IH d1 tr1 Hpoll) as (rows & Ha' & Hl' & Hnd & Hrows).
    exists (rows_of u (last_id d) news ++ rows).
    split; [by rewrite Ha', Ha, <- app_assoc|]. split; [lia|]. split.
    + rewrite fmap_app. apply NoDup_app. split; [apply rows_of_rowids_NoDup|].
      split; [|done].
      intros i Hi Hi'.
      apply list_elem_of_fmap in Hi as (r1 & -> & Hr1).
      apply list_elem_of_fmap in Hi' as (r2 & Heq & Hr2).
      apply elem_of_rows_of in Hr1 as (_ & _ & Hrange).
      destruct (Hrows r2 Hr2) as [Hrange' _]. lia.
    + intros row Hrow. apply elem_of_app in Hrow as [Hrow | Hrow].
      * apply elem_of_rows_of in Hrow as (Hu & Hart & Hrange).
        split; [lia|]. destruct (Hsrc _ Hart) as [Hb Hs].
        exists u, k, (length tr). repeat split; [left | done | done | done].
      * destruct (Hrows row Hrow) as [Hrange (url & kw & n & Hin & Hrest)].
        split; [lia|]. exists url, kw, n. split; [by right | done].
Qed.

(** What a run does to the articles table: rows are appended by the turns
    of the feeds, then the prune filters the table. *)
Lemma monitor_feeds_rows cfg e d :
  ∃ d1 tr1 rows,
    poll_pass cfg e d = Done d1 tr1 ∧
    monitor_feeds cfg e d =
      Done (delete_older (naive (now_reply e (length tr1)
                                   - timedelta_days (PRUNE_OLDER_THAN_DAYS cfg))) d1)
           (tr1 ++ [NowCall]) ∧
    articles d1 = articles d ++ rows ∧
    last_id d ≤ last_id d1 ∧
    NoDup (rowid <$> rows) ∧
    ∀ row, row ∈ rows →
      last_id d < rowid row ≤ last_id d1 ∧
      ∃ url kw n,
        (url, kw) ∈ RSS_FEEDS cfg ∧ bozo (parse_reply e n url) = false ∧
        feed_url row = url ∧
        sourced e kw (entries (parse_reply e n url)) (row_article row).
Proof.
  destruct (monitor_feeds_completes cfg e d) as (d1 & tr1 & Hpoll & Hrun & _).
  pose proof (ensure_feed_rows_spec e (RSS_FEEDS cfg) d []) as Hens. cbv zeta in Hens.
  destruct Hens as (Ha0 & Hl0 & _).
  pose proof Hpoll as Hpoll'. unfold poll_pass in Hpoll'.
  destruct (poll_feeds_rows cfg e _ _ _ _ _ Hpoll') as (rows & Ha & Hl & Hnd & Hrows).
  exists d1, tr1, rows. rewrite Ha0 in Ha. rewrite Hl0 in Hl, Hrows. auto 10.
Qed.

(** X7. Every article in the database after a run was there before the run,
    or was built in this run from an entry of a configured feed that
    parsed: it carries the URL of the feed, the identifier of the entry, its
    title, link and description or their placeholders, the content fetched
    for it, on which the filter of the feed passed, and the date read for
    it. *)
Theorem stored_article_provenance cfg e d :
  Forall (fun row =>
            row ∈ articles d ∨
            ∃ url kw n item tr,
              (url, kw) ∈ RSS_FEEDS cfg ∧ bozo (parse_reply e n url) = false ∧
              item ∈ entries (parse_reply e n url) ∧
              feed_url row = url ∧
              identifier row = get_article_identifier item ∧
              title row = default "No title" (item_title item) ∧
              link row = default "No link" (item_link item) ∧
              description row = default "No description" (item_description item) ∧
              fetched_content row = (fetch_if_link e (link row) tr).1 ∧
              pub_date row = (read_pub_date e item (fetch_if_link e (link row) tr).2).1 ∧
              matches_filter item (fetched_content row) kw = true)
         (articles (outcome_db (monitor_feeds cfg e d))).
Proof.
  apply Forall_forall. intros row.
  destruct (monitor_feeds_rows cfg e d) as (d1 & tr1 & rows & _ & -> & Ha & _ & _ & Hrows).
  simpl. intros Hin. apply list_elem_of_filter in Hin as [_ Hin].
  rewrite Ha in Hin. apply elem_of_app in Hin as [Hin | Hin]; [by left|]. right.
  destruct (Hrows row Hin) as [_ (url & kw & n & Hcfg & Hb & Hu & item & tr & Hitem & Heq & Hm)].
  exists url, kw, n, item, tr.
  assert (link row = default "No link" (item_link item)) as Hlink.
  { change (link row) with (na_link (row_article row)). by rewrite Heq. }
  rewrite Hlink.
  assert (fetched_content row
          = (fetch_if_link e (default "No link" (item_link item)) tr).1) as Hfc.
  { change (fetched_content row) with (na_fetched_content (row_article row)).
    by rewrite Heq. }
  rewrite Hfc. repeat split; auto.
  - change (identifier row) with (na_identifier (row_article row)). by rewrite Heq.
  - change (title row) with (na_title (row_article row)). by rewrite Heq.
  - change (description row) with (na_description (row_article row)). by rewrite Heq.
  - change (pub_date row) with (na_pub_date (row_article row)). by rewrite Heq.
Qed.

(** X8. A run changes no stored article. Its last call reads the clock for
    the cutoff of the prune, that naive reading minus the retention window.
    Of the articles stored before the run, those whose stored date does not
    sort before the cutoff, text against text as SQLite compares them, are
    there after it, in the same order and before any new one, and the others
    are gone. *)
Theorem stored_articles_only_pruned cfg e d :
  let o := monitor_feeds cfg e d in
  let cutoff := naive (now_reply e (length (outcome_trace o) - 1)
                       - timedelta_days (PRUNE_OLDER_THAN_DAYS cfg)) in
  last (outcome_trace o) = Some NowCall ∧
  (∀ a, a ∈ articles d →
     (a ∈ articles (outcome_db o) ↔
      text_lt (isoformat " " (pub_date a)) (isoformat " " cutoff) = false)) ∧
  ∃ rows, articles (outcome_db o) =
            filter (fun a => pub_date_lt a cutoff = false) (articles d) ++ rows.
Proof.
  destruct (monitor_feeds_rows cfg e d) as (d1 & tr1 & rows & _ & -> & Ha & _).
  cbv zeta. cbn [outcome_trace outcome_db delete_older articles].
  rewrite length_app. simpl. rewrite Nat.add_sub. rewrite Ha.
  split; [apply last_snoc|]. split.
  - intros a Hin. rewrite list_elem_of_filter, elem_of_app. split.
    + by intros [Hp _].
    + intros Hp. split; [done | by left].
  - rewrite filter_app. eauto.
Qed.

(** X9. The ids of the articles stay distinct and below the counter, the
    counter never decreases, and a row inserted by a run gets an id above
    the counter the run started from: an id is not used again, not even the
    id of a pruned row. *)
Theorem rowids_never_reused cfg e d :
  rowids_ok d →
  let d' := outcome_db (monitor_feeds cfg e d) in
  rowids_ok d' ∧ last_id d ≤ last_id d' ∧
  ∀ row, row ∈ articles d' → row ∈ articles d ∨ last_id d < rowid row.
Proof.
  intros [Hnd Hle].
  destruct (monitor_feeds_rows cfg e d)
    as (d1 & tr1 & rows & _ & -> & Ha & Hl & Hndr & Hrows).
  cbv zeta. cbn [outcome_db]. split; [split|split].
  - cbn [delete_older articles].
    eapply sublist_NoDup; [|apply fmap_sublist, sublist_filter].
    rewrite Ha, fmap_app. apply NoDup_app. split; [done|]. split; [|done].
    intros i Hi Hi'.
    apply list_elem_of_fmap in Hi as (r1 & -> & Hr1).
    apply list_elem_of_fmap in Hi' as (r2 & Heq & Hr2).
    specialize (Hle r1 Hr1). destruct (Hrows r2 Hr2) as [Hrange _]. lia.
  - cbn [delete_older articles last_id]. intros a Hin.
    apply list_elem_of_filter in Hin as [_ Hin]. rewrite Ha in Hin.
    apply elem_of_app in Hin as [Hin | Hin].
    + specialize (Hle a Hin). lia.
    + destruct (Hrows a Hin) as [Hrange _]. lia.
  - done.
  - cbn [delete_older articles]. intros row Hin.
    apply list_elem_of_filter in Hin as [_ Hin]. rewrite Ha in Hin.
    apply elem_of_app in Hin as [Hin | Hin]; [by left|].
    right. by destruct (Hrows row Hin) as [[? ?] _].
Qed.

End Rows.

(** ** The pages a run requests *)

Section Requests.
Context {lib : PyLib}.
Implicit Types (cfg : Config) (e : Env) (kw : option string) (d : DB) (tr : Trace).
Implicit Types (fs : list (string * option string)).







End Requests.

(** ** Entries that pass the filter *)

Section Accepted.
Context {lib : PyLib}.
Implicit Types (cfg : Config) (e : Env) (kw : option string) (d : DB) (tr : Trace).

Lemma rows_of_article (url : string) (n : Z) (news : list NewArticle) (a : NewArticle) :
  a ∈ news →
  ∃ row, row ∈ rows_of url n news ∧ feed_url row = url ∧ row_article row = a.
Proof.
  intros Ha. rewrite <- (row_article_rows_of url n news) in Ha.
  apply list_elem_of_fmap in Ha as (row & -> & Hrow).
  exists row. split; [done|]. split; [|done].
  by apply elem_of_rows_of in Hrow as (Hu & _).
Qed.

(** X11. In the turn of a feed that parsed, an entry the filter accepts is
    stored for the feed when the turn ends. If its identifier was not stored
    before, the turn inserted a row with that identifier and sent the news
    mail of the feed. *)
Theorem accepted_entry_is_stored_and_mailed cfg e (url : string) kw d tr (item : Item) :
  bozo (parse_reply e (length tr) url) = false →
  item ∈ entries (parse_reply e (length tr) url) →
  (∀ tr0, matches_filter item
            (fetch_if_link e (default "No link" (item_link item)) tr0).1 kw = true) →
  let o := process_feed cfg e url kw d tr in
  let name := default url (feed_title (parse_reply e (length tr) url)) in
  get_article_identifier item ∈ known url (outcome_db o) ∧
  (get_article_identifier item ∉ known url d →
     (∃ row, row ∈ articles (outcome_db o) ∧ (row ∉ articles d) ∧
             feed_url row = url ∧ identifier row = get_article_identifier item) ∧
     ∃ body, sent_mails (outcome_trace o) = sent_mails tr ++ [(news_subject name, body)]).
Proof.
  intros Hb Hitem Hacc. cbv zeta.
  destruct (process_feed_parsed_effects cfg e url kw d tr Hb) as (Ha & Hk & Hm).
  destruct (feed_scan_inv e url kw d tr) as (_ & _ & Hseen).
  assert (get_article_identifier item ∈ seen (feed_scan e url kw d tr)) as Hin.
  { destruct (scan_entries_covered e kw
                {| seen := known url d; new_articles := [];
                   scan_trace := tr ++ [ParseCall url; NowCall] |}
                (entries (parse_reply e (length tr) url)) item Hitem) as [H | [tr0 H]].
    - exact H.
    - by rewrite Hacc in H. }
  rewrite Hseen in Hin. split; [by rewrite Hk|].
  intros Hout. apply elem_of_union in Hin as [Hin | Hin]; [done|].
  apply elem_of_list_to_set, list_elem_of_fmap in Hin as (a & Hid & Hnews).
  split.
  - destruct (rows_of_article url (last_id d) _ a Hnews) as (row & Hrow & Hu & Hi).
    assert (identifier row = get_article_identifier item) as Hident.
    { change (identifier row) with (na_identifier (row_article row)). congruence. }
    exists row. rewrite Ha. split; [apply elem_of_app; by right|].
    split; [|by split].
    intros Hold. apply Hout. apply elem_of_known, list_elem_of_fmap.
    exists row. split; [|done]. unfold article_key. congruence.
  - rewrite Hm. destruct (new_articles (feed_scan e url kw d tr)) as [|b news].
    + by apply elem_of_nil in Hnews.
    + eauto.
Qed.

End Accepted.

(** ** Feeds out of the configuration *)

Section Unconfigured.
Context {lib : PyLib}.
Implicit Types (cfg : Config) (e : Env) (d : DB).

(** X12. After a run the feeds table holds the rows it held and one row for
    each configured feed. For a feed that is not configured, the run keeps
    its row as it is, if it has one, and only prunes its articles: the
    articles of the feed after the run are those stored before it whose
    stored date does not sort before the cutoff of the prune, text against
    text as SQLite compares them. *)
Theorem unconfigured_feed_only_pruned cfg e d (u : string) :
  u ∉ (RSS_FEEDS cfg).*1 →
  let o := monitor_feeds cfg e d in
  let cutoff := naive (now_reply e (length (outcome_trace o) - 1)
                       - timedelta_days (PRUNE_OLDER_THAN_DAYS cfg)) in
  dom (feeds (outcome_db o)) = dom (feeds d) ∪ list_to_set (RSS_FEEDS cfg).*1 ∧
  feeds (outcome_db o) !! u = feeds d !! u ∧
  articles_of u (outcome_db o) =
    filter (fun a => text_lt (isoformat " " (pub_date a)) (isoformat " " cutoff) = false)
      (articles_of u d).
Proof.
  intros Hout. cbv zeta.
  destruct (monitor_feeds_completes cfg e d) as (d1 & tr1 & Hpoll & -> & _ & Hdom & _).
  pose proof (ensure_feed_rows_spec e (RSS_FEEDS cfg) d []) as Hens. cbv zeta in Hens.
  destruct Hens as (Ha0 & _ & Hdom0 & Hkeep & _ & _).
  unfold poll_pass in Hpoll.
  destruct (poll_feeds_other cfg e _ _ _ _ _ u Hout Hpoll) as (Hf & Ha & _).
  cbn [outcome_db outcome_trace delete_older feeds].
  rewrite length_app. simpl. rewrite Nat.add_sub.
  split; [done|]. split.
  - rewrite Hf. destruct (feeds d !! u) as [row|] eqn:Hrow; [by apply Hkeep|].
    apply not_elem_of_dom. rewrite Hdom0. apply not_elem_of_union. split.
    + by apply not_elem_of_dom.
    + by rewrite elem_of_list_to_set.
  - unfold articles_of in *. rewrite Ha0 in Ha. rewrite <- Ha.
    unfold delete_older. cbn [articles].
    rewrite !list_filter_filter. apply list_filter_iff. intros a.
    unfold pub_date_lt, adapt_datetime. tauto.
Qed.

End Unconfigured.

(** ** The order of the rows *)

Section Order.
Context {lib : PyLib}.
Implicit Types (cfg : Config) (e : Env) (kw : option string) (d : DB) (tr : Trace).

Lemma scan_entries_order e kw s items :
  ∃ l, new_articles (scan_entries e kw s items) = new_articles s ++ l ∧
       sublist (na_identifier <$> l) (get_article_identifier <$> items).
Proof.
  revert s. induction items as [|item items IH]; intros s.
  - exists []. by rewrite app_nil_r.
  - rewrite scan_entries_cons.
    destruct (IH (scan_item e kw s item)) as (l & Hl & Hsub). rewrite Hl.
    scan_item_cases e kw s item Hout.
    + exists l. split; [done|]. by apply sublist_cons.
    + destruct (matches_filter item _ kw); simpl.
      * eexists (_ :: l). rewrite <- app_assoc. split; [reflexivity|].
        simpl. by apply sublist_skip.
      * exists l. split; [done|]. by apply sublist_cons.
Qed.

Lemma identifier_rows_of (url : string) (n : Z) (news : list NewArticle) :
  identifier <$> rows_of url n news = na_identifier <$> news.
Proof.
  rewrite <- (row_article_rows_of url n news) at 2.
  rewrite <- list_fmap_compose. done.
Qed.

(** X13. The rows the turn of a feed inserts follow the order of the
    entries the parser supplied: their identifiers, in the order of
    insertion, are a subsequence of the identifiers of the entries. A turn
    whose parse failed inserts nothing, whatever entries came with the
    failure. *)
Theorem inserted_rows_follow_entries cfg e (url : string) kw d tr :
  ∃ rows,
    articles (outcome_db (process_feed cfg e url kw d tr)) = articles d ++ rows ∧
    sublist (identifier <$> rows)
            (get_article_identifier <$> entries (parse_reply e (length tr) url)) ∧
    (bozo (parse_reply e (length tr) url) = true → rows = []).
Proof.
  destruct (bozo (parse_reply e (length tr) url)) eqn:Hb.
  - exists []. rewrite process_feed_bozo by done. rewrite app_nil_r.
    split; [by destruct (feeds d !! url)|]. split; [apply sublist_nil_l | done].
  - destruct (process_feed_parsed_effects cfg e url kw d tr Hb) as (Ha & _ & _).
    eexists. split; [exact Ha|]. split; [|done].
    rewrite identifier_rows_of.
    destruct (scan_entries_order e kw
                {| seen := known url d; new_articles := [];
                   scan_trace := tr ++ [ParseCall url; NowCall] |}
                (entries (parse_reply e (length tr) url))) as (l & Hl & Hsub).
    fold (feed_scan e url kw d tr) in Hl. by rewrite Hl.
Qed.

End Order.

(** ** An entry through the turn of its feed *)

Section Ingestion.
Context {lib : PyLib}.
Implicit Types (cfg : Config) (e : Env) (kw : option string) (d : DB) (tr : Trace).

Lemma scan_item_seen_bound e kw s item :
  seen (scan_item e kw s item) ⊆ seen s ∪ {[get_article_identifier item]}.
Proof.
  scan_item_cases e kw s item Hout; [set_solver|].
  destruct (matches_filter _ _ _); simpl; set_solver.
Qed.

Lemma scan_item_news e kw s item :
  ∃ l, new_articles (scan_item e kw s item) = new_articles s ++ l.
Proof.
  destruct (scan_entries_order e kw s [item]) as (l & Hl & _).
  rewrite scan_entries_cons, scan_entries_nil in Hl. eauto.
Qed.

Lemma mail_blocks_app (l1 l2 : list NewArticle) :
  mail_blocks (l1 ++ l2) = mail_blocks l1 +:+ mail_blocks l2.
Proof.
  induction l1 as [|a l1 IH]; [done|]. simpl. by rewrite IH, string_app_assoc.
Qed.

(** An entry whose identifier is unseen when the loop starts, that no other
    entry of the list shares its identifier with, and that the filter
    accepts whenever its page is fetched, is accepted at its turn: the loop
    reaches it with some trace [tr1], fetches its page, reads its date, and
    appends the article built from both. *)
Lemma scan_entries_accepts e kw s items item :
  item ∈ items →
  (∀ item', item' ∈ items →
     get_article_identifier item' = get_article_identifier item → item' = item) →
  get_article_identifier item ∉ seen s →
  (∀ tr0, matches_filter item
            (fetch_if_link e (default "No link" (item_link item)) tr0).1 kw = true) →
  ∃ tr1 before after c1 c2,
    tr1 = scan_trace s ++ c1 ∧
    scan_trace (scan_entries e kw s items) =
      (read_pub_date e item
         (fetch_if_link e (default "No link" (item_link item)) tr1).2).2 ++ c2 ∧
    new_articles (scan_entries e kw s items) =
      new_articles s ++ before ++
      accepted item (fetch_if_link e (default "No link" (item_link item)) tr1).1
        (read_pub_date e item
           (fetch_if_link e (default "No link" (item_link item)) tr1).2).1 :: after.
Proof.
  revert s. induction items as [|item' items IH]; intros s Hin Huniq Hout Hacc.
  - by apply elem_of_nil in Hin.
  - rewrite scan_entries_cons.
    destruct (decide (get_article_identifier item' = get_article_identifier item))
      as [Heq|Hne].
    + assert (item' = item) as -> by (apply Huniq; [left | done]).
      pose proof (scan_item_unseen e kw s item Hout) as Hs. cbv zeta in Hs.
      rewrite (Hacc (scan_trace s)) in Hs. rewrite Hs.
      destruct (scan_entries_order e kw
                  {| seen := seen s ∪ {[get_article_identifier item]};
                     new_articles := new_articles s ++
                       [accepted item
                          (fetch_if_link e (default "No link" (item_link item))
                             (scan_trace s)).1
                          (read_pub_date e item
                             (fetch_if_link e (default "No link" (item_link item))
                                (scan_trace s)).2).1];
                     scan_trace :=
                       (read_pub_date e item
                          (fetch_if_link e (default "No link" (item_link item))
                             (scan_trace s)).2).2 |} items) as (l & Hl & _).
      destruct (scan_entries_trace e kw
                  {| seen := seen s ∪ {[get_article_identifier item]};
                     new_articles := new_articles s ++
                       [accepted item
                          (fetch_if_link e (default "No link" (item_link item))
                             (scan_trace s)).1
                          (read_pub_date e item
                             (fetch_if_link e (default "No link" (item_link item))
                                (scan_trace s)).2).1];
                     scan_trace :=
                       (read_pub_date e item
                          (fetch_if_link e (default "No link" (item_link item))
                             (scan_trace s)).2).2 |} items) as (c2 & Hc2 & _).
      exists (scan_trace s), [], l, [], c2.
      rewrite app_nil_r. split; [done|]. split; [exact Hc2|].
      rewrite Hl. simpl. by rewrite <- app_assoc.
    + assert (item ∈ items) as Hin'.
      { apply elem_of_cons in Hin as [-> | Hin]; [done | exact Hin]. }
      assert (get_article_identifier item ∉ seen (scan_item e kw s item')) as Hout'.
      { intros Hs. apply scan_item_seen_bound in Hs. set_solver. }
      destruct (IH (scan_item e kw s item') Hin') as (tr1 & before & after & c1 & c2 & H1 & H2 & H3).
      { intros i Hi. apply Huniq. by right. }
      { exact Hout'. }
      { exact Hacc. }
      destruct (scan_item_trace e kw s item') as (c0 & Hc0 & _).
      destruct (scan_item_news e kw s item') as (l0 & Hl0).
      exists tr1, (l0 ++ before), after, (c0 ++ c1), c2.
      split; [by rewrite H1, Hc0, app_assoc|]. split; [exact H2|].
      rewrite H3, Hl0. by rewrite <- !app_assoc.
Qed.

(** The same entry through the turn of its feed: a row is inserted for it
    with what the loop built, and the news mail of the feed has its block. *)
Lemma process_feed_ingests cfg e (url : string) kw d tr (item : Item) :
  bozo (parse_reply e (length tr) url) = false →
  item ∈ entries (parse_reply e (length tr) url) →
  (∀ item', item' ∈ entries (parse_reply e (length tr) url) →
     get_article_identifier item' = get_article_identifier item → item' = item) →
  get_article_identifier item ∉ known url d →
  (∀ tr0, matches_filter item
            (fetch_if_link e (default "No link" (item_link item)) tr0).1 kw = true) →
  ∃ tr1 row before after c1 c2,
    tr1 = tr ++ ParseCall url :: NowCall :: c1 ∧
    outcome_trace (process_feed cfg e url kw d tr) =
      (read_pub_date e item
         (fetch_if_link e (default "No link" (item_link item)) tr1).2).2 ++ c2 ∧
    row ∈ articles (outcome_db (process_feed cfg e url kw d tr)) ∧
    (row ∉ articles d) ∧
    feed_url row = url ∧
    row_article row =
      accepted item (fetch_if_link e (default "No link" (item_link item)) tr1).1
        (read_pub_date e item
           (fetch_if_link e (default "No link" (item_link item)) tr1).2).1 ∧
    sent_mails (outcome_trace (process_feed cfg e url kw d tr)) =
      sent_mails tr ++
      [(news_subject (default url (feed_title (parse_reply e (length tr) url))),
        news_header (default url (feed_title (parse_reply e (length tr) url))) +:+
        mail_blocks before +:+ article_block (row_article row) +:+ mail_blocks after)].
Proof.
  intros Hb Hitem Huniq Hout Hacc.
  destruct (process_feed_parsed_effects cfg e url kw d tr Hb) as (Ha & _ & Hm).
  destruct (scan_entries_accepts e kw
              {| seen := known url d; new_articles := [];
                 scan_trace := tr ++ [ParseCall url; NowCall] |}
              (entries (parse_reply e (length tr) url)) item Hitem Huniq Hout Hacc)
    as (tr1 & before & after & c1 & c2 & H1 & H2 & H3).
  fold (feed_scan e url kw d tr) in H2, H3. cbn [scan_trace new_articles] in H1, H3.
  rewrite app_nil_l in H3.
  destruct (rows_of_article url (last_id d) (new_articles (feed_scan e url kw d tr))
              (accepted item (fetch_if_link e (default "No link" (item_link item)) tr1).1
                 (read_pub_date e item
                    (fetch_if_link e (default "No link" (item_link item)) tr1).2).1))
    as (row & Hrow & Hu & Hart).
  { rewrite H3. apply elem_of_app. right. left. }
  assert (∃ c3, outcome_trace (process_feed cfg e url kw d tr)
                = scan_trace (feed_scan e url kw d tr) ++ c3) as [c3 Hc3].
  { rewrite process_feed_parsed by done. cbv zeta. cbn [outcome_trace]. eauto. }
  exists tr1, row, before, after, c1, (c2 ++ c3).
  split; [by rewrite H1, <- app_assoc|].
  split; [by rewrite Hc3, H2, app_assoc|].
  split; [rewrite Ha; apply elem_of_app; by right|].
  split.
  { intros Hold. apply Hout. apply elem_of_known, list_elem_of_fmap.
    exists row. split; [|done]. unfold article_key. rewrite Hu. f_equal.
    change (identifier row) with (na_identifier (row_article row)). by rewrite Hart. }
  split; [done|]. split; [done|].
  rewrite Hm, H3, Hart.
  match goal with
  | |- context [article_block ?a] =>
      pose proof (mail_blocks_app before (a :: after)) as Hblocks
  end.
  change (mail_blocks (?a :: after)) with (article_block a +:+ mail_blocks after) in Hblocks.
  rewrite <- Hblocks. by destruct before.
Qed.

Lemma fetch_if_link_fails e (link : string) :
  (∀ n, content_of_reply (get_reply e n link) = None) →
  ∀ tr0, (fetch_if_link e link tr0).1 = None.
Proof.
  intros Hfail tr0. rewrite fetch_if_link_spec. destruct (truthy link); [apply Hfail | done].
Qed.

(** C7, amended. [fetch_article_content] always returns to its caller, after
    one GET: when the request raises, when the status is a 4xx or 5xx code
    (the codes [raise_for_status] raises for), or when readability or the tag
    stripper raises, it returns [None]. Take the turn of a feed that parsed
    and an entry of it, the only one with its identifier, not stored yet,
    whose page cannot be fetched. If the filter passes on its title and
    description alone, the turn inserts a row for the entry, with its
    identifier, title, link and description and without extracted content,
    and the news mail of the feed lists it with the description (the one of
    the feed, or the placeholder of [item.get]) as its content. If the filter
    does not pass on them, no row of the feed has that identifier when the
    turn ends. *)
Theorem fetch_failure_absorbed cfg e (url : string) kw d tr (item : Item) :
  (∀ u tr0,
     fetch_article_content e u tr0 =
       (content_of_reply (get_reply e (length tr0) u), tr0 ++ [GetCall u])) ∧
  (∀ r,
     r = RequestFailed ∨
     (∃ status_code text, r = Response status_code text ∧
        (400 ≤ status_code < 600 ∨ readability_summary text = None ∨
         ∃ content, readability_summary text = Some content ∧ html_data content = None)) →
     content_of_reply r = None) ∧
  (bozo (parse_reply e (length tr) url) = false →
   item ∈ entries (parse_reply e (length tr) url) →
   (∀ item', item' ∈ entries (parse_reply e (length tr) url) →
      get_article_identifier item' = get_article_identifier item → item' = item) →
   get_article_identifier item ∉ known url d →
   (∀ n, content_of_reply (get_reply e n (default "No link" (item_link item))) = None) →
   let o := process_feed cfg e url kw d tr in
   let name := default url (feed_title (parse_reply e (length tr) url)) in
   (matches_filter item None kw = true →
      (∃ row,
         row ∈ articles (outcome_db o) ∧ (row ∉ articles d) ∧
         feed_url row = url ∧
         identifier row = get_article_identifier item ∧
         title row = default "No title" (item_title item) ∧
         link row = default "No link" (item_link item) ∧
         description row = default "No description" (item_description item) ∧
         fetched_content row = None) ∧
      (∃ before after,
         sent_mails (outcome_trace o) =
           sent_mails tr ++
           [(news_subject name,
             news_header name +:+ before +:+
             "Title: " +:+ default "No title" (item_title item) +:+ LF +:+
             "Link: " +:+ default "No link" (item_link item) +:+ LF +:+
             "Content: " +:+ default "No description" (item_description item) +:+
             LF +:+ LF +:+ after)])) ∧
   (matches_filter item None kw = false →
      ∀ row, row ∈ articles (outcome_db o) → feed_url row = url →
             identifier row ≠ get_article_identifier item)).
Proof.
  split; [done|]. split.
  - intros r [-> | (code & text & -> & [H | [H | (content & H1 & H2)]])].
    + apply content_of_reply_failed.
    + by apply content_of_reply_error_status.
    + by apply content_of_reply_unparseable.
    + by eapply content_of_reply_stripper.
  - intros Hb Hitem Huniq Hout Hfail. cbv zeta.
    pose proof (fetch_if_link_fails e _ Hfail) as Hnone. split.
    + intros Hm.
      destruct (process_feed_ingests cfg e url kw d tr item Hb Hitem Huniq Hout)
        as (tr1 & row & before & after & c1 & c2 & _ & _ & Hin & Hnew & Hu & Hart & Hmail).
      { intros tr0. by rewrite Hnone. }
      rewrite Hnone in Hart. split.
      * exists row. split; [done|]. split; [done|]. split; [done|].
        change (identifier row) with (na_identifier (row_article row)).
        change (title row) with (na_title (row_article row)).
        change (link row) with (na_link (row_article row)).
        change (description row) with (na_description (row_article row)).
        change (fetched_content row) with (na_fetched_content (row_article row)).
        by rewrite Hart.
      * exists (mail_blocks before), (mail_blocks after).
        rewrite Hmail, Hart. rewrite article_block_no_content by done. simpl.
        by rewrite !string_app_assoc.
    + intros Hm row Hin Hu Hident.
      destruct (process_feed_avoids cfg e url kw d tr (get_article_identifier item) Hout)
        as [Hk _].
      { intros item' Hitem' Heq. rewrite (Huniq item' Hitem' Heq).
        intros tr0. by rewrite Hnone. }
      apply Hk. apply elem_of_known, list_elem_of_fmap.
      exists row. split; [|done]. unfold article_key. by rewrite Hu, Hident.
Qed.

(** C8. The date never keeps an entry out. Take the turn of a feed that
    parsed and an entry of it, the only one with its identifier, not stored
    yet, that the filter accepts. The turn inserts a row for it, and the
    date of the row is read at a moment of the turn, [tr0] being the trace
    then: a date string supplied by the feed that [fromisoformat] accepts
    once every Z is replaced by a zero offset, in particular a string ending
    in Z whose body carries no Z, is stored as the parsed value; for a
    supplied string that [fromisoformat] rejects the clock is read again and
    that naive reading is stored; when the feed supplies no date, what the
    ISO form of the clock reading made for the default parses to is stored,
    or the second reading if it does not parse. *)
Theorem read_pub_date_never_rejects cfg e (url : string) kw d tr (item : Item) :
  bozo (parse_reply e (length tr) url) = false →
  item ∈ entries (parse_reply e (length tr) url) →
  (∀ item', item' ∈ entries (parse_reply e (length tr) url) →
     get_article_identifier item' = get_article_identifier item → item' = item) →
  get_article_identifier item ∉ known url d →
  (∀ tr0, matches_filter item
            (fetch_if_link e (default "No link" (item_link item)) tr0).1 kw = true) →
  let o := process_feed cfg e url kw d tr in
  let supplied s :=
    item_published item = Some s ∨ (item_published item = None ∧ item_pubdate item = Some s) in
  ∃ row tr0 rest,
    row ∈ articles (outcome_db o) ∧ (row ∉ articles d) ∧
    feed_url row = url ∧ identifier row = get_article_identifier item ∧
    (∃ calls, tr0 = tr ++ calls) ∧
    outcome_trace o = tr0 ++ NowCall :: rest ∧
    (∀ s t, supplied s → fromisoformat (replace_Z s) = Some t → pub_date row = t) ∧
    (∀ s t, supplied (s +:+ "Z") → fromisoformat (replace_Z s +:+ "+00:00") = Some t →
       pub_date row = t) ∧
    (∀ s, supplied s → fromisoformat (replace_Z s) = None →
       pub_date row = naive (now_reply e (S (length tr0))) ∧
       ∃ rest', rest = NowCall :: rest') ∧
    (item_published item = None → item_pubdate item = None →
       (∀ t, fromisoformat
               (replace_Z (isoformat "T" (naive (now_reply e (length tr0))))) = Some t →
          pub_date row = t) ∧
       (fromisoformat
          (replace_Z (isoformat "T" (naive (now_reply e (length tr0))))) = None →
          pub_date row = naive (now_reply e (S (length tr0))) ∧
          ∃ rest', rest = NowCall :: rest')).
Proof.
  intros Hb Hitem Huniq Hout Hacc. cbv zeta.
  destruct (process_feed_ingests cfg e url kw d tr item Hb Hitem Huniq Hout Hacc)
    as (tr1 & row & before & after & c1 & c2 & H1 & Htr & Hin & Hnew & Hu & Hart & _).
  set (tr0 := (fetch_if_link e (default "No link" (item_link item)) tr1).2) in *.
  assert (pub_date row = (read_pub_date e item tr0).1) as Hdate.
  { change (pub_date row) with (na_pub_date (row_article row)). by rewrite Hart. }
  assert (identifier row = get_article_identifier item) as Hident.
  { change (identifier row) with (na_identifier (row_article row)). by rewrite Hart. }
  assert (∃ calls, tr0 = tr ++ calls) as Hprefix.
  { destruct (fetch_if_link_trace e (default "No link" (item_link item)) tr1)
      as (c & Hc & _).
    exists ((ParseCall url :: NowCall :: c1) ++ c). unfold tr0. by rewrite Hc, H1, app_assoc. }
  pose proof (read_pub_date_spec e item tr0) as Hspec. cbv zeta in Hspec.
  pose proof (read_pub_date_cases e item tr0) as Hcases. cbv zeta in Hcases.
  destruct Hcases as (Hok & Hz & Hbad & Habsent).
  assert (∃ rest, outcome_trace (process_feed cfg e url kw d tr) = tr0 ++ NowCall :: rest ∧
            (fromisoformat
               (replace_Z
                  (default (default (isoformat "T" (naive (now_reply e (length tr0))))
                              (item_pubdate item)) (item_published item))) = None →
             ∃ rest', rest = NowCall :: rest')) as (rest & Hrest & Hsecond).
  { rewrite Htr, Hspec. destruct (fromisoformat _); simpl.
    - exists c2. rewrite <- app_assoc. split; [done | done].
    - exists (NowCall :: c2). rewrite <- app_assoc. split; [done | eauto]. }
  exists row, tr0, rest. rewrite Hdate.
  split; [done|]. split; [done|]. split; [done|]. split; [done|].
  split; [done|]. split; [done|].
  split; [exact Hok|]. split; [exact Hz|]. split.
  - intros s Hs Hnone. split; [by apply (Hbad s)|].
    apply Hsecond. by rewrite (supplied_date _ s _ Hs).
  - intros Hp1 Hp2. destruct (Habsent Hp1 Hp2) as [Hsome Hnone]. split; [exact Hsome|].
    intros Hn. split; [by apply Hnone|]. apply Hsecond. by rewrite Hp1, Hp2.
Qed.

End Ingestion.

(** ** What a run changes in a feed row *)

Section Frame.
Context {lib : PyLib}.
Implicit Types (cfg : Config) (e : Env) (kw : option string) (d : DB) (tr : Trace).
Implicit Types (fs : list (string * option string)).

(** The row [INSERT OR IGNORE] creates for a feed without one carries the
    clock reading made for the first listing of the feed. *)
Lemma ensure_feed_rows_created e fs d tr (u : string) :
  feeds d !! u = None → u ∈ fs.*1 →
  ∃ k, fs.*1 !! k = Some u ∧
       feeds (ensure_feed_rows e fs d tr).1 !! u =
         Some {| last_checked := now_reply e (length tr + k); failure_count := 0 |}.
Proof.
  revert d tr. induction fs as [|[url kw] fs IH]; intros d tr Hnone Hin.
  - by apply elem_of_nil in Hin.
  - simpl. destruct (decide (u = url)) as [->|Hne].
    + exists 0%nat. split; [done|]. rewrite Nat.add_0_r.
      apply ensure_feed_rows_spec. unfold insert_or_ignore_feed. rewrite Hnone. simpl.
      by rewrite lookup_insert_eq.
    + destruct (IH (insert_or_ignore_feed url (now_reply e (length tr)) d)
                  (tr ++ [NowCall])) as (k & Hk & Hrow).
      { unfold insert_or_ignore_feed. destruct (feeds d !! url); [done|]. simpl.
        by rewrite lookup_insert_ne. }
      { simpl in Hin. apply elem_of_cons in Hin as [? | Hin]; [done | exact Hin]. }
      exists (S k). split; [done|].
      rewrite Hrow, length_app. simpl. do 3 f_equal. lia.
Qed.

Lemma elem_of_parse_calls (url : string) (tr : Trace) :
  ParseCall url ∈ tr → url ∈ parse_calls tr.
Proof.
  intros Hin. unfold parse_calls. apply list_elem_of_omap.
  by exists (ParseCall url).
Qed.

(** The turn of a feed that parses, within a run: where its parse and the
    clock reading of its reset stand in the trace of the run, and the row
    the run leaves. *)
Lemma monitor_feeds_parsed_at cfg e d (url : string) kw :
  NoDup (RSS_FEEDS cfg).*1 → (url, kw) ∈ RSS_FEEDS cfg → parse_succeeds e url →
  ∃ tr1 rest,
    outcome_trace (monitor_feeds cfg e d) = tr1 ++ ParseCall url :: NowCall :: rest ∧
    (ParseCall url ∉ tr1) ∧
    feeds (outcome_db (monitor_feeds cfg e d)) !! url =
      Some {| last_checked := now_reply e (S (length tr1)); failure_count := 0 |}.
Proof.
  intros Hnd Hin Hok.
  destruct (monitor_feeds_at cfg e d url kw Hnd Hin)
    as (d1 & tr1 & d2 & tr2 & d3 & tr3 & Hp & Hkeep & Hnew & _ & Hpoll & Hrun & Hf3 & _ & [c3 Hc3]).
  rewrite process_feed_parsed in Hp by apply Hok. cbv zeta in Hp.
  injection Hp as <- Htr2.
  destruct (scan_entries_trace e kw
              {| seen := known url d1; new_articles := [];
                 scan_trace := tr1 ++ [ParseCall url; NowCall] |}
              (entries (parse_reply e (length tr1) url))) as (calls & Hc & _).
  fold (feed_scan e url kw d1 tr1) in Hc. rewrite Hc in Htr2. cbn [scan_trace] in Htr2.
  assert (is_Some (feeds d1 !! url)) as [row Hrow].
  { destruct (feeds d !! url) as [row|] eqn:Hd; [by rewrite (Hkeep row)|].
    destruct (Hnew eq_refl) as [n ->]. done. }
  assert (∃ rest, outcome_trace (monitor_feeds cfg e d)
                  = tr1 ++ ParseCall url :: NowCall :: rest) as [rest Hrest].
  { rewrite Hrun, Hc3, <- Htr2. cbn [outcome_trace]. rewrite <- !app_assoc. simpl. eauto. }
  exists tr1, rest. split; [exact Hrest|]. split.
  - intros Hparse. apply elem_of_parse_calls in Hparse.
    assert (parse_calls (outcome_trace (monitor_feeds cfg e d)) = (RSS_FEEDS cfg).*1) as Hcalls.
    { pose proof (ensure_feed_rows_spec e (RSS_FEEDS cfg) d []) as Hens. cbv zeta in Hens.
      destruct Hens as (_ & _ & Hdom & _ & _ & Htr0).
      destruct (poll_feeds_calls cfg e (RSS_FEEDS cfg)
                  (ensure_feed_rows e (RSS_FEEDS cfg) d []).1
                  (ensure_feed_rows e (RSS_FEEDS cfg) d []).2) as [Hparse' _].
      { intros u Hu. apply elem_of_dom. rewrite Hdom. set_solver. }
      unfold poll_pass in Hpoll. rewrite Hpoll in Hparse'. rewrite Hrun. simpl in *.
      rewrite parse_calls_app, Hparse', Htr0. simpl.
      rewrite (proj1 (replicate_now_calls _)). by rewrite app_nil_r. }
    rewrite Hrest, parse_calls_app in Hcalls. simpl in Hcalls.
    rewrite <- Hcalls in Hnd. apply NoDup_app in Hnd as (_ & Hdisj & _).
    apply (Hdisj url Hparse). left.
  - rewrite Hrun. simpl. rewrite Hf3. simpl. by rewrite lookup_alter_eq, Hrow.
Qed.

(** A run in which the parse of a feed without a row fails: the row is the
    one created for the feed, with the reading of the clock call made for
    its listing, and one failure. *)
Lemma monitor_feeds_failed_created cfg e d (url : string) kw :
  NoDup (RSS_FEEDS cfg).*1 → (url, kw) ∈ RSS_FEEDS cfg → parse_fails e url →
  feeds d !! url = None →
  ∃ k, (RSS_FEEDS cfg).*1 !! k = Some url ∧
       outcome_trace (monitor_feeds cfg e d) !! k = Some NowCall ∧
       feeds (outcome_db (monitor_feeds cfg e d)) !! url =
         Some {| last_checked := now_reply e k; failure_count := 1 |}.
Proof.
  intros Hnd Hin Hfail Hnone.
  destruct (ensure_feed_rows_created e (RSS_FEEDS cfg) d [] url Hnone) as (k & Hk & Hrow0).
  { by apply (list_elem_of_fmap_2 fst) in Hin. }
  destruct (monitor_feeds_completes cfg e d) as (d3 & tr3 & Hpoll & Hrun & _).
  pose proof (ensure_feed_rows_spec e (RSS_FEEDS cfg) d []) as Hens. cbv zeta in Hens.
  destruct Hens as (_ & _ & _ & _ & _ & Htr0).
  unfold poll_pass in Hpoll.
  destruct (poll_feeds_at cfg e (RSS_FEEDS cfg) _ _ d3 tr3 url kw Hnd Hin Hpoll)
    as (d1 & tr1 & d2 & tr2 & Hp & Hf1 & _ & Hf3 & _ & [c1 Hc1] & [c3 Hc3]).
  pose proof (process_feed_step cfg e url kw d1 tr1) as [_ [c2 Hc2]].
  rewrite Hp in Hc2. simpl in Hc2.
  rewrite process_feed_bozo in Hp by apply Hfail.
  rewrite Hf1, Hrow0 in Hp. injection Hp as <- _.
  exists k. split; [exact Hk|]. split.
  - rewrite Hrun. cbn [outcome_trace]. rewrite Hc3, Hc2, Hc1, Htr0. simpl.
    rewrite <- !app_assoc. rewrite lookup_app_l.
    + apply lookup_replicate_2. apply lookup_lt_Some in Hk. by rewrite length_fmap in Hk.
    + rewrite length_replicate. apply lookup_lt_Some in Hk. by rewrite length_fmap in Hk.
  - rewrite Hrun. simpl. rewrite Hf3. simpl. rewrite lookup_alter_eq, Hf1, Hrow0. done.
Qed.

(** C9. For a feed of a configuration that lists each URL once. In a run in
    which its parse fails, its row keeps [last_checked] and has
    [failure_count] incremented; a row the run had to create has the reading
    of the clock call made for the listing of the feed, and the count 1; and
    every article of the feed present after the run was present before it.
    In a run in which its parse succeeds, its row has [failure_count] zero
    and, as [last_checked], the reading of the clock call that follows the
    parse of the feed in the trace of the run. No run removes a feed row. *)
Theorem feed_row_frame (cfg : Config) (e : Env) (d : DB) (url : string) (kw : option string) :
  NoDup (RSS_FEEDS cfg).*1 → (url, kw) ∈ RSS_FEEDS cfg →
  let o := monitor_feeds cfg e d in
  let d' := outcome_db o in
  (parse_fails e url →
     (∀ row, feeds d !! url = Some row →
        feeds d' !! url =
          Some {| last_checked := last_checked row;
                  failure_count := failure_count row + 1 |}) ∧
     (feeds d !! url = None →
        ∃ k, (RSS_FEEDS cfg).*1 !! k = Some url ∧
             outcome_trace o !! k = Some NowCall ∧
             feeds d' !! url =
               Some {| last_checked := now_reply e k; failure_count := 1 |}) ∧
     (∀ a, a ∈ articles d' → feed_url a = url → a ∈ articles d)) ∧
  (parse_succeeds e url →
     ∃ tr1 rest,
       outcome_trace o = tr1 ++ ParseCall url :: NowCall :: rest ∧
       (ParseCall url ∉ tr1) ∧
       feeds d' !! url =
         Some {| last_checked := now_reply e (S (length tr1)); failure_count := 0 |}) ∧
  dom (feeds d) ⊆ dom (feeds d').
Proof.
  intros Hnd Hin. cbv zeta. split; [|split].
  - intros Hfail.
    destruct (monitor_feeds_failed cfg e d url kw Hnd Hin Hfail)
      as (row & Hstart & Hrow & Harts & _).
    split; [|split].
    + intros row' Hrow'. destruct Hstart as [Hs | [Hs _]]; [|congruence].
      rewrite Hrow. congruence.
    + by apply (monitor_feeds_failed_created cfg e d url kw).
    + exact Harts.
  - by apply (monitor_feeds_parsed_at cfg e d url kw).
  - apply monitor_feeds_dom.
Qed.

End Frame.

Lemma feed_row_frame_witness :
  feeds (outcome_db (monitor_feeds (lib := example_lib) config_a env_down db_one_old)) !! feed_a
  = Some {| last_checked := 1714000000000000; failure_count := 0 + 1 |}.
Proof.
  apply (proj1 (proj1 (feed_row_frame (lib := example_lib) config_a env_down db_one_old
                         feed_a (Some "python") config_a_NoDup config_a_feed)
                  env_down_fails)
           {| last_checked := 1714000000000000; failure_count := 0 |}).
  reflexivity.
Defined.

(** A run in which the feed parses: the clock is read once for the listing
    of the feed, the feed is parsed, and the reading that follows, the third
    of the trace, is the one the row keeps. *)
Example feed_row_frame_success :
  let o := monitor_feeds (lib := example_lib) config_a (env_offline []) db_one_old in
  firstn 3 (outcome_trace o) = [NowCall; ParseCall feed_a; NowCall] ∧
  feeds (outcome_db o) !! feed_a =
    Some {| last_checked := example_clock 2; failure_count := 0 |}.
Proof. vm_compute. split; reflexivity. Qed.

(** ** Instances *)

Lemma two_entries_distinct (item' : Item) :
  item' ∈ [entry_python; entry_plain] →
  ∀ item, item ∈ [entry_python; entry_plain] →
  get_article_identifier item' = get_article_identifier item → item' = item.
Proof.
  intros H' item H Heq.
  apply elem_of_cons in H' as [-> | H']; [|apply list_elem_of_singleton in H' as ->];
    (apply elem_of_cons in H as [-> | H]; [|apply list_elem_of_singleton in H as ->]);
    try done; discriminate Heq.
Qed.

Lemma fetch_failure_absorbed_witness :
  let e := env_offline [entry_python; entry_plain] in
  let o := process_feed (lib := example_lib) config_a e feed_a (Some "python") empty_db [] in
  content_of_reply (lib := example_lib) (Response 404 "<p>Not found</p>") = None ∧
  (∃ row,
     row ∈ articles (outcome_db o) ∧ (row ∉ articles empty_db) ∧
     feed_url row = feed_a ∧ identifier row = "g1" ∧
     title row = "Python 3.13 released" ∧ link row = "http://example.org/a" ∧
     description row = "Release notes" ∧ fetched_content row = None) ∧
  (∃ before after,
     sent_mails (outcome_trace o) =
       sent_mails [] ++
       [(news_subject "Example",
         news_header "Example" +:+ before +:+
         "Title: " +:+ "Python 3.13 released" +:+ LF +:+
         "Link: " +:+ "http://example.org/a" +:+ LF +:+
         "Content: " +:+ "Release notes" +:+ LF +:+ LF +:+ after)]) ∧
  (∀ row, row ∈ articles (outcome_db o) → feed_url row = feed_a → identifier row ≠ "g2").
Proof.
  cbv zeta.
  pose proof (fetch_failure_absorbed (lib := example_lib) config_a
                (env_offline [entry_python; entry_plain]) feed_a (Some "python")
                empty_db [] entry_python) as (_ & Hnone & Hpython).
  pose proof (fetch_failure_absorbed (lib := example_lib) config_a
                (env_offline [entry_python; entry_plain]) feed_a (Some "python")
                empty_db [] entry_plain) as (_ & _ & Hplain).
  split; [|split; [|split]].
  - apply Hnone. right. exists 404, "<p>Not found</p>". split; [reflexivity|]. left. lia.
  - apply Hpython; try reflexivity.
    + simpl. left.
    + intros item' Hin. by apply two_entries_distinct; [|simpl; left].
    + unfold known. simpl. set_solver.
  - apply Hpython; try reflexivity.
    + simpl. left.
    + intros item' Hin. by apply two_entries_distinct; [|simpl; left].
    + unfold known. simpl. set_solver.
  - apply Hplain; try reflexivity.
    + simpl. right. left.
    + intros item' Hin. by apply two_entries_distinct; [|simpl; right; left].
    + unfold known. simpl. set_solver.
Defined.

(** In that turn the row is the only one and the mail is the one of the
    feed, with the description where the content would be. *)
Example fetch_failure_absorbed_run :
  let o := process_feed (lib := example_lib) config_a
             (env_offline [entry_python; entry_plain]) feed_a (Some "python") empty_db [] in
  (identifier <$> articles (outcome_db o), fetched_content <$> articles (outcome_db o))
    = (["g1"], [None]) ∧
  sent_mails (outcome_trace o) =
    [ ("New RSS Articles: Example",
       "New articles in Example:" +:+ LF +:+ LF +:+
       "Title: Python 3.13 released" +:+ LF +:+
       "Link: http://example.org/a" +:+ LF +:+
       "Content: Release notes" +:+ LF +:+ LF) ].
Proof. vm_compute. split; reflexivity. Qed.

Lemma read_pub_date_never_rejects_witness :
  let e := env_offline [entry_python; entry_plain] in
  let o := process_feed (lib := example_lib) config_a e feed_a None empty_db [] in
  (∃ row, row ∈ articles (outcome_db o) ∧ identifier row = "g1" ∧
          pub_date row = {| wall := 1714564800000000; utcoffset := Some 0 |}) ∧
  (∃ row n, row ∈ articles (outcome_db o) ∧ identifier row = "g2" ∧
            pub_date row = naive (example_clock n)).
Proof.
  cbv zeta. split.
  - destruct (read_pub_date_never_rejects (lib := example_lib) config_a
                (env_offline [entry_python; entry_plain]) feed_a None empty_db []
                entry_python)
      as (row & tr0 & rest & Hin & _ & _ & Hident & _ & _ & _ & Hz & _).
    + reflexivity.
    + simpl. left.
    + intros item' Hin. by apply two_entries_distinct; [|simpl; left].
    + unfold known. simpl. set_solver.
    + intros tr0. reflexivity.
    + exists row. split; [exact Hin|]. split; [exact Hident|].
      apply (Hz "2024-05-01T12:00:00"); [left; reflexivity | reflexivity].
  - destruct (read_pub_date_never_rejects (lib := example_lib) config_a
                (env_offline [entry_python; entry_plain]) feed_a None empty_db []
                entry_plain)
      as (row & tr0 & rest & Hin & _ & _ & Hident & _ & _ & _ & _ & Hbad & _).
    + reflexivity.
    + simpl. right. left.
    + intros item' Hin. by apply two_entries_distinct; [|simpl; right; left].
    + unfold known. simpl. set_solver.
    + intros tr0. reflexivity.
    + exists row, (S (length tr0)). split; [exact Hin|]. split; [exact Hident|].
      apply (Hbad "not a date"); [left; reflexivity | reflexivity].
Defined.

(** In that turn the dates stored are the one the feed gave, with its zero
    offset, and for the string that is no date the second reading of the
    clock made for the entry; what SQLite keeps is their text. *)
Example read_pub_date_never_rejects_run :
  let o := process_feed (lib := example_lib) config_a
             (env_offline [entry_python; entry_plain]) feed_a None empty_db [] in
  (fun a => (identifier a, adapt_datetime (lib := example_lib) (pub_date a)))
    <$> articles (outcome_db o)
  = [("g1", "2024-05-01 12:00:00+00:00"); ("g2", "2024-05-02 12:00:06")].
Proof. vm_compute. reflexivity. Qed.

Lemma news_mail_lists_inserted_rows_witness :
  let e := env_online [entry_python; entry_plain] "<p>Rust</p>" in
  let o := process_feed (lib := example_lib) config_a e feed_a (Some "python") empty_db [] in
  ∃ rows,
    articles (outcome_db o) = articles empty_db ++ rows ∧
    Forall (fun row => feed_url row = feed_a) rows ∧
    sent_mails (outcome_trace o) =
      sent_mails [] ++
      match rows with
      | [] => []
      | _ :: _ =>
          [(news_subject "Example",
            news_header "Example" +:+ mail_blocks (row_article <$> rows))]
      end.
Proof.
  cbv zeta.
  apply (news_mail_lists_inserted_rows (lib := example_lib) config_a
           (env_online [entry_python; entry_plain] "<p>Rust</p>")
           feed_a (Some "python") empty_db []).
  reflexivity.
Defined.

Lemma rowids_ok_db_one_old : rowids_ok db_one_old.
Proof.
  split.
  - simpl. apply NoDup_singleton.
  - intros a Ha. apply list_elem_of_singleton in Ha. subst a. simpl. lia.
Qed.

Lemma rowids_never_reused_witness :
  let e := env_online [entry_python; entry_plain] "<p>Rust</p>" in
  let d' := outcome_db (monitor_feeds (lib := example_lib) config_a e db_one_old) in
  rowids_ok d' ∧ last_id db_one_old ≤ last_id d' ∧
  ∀ row, row ∈ articles d' → row ∈ articles db_one_old ∨ last_id db_one_old < rowid row.
Proof.
  cbv zeta.
  apply (rowids_never_reused (lib := example_lib) config_a
           (env_online [entry_python; entry_plain] "<p>Rust</p>") db_one_old).
  exact rowids_ok_db_one_old.
Defined.

Lemma accepted_entry_is_stored_and_mailed_witness :
  let e := env_online [entry_python; entry_plain] "<p>Rust</p>" in
  let o := process_feed (lib := example_lib) config_a e feed_a (Some "python") empty_db [] in
  "g1" ∈ known feed_a (outcome_db o) ∧
  ("g1" ∉ known feed_a empty_db →
     (∃ row, row ∈ articles (outcome_db o) ∧ (row ∉ articles empty_db) ∧
             feed_url row = feed_a ∧ identifier row = "g1") ∧
     ∃ body, sent_mails (outcome_trace o)
             = sent_mails [] ++ [(news_subject "Example", body)]).
Proof.
  cbv zeta.
  apply (accepted_entry_is_stored_and_mailed (lib := example_lib) config_a
           (env_online [entry_python; entry_plain] "<p>Rust</p>")
           feed_a (Some "python") empty_db [] entry_python).
  - reflexivity.
  - simpl. left.
  - intros tr0. reflexivity.
Defined.

Lemma unconfigured_feed_only_pruned_witness :
  let e := env_online [entry_python; entry_plain] "<p>Rust</p>" in
  let cfg := {| RSS_FEEDS := [("https://example.org/other", None)];
                PRUNE_OLDER_THAN_DAYS := 30; ERROR_THRESHOLD := 3 |} in
  let o := monitor_feeds (lib := example_lib) cfg e db_one_old in
  let cutoff := naive (now_reply e (length (outcome_trace o) - 1)
                       - timedelta_days (PRUNE_OLDER_THAN_DAYS cfg)) in
  dom (feeds (outcome_db o)) = dom (feeds db_one_old) ∪ list_to_set (RSS_FEEDS cfg).*1 ∧
  feeds (outcome_db o) !! feed_a = feeds db_one_old !! feed_a ∧
  articles_of feed_a (outcome_db o) =
    filter (fun a => text_lt (isoformat (PyLib := example_lib) " " (pub_date a))
                       (isoformat (PyLib := example_lib) " " cutoff) = false)
      (articles_of feed_a db_one_old).
Proof.
  cbv zeta.
  apply (unconfigured_feed_only_pruned (lib := example_lib)
           {| RSS_FEEDS := [("https://example.org/other", None)];
              PRUNE_OLDER_THAN_DAYS := 30; ERROR_THRESHOLD := 3 |}
           (env_online [entry_python; entry_plain] "<p>Rust</p>") db_one_old feed_a).
  simpl. intros H. apply list_elem_of_singleton in H. discriminate H.
Defined.

(** In that run the article of the feed that is no longer configured is
    older than the window and goes, while its row in the feeds table stays. *)
Example unconfigured_feed_pruned_away :
  let e := env_online [entry_python; entry_plain] "<p>Rust</p>" in
  let cfg := {| RSS_FEEDS := [("https://example.org/other", None)];
                PRUNE_OLDER_THAN_DAYS := 30; ERROR_THRESHOLD := 3 |} in
  let d' := outcome_db (monitor_feeds (lib := example_lib) cfg e db_one_old) in
  articles_of feed_a d' = [] ∧
  feeds d' !! feed_a = Some {| last_checked := 1714000000000000; failure_count := 0 |}.
Proof. vm_compute. split; reflexivity. Qed.

(** A run that requests pages: both entries are unknown, both pages are
    requested, in the order of the entries. *)
Example pages_requested_example :
  get_calls (outcome_trace
               (monitor_feeds (lib := example_lib) config_a
                  (env_online [entry_python; entry_plain] "<p>Rust</p>") empty_db))
  = ["http://example.org/a"; "http://example.org/b"].
Proof. vm_compute. reflexivity. Qed.

(** An entry without a link is requested under the placeholder. *)
Example page_of_entry_without_link :
  get_calls (outcome_trace
               (monitor_feeds (lib := example_lib) config_a
                  (env_offline [ {| item_guid := Some "g9"; item_link := None;
                                    item_title := Some "Python"; item_description := None;
                                    item_published := None; item_pubdate := None |} ])
                  empty_db))
  = ["No link"].
Proof. vm_compute. reflexivity. Qed.
